(** * bt.core: the tree-structured portfolio engine, embedded in Rocq

    The development follows [src/bt/core.py], run as plain Python (the
    [cy.declare] and [cy.locals] annotations then declare nothing).

    A number is a Python [int], a Python [float] or a [numpy.float64]:
    the literals of the source are of the first two kinds, a price read
    from the panel and everything computed from one is of the third.
    The value of a number is an exact rational, not-a-number or an
    infinity.  [NaN] propagates through the arithmetic, every comparison
    with [NaN] is false (so [x != x] holds for it).  A division by zero
    raises [ZeroDivisionError] when both operands are Python numbers,
    and returns an infinity or [NaN] as soon as one of them is a
    [numpy.float64].  Rounding error, overflow of doubles and the sign
    of zero are outside the model.

    Python exceptions keep the mutations done before the raise, so every
    fallible operation returns an [outcome] that carries the state
    reached, on the normal and on the exceptional path alike. *)

From Stdlib Require Import ZArith QArith Qround Qabs Lqa Lia List String Bool.
From Stdlib Require Import Setoid Morphisms.
From AAC_tactics Require Import AAC.
Import ListNotations.
Open Scope Q_scope.

Set Implicit Arguments.

(** ** Exceptions *)

Inductive exn : Type :=
| ValueError          (* negative root value, floor/ceil of nan *)
| ZeroDivisionError
| OverflowError       (* floor/ceil of an infinity *)
| TypeError           (* np.isnan of an int beyond 64 bits *)
| KeyError
| AttributeError
| AllocError.         (* the bare [Exception] raised by SecurityBase.allocate *)

(** ** Numbers *)

Module Num.

Inductive kind : Type :=
| PyInt        (* int *)
| PyFloat      (* float *)
| Float64.     (* numpy.float64 *)

Inductive ext : Type :=
| Fin (q : Q)
| NaN
| Inf (neg : bool).

(** A number: its kind and its value.  The value of an [int] is a whole
    rational; the operations below keep it so. *)
Record num : Type := Num { kind_of : kind; valof : ext }.

Definition Int (z : Z) : num := Num PyInt (Fin (inject_Z z)).
Definition Flt (q : Q) : num := Num PyFloat (Fin q).
Definition F64 (q : Q) : num := Num Float64 (Fin q).

(** [np.nan], which is a Python float. *)
Definition nan : num := Num PyFloat NaN.

(** A number stored in, or read from, a [float64] column of pandas. *)
Definition to_f64 (a : num) : num := Num Float64 (valof a).

Definition zero : num := Int 0.
Definition one : num := Int 1.

(** The kind of the result of [+], [-], [*]. *)
Definition join (k1 k2 : kind) : kind :=
  match k1, k2 with
  | Float64, _ | _, Float64 => Float64
  | PyFloat, _ | _, PyFloat => PyFloat
  | PyInt, PyInt => PyInt
  end.

Definition negative (x : Q) : bool :=
  match x ?= 0 with Lt => true | _ => false end.

Definition eadd (a b : ext) : ext :=
  match a, b with
  | Fin x, Fin y => Fin (x + y)
  | NaN, _ | _, NaN => NaN
  | Inf s, Inf t => if Bool.eqb s t then Inf s else NaN
  | Inf s, Fin _ | Fin _, Inf s => Inf s
  end.

Definition eneg (a : ext) : ext :=
  match a with Fin x => Fin (- x) | NaN => NaN | Inf s => Inf (negb s) end.

Definition esub (a b : ext) : ext :=
  match a, b with
  | Fin x, Fin y => Fin (x - y)
  | NaN, _ | _, NaN => NaN
  | Inf s, Inf t => if Bool.eqb s t then NaN else Inf s
  | Inf s, Fin _ => Inf s
  | Fin _, Inf s => Inf (negb s)
  end.

Definition emul (a b : ext) : ext :=
  match a, b with
  | Fin x, Fin y => Fin (x * y)
  | NaN, _ | _, NaN => NaN
  | Inf s, Inf t => Inf (xorb s t)
  | Inf s, Fin y | Fin y, Inf s =>
      if Qeq_bool y 0 then NaN else Inf (xorb s (negative y))
  end.

Definition eabs (a : ext) : ext :=
  match a with Fin x => Fin (Qabs x) | NaN => NaN | Inf _ => Inf false end.

(** The quotient of IEEE 754, which is numpy's; Python's agrees with it
    when the divisor is not zero. *)
Definition ediv (a b : ext) : ext :=
  match a, b with
  | NaN, _ | _, NaN => NaN
  | Fin x, Fin y =>
      if Qeq_bool y 0 then
        if Qeq_bool x 0 then NaN else Inf (negative x)
      else Fin (x / y)
  | Fin _, Inf _ => Fin 0
  | Inf s, Fin y => Inf (xorb s (negative y))
  | Inf _, Inf _ => NaN
  end.

Definition add (a b : num) : num :=
  Num (join (kind_of a) (kind_of b)) (eadd (valof a) (valof b)).
Definition sub (a b : num) : num :=
  Num (join (kind_of a) (kind_of b)) (esub (valof a) (valof b)).
Definition mul (a b : num) : num :=
  Num (join (kind_of a) (kind_of b)) (emul (valof a) (valof b)).
Definition neg (a : num) : num := Num (kind_of a) (eneg (valof a)).
Definition abs (a : num) : num := Num (kind_of a) (eabs (valof a)).

(** Whether the value is not-a-number. *)
Definition isnan (a : num) : bool :=
  match valof a with NaN => true | _ => false end.

(** [np.isnan(a)]: [None] stands for the [TypeError] that numpy raises
    on an [int] that fits neither [int64] nor [uint64]. *)
Definition np_isnan (a : num) : option bool :=
  match kind_of a, valof a with
  | PyInt, Fin x =>
      if (Qle_bool (inject_Z (- 2 ^ 63)) x
          && negb (Qle_bool (inject_Z (2 ^ 64)) x))%bool
      then Some false else None
  | _, _ => Some (isnan a)
  end.

(** Python's [==], [!=], [<], [>], which compare the values. *)
Definition eeqb (a b : ext) : bool :=
  match a, b with
  | Fin x, Fin y => Qeq_bool x y
  | Inf s, Inf t => Bool.eqb s t
  | _, _ => false
  end.

Definition eltb (a b : ext) : bool :=
  match a, b with
  | Fin x, Fin y => match x ?= y with Lt => true | _ => false end
  | Inf true, Fin _ | Fin _, Inf false | Inf true, Inf false => true
  | _, _ => false
  end.

Definition eqb (a b : num) : bool := eeqb (valof a) (valof b).
Definition neqb (a b : num) : bool := negb (eqb a b).
Definition ltb (a b : num) : bool := eltb (valof a) (valof b).
Definition gtb (a b : num) : bool := ltb b a.

(** [is_zero a] is [a == 0]. *)
Definition is_zero (a : num) : bool := eqb a zero.

(** Python's [max(1, x)]: [x] is returned only when [x > 1]. *)
Definition max1 (a : num) : num := if gtb a one then a else one.

(** [a / b]: [None] stands for [ZeroDivisionError], which only a
    division of Python numbers raises; with a [numpy.float64] on either
    side the quotient is numpy's (and a warning is printed). *)
Definition div (a b : num) : option num :=
  match join (kind_of a) (kind_of b) with
  | Float64 => Some (Num Float64 (ediv (valof a) (valof b)))
  | _ =>
      if eeqb (valof b) (Fin 0) then None
      else Some (Num PyFloat (ediv (valof a) (valof b)))
  end.

(** [math.floor] and [math.ceil], which return an [int]: [ValueError]
    on a not-a-number argument, [OverflowError] on an infinite one. *)
Definition floor (a : num) : exn + num :=
  match valof a with
  | Fin x => inr (Int (Qfloor x))
  | NaN => inl ValueError
  | Inf _ => inl OverflowError
  end.

Definition ceil (a : num) : exn + num :=
  match valof a with
  | Fin x => inr (Int (Qceiling x))
  | NaN => inl ValueError
  | Inf _ => inl OverflowError
  end.

(** The same value: equal as rationals, both not-a-number, or the same
    infinity. *)
Definition esame (a b : ext) : Prop :=
  match a, b with
  | Fin x, Fin y => x == y
  | NaN, NaN => True
  | Inf s, Inf t => s = t
  | _, _ => False
  end.

(** [eqv]: numbers of the same value, whatever their kinds.  [same]:
    numbers of the same kind and value, which no operation tells apart.
    This is the equality of stored values, as opposed to Python's [==]. *)
Definition eqv (a b : num) : Prop := esame (valof a) (valof b).

Definition same (a b : num) : Prop :=
  kind_of a = kind_of b /\ eqv a b.

End Num.

Import Num.

Declare Scope num_scope.
Delimit Scope num_scope with num.
Bind Scope num_scope with num.
Infix "+" := Num.add : num_scope.
Infix "-" := Num.sub : num_scope.
Infix "*" := Num.mul : num_scope.
Notation "- x" := (Num.neg x) : num_scope.
Infix "≡" := Num.same (at level 70, no associativity).
Infix "≃" := Num.eqv (at level 70, no associativity).

(** ** Outcomes *)

(** [Ok s]: the call returned, leaving state [s].  [Raise e s]: the call
    raised [e], and [s] is the state at the raise. *)
Inductive outcome (S : Type) : Type :=
| Ok (s : S)
| Raise (e : exn) (s : S).

Arguments Ok {S} s.
Arguments Raise {S} e s.

Definition state_of {S} (o : outcome S) : S :=
  match o with Ok s => s | Raise _ s => s end.

Definition returned {S} (o : outcome S) : bool :=
  match o with Ok _ => true | Raise _ _ => false end.

Definition raised {S} (o : outcome S) : option exn :=
  match o with Ok _ => None | Raise e _ => Some e end.

(** Sequencing: continue from the state of a normal return, stop at a raise. *)
Definition bind {S T} (o : outcome S) (k : S -> outcome T) (back : S -> T)
  : outcome T :=
  match o with
  | Ok s => k s
  | Raise e s => Raise e (back s)
  end.

(** ** Time series and the universe *)

(** A pandas Series keyed by date.  Reading a missing key raises
    [KeyError]; writing a key sets it, enlarging the series if needed. *)
Definition date := Z.
Definition series := list (date * num).

Fixpoint series_get (d : date) (s : series) : option num :=
  match s with
  | [] => None
  | (k, v) :: rest => if Z.eqb k d then Some v else series_get d rest
  end.

Fixpoint series_set (d : date) (v : num) (s : series) : series :=
  match s with
  | [] => [(d, v)]
  | (k, w) :: rest =>
      if Z.eqb k d then (k, v) :: rest else (k, w) :: series_set d v rest
  end.

(** The price panel: a date axis and one series per symbol. *)
Record universe : Type := {
  u_index : list date;
  u_columns : list (string * series)
}.

Fixpoint assoc {A} (k : string) (l : list (string * A)) : option A :=
  match l with
  | [] => None
  | (k', v) :: rest => if String.eqb k' k then Some v else assoc k rest
  end.

(** [d[k] = v] on an insertion-ordered dict. *)
Fixpoint assoc_set {A} (k : string) (v : A) (l : list (string * A))
  : list (string * A) :=
  match l with
  | [] => [(k, v)]
  | (k', w) :: rest =>
      if String.eqb k' k then (k', v) :: rest else (k', w) :: assoc_set k v rest
  end.

Definition mem_key {A} (k : string) (l : list (string * A)) : bool :=
  match assoc k l with Some _ => true | None => false end.

(** A column of the given value over the date axis. *)
Definition const_series (idx : list date) (v : num) : series :=
  map (fun d => (d, v)) idx.

(** ** Strategy fields ([StrategyBase.__init__], [Node.__init__])

    The scalar and series slots of a strategy.  The children and the paper
    twin are kept in the tree ([node], below), so that a child can be handed
    its parent's slots when it calls [self.parent.adjust]. *)

Module StrategyBase.

Record fields : Type := {
  name : string;
  now : date;
  _price : num;
  _value : num;
  _weight : num;
  _capital : num;
  _net_flows : num;
  _last_value : num;
  _last_price : num;
  _last_fee : num;
  _paper_trade : bool;
  _has_strat_children : bool;
  _strat_children : list string;
  _universe : universe;
  _prices : series;
  _values : series;
  _cash : series;
  _fees : series;
  commission_fn : num -> num -> num
}.

(** [_dflt_comm_fn]: [max(1, abs(q) * 0.01)]. *)
Definition _dflt_comm_fn (q p : num) : num :=
  max1 (Num.abs q * Flt (1 # 100))%num.

(** The slots as [__init__] leaves them, on a universe given at [setup],
    whose [data] frame is made of [float64] columns of [0.0]. *)
Definition init (nm : string) (u : universe) : fields := {|
  name := nm; now := 0%Z;
  _price := Int 100; _value := Int 0; _weight := Int 1; _capital := Int 0;
  _net_flows := Int 0; _last_value := Int 0; _last_price := Int 100;
  _last_fee := Int 0;
  _paper_trade := false; _has_strat_children := false;
  _strat_children := []; _universe := u;
  _prices := const_series (u_index u) (F64 0);
  _values := const_series (u_index u) (F64 0);
  _cash := const_series (u_index u) (F64 0);
  _fees := const_series (u_index u) (F64 0);
  commission_fn := _dflt_comm_fn
|}.

Definition with_money (capital net_flows last_fee : num) (d : fields) := {|
  name := name d; now := now d; _price := _price d; _value := _value d;
  _weight := _weight d; _capital := capital; _net_flows := net_flows;
  _last_value := _last_value d; _last_price := _last_price d;
  _last_fee := last_fee; _paper_trade := _paper_trade d;
  _has_strat_children := _has_strat_children d;
  _strat_children := _strat_children d; _universe := _universe d;
  _prices := _prices d; _values := _values d; _cash := _cash d;
  _fees := _fees d; commission_fn := commission_fn d
|}.

(** [adjust(amount, update, flow, fee)], on the slots of the strategy and
    the root's stale flag.
<<
      self._capital += amount
      self._last_fee += fee
      if flow:
          self._net_flows += amount
      if update:
          self.root.stale = True
>> *)
Definition adjust (amount : num) (update flow : bool) (fee : num)
           (d : fields) (stale : bool) : fields * bool :=
  (with_money (_capital d + amount)%num
              (if flow then (_net_flows d + amount)%num else _net_flows d)
              (_last_fee d + fee)%num d,
   if update then true else stale).

End StrategyBase.

Definition sdata : Type := StrategyBase.fields.

(** ** Securities *)

Module SecurityBase.

Record security : Type := {
  name : string;
  now : date;
  _price : num;
  _value : num;
  _weight : num;
  _position : num;
  multiplier : num;
  _last_pos : num;
  _needupdate : bool;
  _prices_set : bool;
  _prices : series;
  _values : series;
  _positions : series
}.

(** [SecurityBase(name, multiplier)] followed by [setup(universe)].  With
    a column of prices in the universe the [data] frame has [float64]
    columns of [0.0]; without one its columns are created empty, of
    dtype [object]. *)
Definition init_setup (nm : string) (mult : num) (u : universe) : security :=
  let zeros := const_series (u_index u) (F64 0) in
  let nans := const_series (u_index u) nan in
  match assoc nm (u_columns u) with
  | Some prices => {|
      name := nm; now := 0%Z; _price := Int 0; _value := Int 0;
      _weight := Int 0; _position := Int 0; multiplier := mult;
      _last_pos := Int 0; _needupdate := true; _prices_set := true;
      _prices := prices; _values := zeros; _positions := zeros |}
  | None => {|
      name := nm; now := 0%Z; _price := Int 0; _value := Int 0;
      _weight := Int 0; _position := Int 0; multiplier := mult;
      _last_pos := Int 0; _needupdate := true; _prices_set := false;
      _prices := nans; _values := nans; _positions := nans |}
  end.

(** What a write into a column of [data] stores: a [float64] column
    converts the number, an [object] column keeps it as it is. *)
Definition stored (s : security) (v : num) : num :=
  if _prices_set s then to_f64 v else v.

Definition set_now (d : date) (s : security) := {|
  name := name s; now := d; _price := _price s; _value := _value s;
  _weight := _weight s; _position := _position s;
  multiplier := multiplier s; _last_pos := _last_pos s;
  _needupdate := _needupdate s; _prices_set := _prices_set s;
  _prices := _prices s; _values := _values s; _positions := _positions s |}.

Definition set_price (p : num) (prices : series) (s : security) := {|
  name := name s; now := now s; _price := p; _value := _value s;
  _weight := _weight s; _position := _position s;
  multiplier := multiplier s; _last_pos := _last_pos s;
  _needupdate := _needupdate s; _prices_set := _prices_set s;
  _prices := prices; _values := _values s; _positions := _positions s |}.

Definition set_weight (w : num) (s : security) := {|
  name := name s; now := now s; _price := _price s; _value := _value s;
  _weight := w; _position := _position s;
  multiplier := multiplier s; _last_pos := _last_pos s;
  _needupdate := _needupdate s; _prices_set := _prices_set s;
  _prices := _prices s; _values := _values s; _positions := _positions s |}.

(** The tail of [update]: positions, last position, value, dormancy. *)
Definition revalue (d : date) (s : security) : security :=
  let v := (_position s * _price s * multiplier s)%num in {|
  name := name s; now := now s; _price := _price s; _value := v;
  _weight := _weight s; _position := _position s;
  multiplier := multiplier s; _last_pos := _position s;
  _needupdate :=
    if (Num.eqb (_weight s) zero && Num.eqb (_position s) zero)%bool
    then false else _needupdate s;
  _prices_set := _prices_set s;
  _prices := _prices s; _values := series_set d (stored s v) (_values s);
  _positions := series_set d (stored s (_position s)) (_positions s) |}.

(** The trade of [allocate]: [_needupdate = True; _position += q]. *)
Definition trade (q : num) (s : security) := {|
  name := name s; now := now s; _price := _price s; _value := _value s;
  _weight := _weight s; _position := (_position s + q)%num;
  multiplier := multiplier s; _last_pos := _last_pos s;
  _needupdate := true; _prices_set := _prices_set s;
  _prices := _prices s; _values := _values s; _positions := _positions s |}.

(** [update(date, data)].
<<
      if date == self.now and self._last_pos == self._position:
          return
      if date != self.now:
          self.now = date
          if self._prices_set:
              self._price = self._prices[self.now]
          elif data is not None:
              prc = data[self.name]
              self._price = prc
              self._prices[date] = prc
      self._positions[date] = self._position
      self._last_pos = self._position
      self._value = self._position * self._price * self.multiplier
      self._values[date] = self._value
      if self._weight == 0 and self._position == 0:
          self._needupdate = False
>> *)
Definition update (d : date) (data : option (list (string * num)))
           (s : security) : outcome security :=
  if (Z.eqb d (now s) && Num.eqb (_last_pos s) (_position s))%bool then Ok s
  else
    let priced :=
      if negb (Z.eqb d (now s)) then
        let s1 := set_now d s in
        if _prices_set s1 then
          match series_get d (_prices s1) with
          | Some p => Ok (set_price (to_f64 p) (_prices s1) s1)
          | None => Raise KeyError s1
          end
        else
          match data with
          | Some row =>
              match assoc (name s1) row with
              | Some prc => Ok (set_price prc (series_set d prc (_prices s1)) s1)
              | None => Raise KeyError s1
              end
          | None => Ok s1
          end
      else Ok s in
    match priced with
    | Ok s2 => Ok (revalue d s2)
    | Raise e s2 => Raise e s2
    end.

(** What [allocate] touches: the security, its parent's slots ([None] when
    the security is its own parent) and the root's stale flag. *)
Record scope : Type := {
  parent : option sdata;
  stale : bool;
  self : security
}.

Definition parent_now (w : scope) : date :=
  match parent w with
  | Some p => StrategyBase.now p
  | None => now (self w)
  end.

Definition with_self (s : security) (w : scope) : scope :=
  {| parent := parent w; stale := stale w; self := s |}.

(** The share quantity of [allocate] for a security whose price passed
    the check; [inl] carries the exception of [/], [floor] or [ceil]. *)
Definition quantity (s : security) (amount : num) : exn + num :=
  if Num.eqb amount (- _value s)%num then inr (- _position s)%num
  else
    match Num.div amount (_price s * multiplier s)%num with
    | None => inl ZeroDivisionError
    | Some x =>
        if (Num.gtb (_position s) zero
            || (Num.eqb (_position s) zero && Num.gtb amount zero))%bool
        then Num.floor x else Num.ceil x
    end.

(** [commission(q, p)]: [self.parent.commission_fn(q, p)]. *)
Definition commission (p : sdata) (q price : num) : num :=
  StrategyBase.commission_fn p q price.

(** [outlay(q)]: the full outlay and the fee. *)
Definition outlay (p : sdata) (s : security) (q : num) : num * num :=
  let fee := commission p q (_price s * multiplier s)%num in
  ((q * _price s * multiplier s + fee)%num, fee).

(** The head of [allocate]: the security is brought to its parent's date.
<<
      if self._needupdate or self.now != self.parent.now:
          self.update(self.parent.now)
>> *)
Definition sync (w : scope) : outcome scope :=
  if (_needupdate (self w) || negb (Z.eqb (now (self w)) (parent_now w)))%bool
  then match update (parent_now w) None (self w) with
       | Ok s => Ok (with_self s w)
       | Raise e s => Raise e (with_self s w)
       end
  else Ok w.

(** [b or np.isnan(a)], [b] being a comparison already made: numpy is
    asked only when [b] is false.  [None] is its [TypeError]. *)
Definition or_isnan (b : bool) (a : num) : option bool :=
  if b then Some true else np_isnan a.

(** The rest of [allocate]: the checks, the quantity, the trade.
<<
      if amount == 0:
          return
      if self.parent is self or self.parent is None:
          raise Exception(...)
      if self._price == 0 or np.isnan(self._price):
          raise Exception(...)
      ... q ...
      if q == 0 or np.isnan(q):
          return
      self._needupdate = True
      self._position += q
      outlay, fee = self.outlay(q)
      self.parent.adjust(-outlay, update=update, flow=False, fee=fee)
>> *)
Definition place (amount : num) (upd : bool) (w : scope) : outcome scope :=
  let s := self w in
  if Num.eqb amount zero then Ok w
  else
    match parent w with
    | None => Raise AllocError w
    | Some p =>
        match or_isnan (Num.eqb (_price s) zero) (_price s) with
        | None => Raise TypeError w
        | Some true => Raise AllocError w
        | Some false =>
            match quantity s amount with
            | inl e => Raise e w
            | inr q =>
                match or_isnan (Num.eqb q zero) q with
                | None => Raise TypeError w
                | Some true => Ok w
                | Some false =>
                    let s' := trade q s in
                    let '(full_outlay, fee) := outlay p s' q in
                    let '(p', st') :=
                      StrategyBase.adjust (- full_outlay)%num upd false fee
                                          p (stale w) in
                    Ok {| parent := Some p'; stale := st'; self := s' |}
                end
            end
        end
    end.

(** [allocate(amount, update)]. *)
Definition allocate (amount : num) (upd : bool) (w : scope) : outcome scope :=
  match sync w with
  | Raise e w1 => Raise e w1
  | Ok w1 => place amount upd w1
  end.

(** The [position] property: [return self._position]. *)
Definition position (w : scope) : num * scope := (_position (self w), w).

End SecurityBase.

Definition security : Type := SecurityBase.security.

(** ** The tree

    A node owns its children (an insertion-ordered dict, name to node); a
    strategy that paper-trades also owns its paper twin.  The upward
    references [parent] and [root] are not stored: an operation on a child
    receives the slots of its parent, and the root's stale flag is threaded
    through the operations that read or write it. *)

#[warnings="-register-all"]
Inductive node : Type :=
| Strat (d : sdata) (children : list (string * node)) (paper : option node)
| Sec (s : security).

Definition children_t : Type := list (string * node).

(** The raw slots [_value], [_weight], [_price], and [_issec]. *)
Definition node_value (n : node) : num :=
  match n with
  | Strat d _ _ => StrategyBase._value d
  | Sec s => SecurityBase._value s
  end.

Definition node_weight (n : node) : num :=
  match n with
  | Strat d _ _ => StrategyBase._weight d
  | Sec s => SecurityBase._weight s
  end.

Definition node_price (n : node) : num :=
  match n with
  | Strat d _ _ => StrategyBase._price d
  | Sec s => SecurityBase._price s
  end.

Definition node_children (n : node) : children_t :=
  match n with
  | Strat _ cs _ => cs
  | Sec _ => []
  end.

(** [c._issec and not c._needupdate]: the dormant securities that [update]
    passes over. *)
Definition skipped (n : node) : bool :=
  match n with
  | Strat _ _ _ => false
  | Sec s => negb (SecurityBase._needupdate s)
  end.

Module Tick.
Import StrategyBase.

(** The head of [StrategyBase.update]: the helpers on a date change, the
    [newpt] flag, and [self.now = date]. *)
Definition newpt (d : date) (f : sdata) : bool :=
  (Z.eqb (now f) 0 || negb (Z.eqb d (now f)))%bool.

Definition start (d : date) (f : sdata) : sdata :=
  let reset := (negb (Z.eqb (now f) 0) && negb (Z.eqb d (now f)))%bool in {|
  name := name f; now := d; _price := _price f; _value := _value f;
  _weight := _weight f; _capital := _capital f;
  _net_flows := if reset then Int 0 else _net_flows f;
  _last_value := if reset then _value f else _last_value f;
  _last_price := if reset then _price f else _last_price f;
  _last_fee := if reset then Flt 0 else _last_fee f;
  _paper_trade := _paper_trade f;
  _has_strat_children := _has_strat_children f;
  _strat_children := _strat_children f; _universe := _universe f;
  _prices := _prices f; _values := _values f; _cash := _cash f;
  _fees := _fees f; commission_fn := commission_fn f |}.

(** [self._value = val; self._values[date] = val].  The series of a
    strategy are [float64] columns, which convert what is written. *)
Definition set_value (d : date) (val : num) (f : sdata) : sdata := {|
  name := name f; now := now f; _price := _price f; _value := val;
  _weight := _weight f; _capital := _capital f; _net_flows := _net_flows f;
  _last_value := _last_value f; _last_price := _last_price f;
  _last_fee := _last_fee f; _paper_trade := _paper_trade f;
  _has_strat_children := _has_strat_children f;
  _strat_children := _strat_children f; _universe := _universe f;
  _prices := _prices f; _values := series_set d (to_f64 val) (_values f);
  _cash := _cash f; _fees := _fees f; commission_fn := commission_fn f |}.

(** [self._price = p; self._prices[date] = p]. *)
Definition set_price (d : date) (p : num) (f : sdata) : sdata := {|
  name := name f; now := now f; _price := p; _value := _value f;
  _weight := _weight f; _capital := _capital f; _net_flows := _net_flows f;
  _last_value := _last_value f; _last_price := _last_price f;
  _last_fee := _last_fee f; _paper_trade := _paper_trade f;
  _has_strat_children := _has_strat_children f;
  _strat_children := _strat_children f; _universe := _universe f;
  _prices := series_set d (to_f64 p) (_prices f); _values := _values f;
  _cash := _cash f; _fees := _fees f; commission_fn := commission_fn f |}.

Definition set_weight (w : num) (f : sdata) : sdata := {|
  name := name f; now := now f; _price := _price f; _value := _value f;
  _weight := w; _capital := _capital f; _net_flows := _net_flows f;
  _last_value := _last_value f; _last_price := _last_price f;
  _last_fee := _last_fee f; _paper_trade := _paper_trade f;
  _has_strat_children := _has_strat_children f;
  _strat_children := _strat_children f; _universe := _universe f;
  _prices := _prices f; _values := _values f;
  _cash := _cash f; _fees := _fees f; commission_fn := commission_fn f |}.

Definition set_universe (u : universe) (f : sdata) : sdata := {|
  name := name f; now := now f; _price := _price f; _value := _value f;
  _weight := _weight f; _capital := _capital f; _net_flows := _net_flows f;
  _last_value := _last_value f; _last_price := _last_price f;
  _last_fee := _last_fee f; _paper_trade := _paper_trade f;
  _has_strat_children := _has_strat_children f;
  _strat_children := _strat_children f; _universe := u;
  _prices := _prices f; _values := _values f;
  _cash := _cash f; _fees := _fees f; commission_fn := commission_fn f |}.

(** [self._cash[self.now] = self._capital;
    self._fees[self.now] = self._last_fee]. *)
Definition snapshot (f : sdata) : sdata := {|
  name := name f; now := now f; _price := _price f; _value := _value f;
  _weight := _weight f; _capital := _capital f; _net_flows := _net_flows f;
  _last_value := _last_value f; _last_price := _last_price f;
  _last_fee := _last_fee f; _paper_trade := _paper_trade f;
  _has_strat_children := _has_strat_children f;
  _strat_children := _strat_children f; _universe := _universe f;
  _prices := _prices f; _values := _values f;
  _cash := series_set (now f) (to_f64 (_capital f)) (_cash f);
  _fees := series_set (now f) (to_f64 (_last_fee f)) (_fees f);
  commission_fn := commission_fn f |}.

(** The per-tick return: [value / (last_value + net_flows) - 1], and in
    the handler of [ZeroDivisionError], [0] when the value is [0].  The
    handler is reached only when the division raises, which it does on
    Python numbers alone ([Num.div]). *)
Definition period_return (f : sdata) : option num :=
  match Num.div (_value f) (_last_value f + _net_flows f)%num with
  | Some x => Some (x - Int 1)%num
  | None => if Num.eqb (_value f) zero then Some (Int 0) else None
  end.

(** The commit block of [update].
<<
      if newpt or self._value != val:
          self._value = val
          self._values[date] = val
          try: ret = self._value / (self._last_value + self._net_flows) - 1
          except ZeroDivisionError:
              if self._value == 0: ret = 0
              else: raise ZeroDivisionError(...)
          self._price = self._last_price * (1 + ret)
          self._prices[date] = self._price
>> *)
Definition commits (np : bool) (val : num) (f : sdata) : bool :=
  (np || Num.neqb (_value f) val)%bool.

Definition commit (np : bool) (d : date) (val : num) (f : sdata)
  : outcome sdata :=
  if commits np val f then
    let f1 := set_value d val f in
    match period_return f1 with
    | Some ret => Ok (set_price d (_last_price f1 * (Int 1 + ret))%num f1)
    | None => Raise ZeroDivisionError f1
    end
  else Ok f.

End Tick.

(** ** [StrategyBase.update] *)

Module Update.
Import Tick.

(** The first loop over the children.
<<
      for c in self._childrenv:
          if c._issec and not c._needupdate:
              continue
          c.update(date, data)
          val += c.value
>>
    [upd] is the update of a child.  The root's stale flag was cleared by
    the first statement of the enclosing update and nothing in between
    sets it, so the read [c.value] returns the slot [_value].  The outer
    [option] is [None] when the recursion bound of [upd] was too small. *)
Fixpoint update_children (upd : node -> option (outcome node))
         (cs : children_t) (val : num)
  : option (outcome (children_t * num)) :=
  match cs with
  | [] => Some (Ok ([], val))
  | (k, c) :: rest =>
      if skipped c then
        match update_children upd rest val with
        | Some (Ok (rest', v)) => Some (Ok ((k, c) :: rest', v))
        | Some (Raise e (rest', v)) => Some (Raise e ((k, c) :: rest', v))
        | None => None
        end
      else
        match upd c with
        | Some (Ok c') =>
            match update_children upd rest (val + node_value c')%num with
            | Some (Ok (rest', v)) => Some (Ok ((k, c') :: rest', v))
            | Some (Raise e (rest', v)) => Some (Raise e ((k, c') :: rest', v))
            | None => None
            end
        | Some (Raise e c') => Some (Raise e ((k, c') :: rest, val))
        | None => None
        end
  end.

Definition set_node_weight (w : num) (n : node) : node :=
  match n with
  | Strat d cs p => Strat (set_weight w d) cs p
  | Sec s => Sec (SecurityBase.set_weight w s)
  end.

(** The second loop: the weights of the children.
<<
          try: c._weight = c.value / val
          except ZeroDivisionError: c._weight = 0.0
>> *)
Definition reweigh (val : num) (cs : children_t) : children_t :=
  map (fun kc : string * node =>
         let (k, c) := kc in
         if skipped c then (k, c)
         else (k, set_node_weight
                    (match Num.div (node_value c) val with
                     | Some w => w
                     | None => Flt 0
                     end) c)) cs.

(** [universe.loc[date, c] = v]: the cell is set, the column created
    over the date axis when the table has none of that name.  The
    columns are [float64]. *)
Definition loc_set (d : date) (c : string) (v : num) (u : universe)
  : universe :=
  let col := match assoc c (u_columns u) with
             | Some col => col
             | None => const_series (u_index u) (to_f64 nan)
             end in
  {| u_index := if existsb (Z.eqb d) (u_index u) then u_index u
                else (u_index u ++ [d])%list;
     u_columns := assoc_set c (series_set d (to_f64 v) col) (u_columns u) |}.

(** The [price] property of a child, read while the root is not stale: a
    strategy returns [_price]; a security that needs an update first
    updates itself to the root's date. *)
Definition child_price (rootnow : date) (c : node) : outcome node :=
  match c with
  | Strat _ _ _ => Ok c
  | Sec s =>
      if SecurityBase._needupdate s then
        match SecurityBase.update rootnow None s with
        | Ok s' => Ok (Sec s')
        | Raise e s' => Raise e (Sec s')
        end
      else Ok c
  end.

(** The prices of the sub-strategies written into the universe.
<<
      for c in self._strat_children:
          self._universe.loc[date, c] = self.children[c].price
>> *)
Fixpoint publish (rootnow d : date) (names : list string)
         (f : sdata) (cs : children_t) : outcome (sdata * children_t) :=
  match names with
  | [] => Ok (f, cs)
  | c :: rest =>
      match assoc c cs with
      | None => Raise KeyError (f, cs)
      | Some child =>
          match child_price rootnow child with
          | Raise e child' => Raise e (f, assoc_set c child' cs)
          | Ok child' =>
              publish rootnow d rest
                (set_universe
                   (loc_set d c (node_price child') (StrategyBase._universe f)) f)
                (assoc_set c child' cs)
          end
      end
  end.

(** The middle of [StrategyBase.update], from the check of the root's
    value to the snapshot of cash and fees.
<<
        if self.root == self:
            if val < 0:
                raise ValueError('negative root node value!')
        if newpt or self._value != val: ...
        ... children weights ...
        if self._has_strat_children: ...
        self._cash[self.now] = self._capital
        self._fees[self.now] = self._last_fee
>> *)
Definition settle (is_root : bool) (rootnow : date) (np : bool) (d : date)
           (val : num) (f1 : sdata) (cs1 : children_t)
  : outcome (sdata * children_t) :=
  if (is_root && Num.ltb val zero)%bool then Raise ValueError (f1, cs1)
  else
    match commit np d val f1 with
    | Raise e f2 => Raise e (f2, cs1)
    | Ok f2 =>
        let cs2 := reweigh val cs1 in
        match (if StrategyBase._has_strat_children f2
               then publish rootnow d (StrategyBase._strat_children f2) f2 cs2
               else Ok (f2, cs2)) with
        | Raise e (f3, cs3) => Raise e (f3, cs3)
        | Ok (f3, cs3) => Ok (snapshot f3, cs3)
        end
    end.

(** The end of [StrategyBase.update]: the paper twin.
<<
        if newpt and self._paper_trade:
            self._paper.update(date)
            self._paper.run()
            self._paper.update(date)
            self._price = self._paper.price
            self._prices[date] = self._price
>>
    [run] is [StrategyBase.run], which does nothing, so the twin is
    updated twice in a row.  The twin is its own root, and is not stale
    after its update, so that [self._paper.price] is its slot [_price]. *)
Definition paper_trade (paper_update : node -> option (outcome node))
           (np : bool) (d : date) (f4 : sdata) (cs3 : children_t)
           (paper : option node) : option (outcome node) :=
  if (np && StrategyBase._paper_trade f4)%bool then
    match paper with
    | None => Some (Raise AttributeError (Strat f4 cs3 paper))
    | Some p =>
        match paper_update p with
        | None => None
        | Some (Raise e p1) => Some (Raise e (Strat f4 cs3 (Some p1)))
        | Some (Ok p1) =>
            match paper_update p1 with
            | None => None
            | Some (Raise e p2) => Some (Raise e (Strat f4 cs3 (Some p2)))
            | Some (Ok p2) =>
                Some (Ok (Strat (set_price d (node_price p2) f4) cs3 (Some p2)))
            end
        end
    end
  else Some (Ok (Strat f4 cs3 paper)).

(** [StrategyBase.update(date, data)], given the update of a child and the
    update of the paper twin.  [rootnow] is [None] when the strategy is the
    root ([self.root == self]) and the root's [now] otherwise. *)
Definition update_strategy (child_update paper_update : node -> option (outcome node))
           (rootnow : option date) (d : date)
           (f : sdata) (cs : children_t) (paper : option node)
  : option (outcome node) :=
  let np := newpt d f in
  let f1 := start d f in
  let rn := match rootnow with Some r => r | None => d end in
  let is_root := match rootnow with None => true | Some _ => false end in
  match update_children child_update cs (StrategyBase._capital f1) with
  | None => None
  | Some (Raise e (cs1, _)) => Some (Raise e (Strat f1 cs1 paper))
  | Some (Ok (cs1, val)) =>
      match settle is_root rn np d val f1 cs1 with
      | Raise e (f3, cs3) => Some (Raise e (Strat f3 cs3 paper))
      | Ok (f4, cs3) => paper_trade paper_update np d f4 cs3 paper
      end
  end.

(** [update(date, data)] on a node.  The first argument bounds the depth of
    the recursion; [None] is returned when it is too small for the tree,
    never for a bound of at least the depth of the tree ([update_fits],
    below).  The children are updated with the caller's [data], the paper
    twin with none. *)
Fixpoint update (fuel : nat) (rootnow : option date) (d : date)
         (data : option (list (string * num))) (n : node) {struct fuel}
  : option (outcome node) :=
  match n with
  | Sec s =>
      match SecurityBase.update d data s with
      | Ok s' => Some (Ok (Sec s'))
      | Raise e s' => Some (Raise e (Sec s'))
      end
  | Strat f cs paper =>
      match fuel with
      | O => None
      | S fuel' =>
          update_strategy
            (update fuel' (Some (match rootnow with Some r => r | None => d end))
                    d data)
            (update fuel' None d None)
            rootnow d f cs paper
      end
  end.

End Update.

(** ** [allocate] down the tree *)

Module Allocate.

(** The state a call on a non-root node works on: the slots of its
    parent, the root's stale flag and the node itself. *)
Definition frame : Type := (sdata * bool * node)%type.

(** The cascade of [StrategyBase.allocate].
<<
      [c.allocate(amount * c._weight, update=False) for c in self._childrenv]
>>
    [alloc a c (f, st)] is [c.allocate(a, update=False)] for a child [c]
    of the strategy with slots [f]. *)
Fixpoint cascade (alloc : num -> node -> sdata * bool -> outcome frame)
         (amount : num) (cs : children_t) (f : sdata) (st : bool)
  : outcome (sdata * bool * children_t) :=
  match cs with
  | [] => Ok (f, st, [])
  | (k, c) :: rest =>
      match alloc (amount * node_weight c)%num c (f, st) with
      | Raise e (f', st', c') => Raise e (f', st', (k, c') :: rest)
      | Ok (f', st', c') =>
          match cascade alloc amount rest f' st' with
          | Ok (f'', st'', rest') => Ok (f'', st'', (k, c') :: rest')
          | Raise e (f'', st'', rest') => Raise e (f'', st'', (k, c') :: rest')
          end
      end
  end.

(** [SecurityBase.allocate] of a security below a strategy. *)
Definition allocate_sec (amount : num) (upd : bool) (s : security)
           (par : sdata) (st : bool) : outcome frame :=
  let back (w : SecurityBase.scope) : frame :=
    (match SecurityBase.parent w with Some p => p | None => par end,
     SecurityBase.stale w, Sec (SecurityBase.self w)) in
  match SecurityBase.allocate amount upd
          {| SecurityBase.parent := Some par; SecurityBase.stale := st;
             SecurityBase.self := s |} with
  | Ok w => Ok (back w)
  | Raise e w => Raise e (back w)
  end.

(** [n.allocate(amount, update=upd)] for a node [n] that is not the root:
    [par] holds the slots of [n.parent].
<<
          self.parent.adjust(-amount, update=False, flow=False)
          self.adjust(amount, update=False, flow=True)
          [c.allocate(amount * c._weight, update=False) ...]
          if update:
              self.root.stale = True
>> *)
Fixpoint allocate (amount : num) (upd : bool) (n : node)
         (ps : sdata * bool) {struct n} : outcome frame :=
  let (par, st) := ps in
  match n with
  | Sec s => allocate_sec amount upd s par st
  | Strat f cs paper =>
      let (par1, st1) :=
        StrategyBase.adjust (- amount)%num false false (Flt 0) par st in
      let (f1, st2) :=
        StrategyBase.adjust amount false true (Flt 0) f st1 in
      match cascade (fun a c => allocate a false c) amount cs f1 st2 with
      | Raise e (f2, st3, cs') => Raise e (par1, st3, Strat f2 cs' paper)
      | Ok (f2, st3, cs') =>
          Ok (par1, if upd then true else st3, Strat f2 cs' paper)
      end
  end.

(** [n.allocate(amount, update=upd)] for the root, which is its own
    parent: the strategy adjusts itself twice, with [flow=True]; a
    security alone has no parent to draw on. *)
Definition allocate_root (amount : num) (upd : bool) (n : node) (st : bool)
  : outcome (bool * node) :=
  match n with
  | Sec s =>
      let back (w : SecurityBase.scope) :=
        (SecurityBase.stale w, Sec (SecurityBase.self w)) in
      match SecurityBase.allocate amount upd
              {| SecurityBase.parent := None; SecurityBase.stale := st;
                 SecurityBase.self := s |} with
      | Ok w => Ok (back w)
      | Raise e w => Raise e (back w)
      end
  | Strat f cs paper =>
      let (f0, st1) :=
        StrategyBase.adjust (- amount)%num false true (Flt 0) f st in
      let (f1, st2) :=
        StrategyBase.adjust amount false true (Flt 0) f0 st1 in
      match cascade (fun a c => allocate a false c) amount cs f1 st2 with
      | Raise e (f2, st3, cs') => Raise e (st3, Strat f2 cs' paper)
      | Ok (f2, st3, cs') =>
          Ok (if upd then true else st3, Strat f2 cs' paper)
      end
  end.

End Allocate.

(** ** The tree as a whole: paths, the stale flag, the public methods *)

Record world : Type := {
  root : node;
  stale : bool
}.

(** A node is addressed by the names from the root down to it. *)
Definition path : Type := list string.

Fixpoint get (p : path) (n : node) : option node :=
  match p with
  | [] => Some n
  | k :: p' =>
      match assoc k (node_children n) with
      | Some c => get p' c
      | None => None
      end
  end.

Fixpoint put (p : path) (new : node) (n : node) : node :=
  match p with
  | [] => new
  | k :: p' =>
      match n with
      | Strat f cs paper =>
          match assoc k cs with
          | Some c => Strat f (assoc_set k (put p' new c) cs) paper
          | None => n
          end
      | Sec _ => n
      end
  end.

Fixpoint depth (n : node) : nat :=
  match n with
  | Sec _ => O
  | Strat _ cs paper =>
      S (Nat.max
           ((fix go (l : children_t) : nat :=
               match l with
               | [] => O
               | (_, c) :: rest => Nat.max (depth c) (go rest)
               end) cs)
           (match paper with Some p => depth p | None => O end))
  end.

Definition node_now (n : node) : date :=
  match n with
  | Strat f _ _ => StrategyBase.now f
  | Sec s => SecurityBase.now s
  end.

(** Methods read and write the whole tree and may raise. *)
Definition M (A : Type) : Type := world -> (exn + A) * world.

Definition ret {A} (a : A) : M A := fun w => (inr a, w).
Definition throw {A} (e : exn) : M A := fun w => (inl e, w).
Definition mbind {A B} (m : M A) (k : A -> M B) : M B :=
  fun w => match m w with
           | (inr a, w') => k a w'
           | (inl e, w') => (inl e, w')
           end.

Notation "x <- m ;; k" := (mbind m (fun x => k))
  (at level 61, m at next level, right associativity).
Notation "m ;;; k" := (mbind m (fun _ => k))
  (at level 61, right associativity).

Module Tree.

(** [self.root.update(d, None)]: the stale flag is cleared first.  The
    bound [S (depth root)] fits every tree ([update_fits]), so the last
    branch is never taken. *)
Definition update_root (d : date) (data : option (list (string * num)))
  : M unit := fun w =>
  match Update.update (S (depth (root w))) None d data (root w) with
  | Some (Ok n) => (inr tt, {| root := n; stale := false |})
  | Some (Raise e n) => (inl e, {| root := n; stale := false |})
  | None => (inr tt, {| root := root w; stale := false |})
  end.

(** [if self.root.stale: self.root.update(self.root.now, None)]. *)
Definition refresh : M unit := fun w =>
  if stale w then update_root (node_now (root w)) None w else (inr tt, w).

Definition node_at (p : path) : M node := fun w =>
  match get p (root w) with
  | Some n => (inr n, w)
  | None => (inl AttributeError, w)
  end.

(** The properties [Node.value] and [Node.weight] of the node at [p]. *)
Definition value (p : path) : M num :=
  refresh ;;; n <- node_at p ;; ret (node_value n).

Definition weight (p : path) : M num :=
  refresh ;;; n <- node_at p ;; ret (node_weight n).

(** The properties that return a slot as it is: [StrategyBase.capital],
    [cash], [fees] and [SecurityBase.position]. *)
Definition capital (p : path) : M num := fun w =>
  match get p (root w) with
  | Some (Strat f _ _) => (inr (StrategyBase._capital f), w)
  | _ => (inl AttributeError, w)
  end.

Definition cash (p : path) : M series := fun w =>
  match get p (root w) with
  | Some (Strat f _ _) => (inr (StrategyBase._cash f), w)
  | _ => (inl AttributeError, w)
  end.

Definition fees (p : path) : M series := fun w =>
  match get p (root w) with
  | Some (Strat f _ _) => (inr (StrategyBase._fees f), w)
  | _ => (inl AttributeError, w)
  end.

Definition position (p : path) : M num := fun w =>
  match get p (root w) with
  | Some (Sec s) => (inr (SecurityBase._position s), w)
  | _ => (inl AttributeError, w)
  end.

(** [StrategyBase.adjust] on the strategy at [p]. *)
Definition adjust (p : path) (amount : num) (update flow : bool) (fee : num)
  : M unit := fun w =>
  match get p (root w) with
  | Some (Strat f cs paper) =>
      let (f', st) := StrategyBase.adjust amount update flow fee f (stale w) in
      (inr tt, {| root := put p (Strat f' cs paper) (root w); stale := st |})
  | _ => (inl AttributeError, w)
  end.

(** [n.allocate(amount, update=upd)] for the node [n] at [p], with no
    [child] argument. *)
Definition allocate_node (p : path) (amount : num) (upd : bool) : M unit :=
  fun w =>
  match p with
  | [] =>
      match Allocate.allocate_root amount upd (root w) (stale w) with
      | Ok (st, n) => (inr tt, {| root := n; stale := st |})
      | Raise e (st, n) => (inl e, {| root := n; stale := st |})
      end
  | _ :: _ =>
      let pp := removelast p in
      let k := last p EmptyString in
      match get pp (root w) with
      | Some (Strat f cs paper) =>
          match assoc k cs with
          | Some c =>
              let back (r : Allocate.frame) :=
                let '(f', st, c') := r in
                {| root := put pp (Strat f' (assoc_set k c' cs) paper) (root w);
                   stale := st |} in
              match Allocate.allocate amount upd c (f, stale w) with
              | Ok r => (inr tt, back r)
              | Raise e r => (inl e, back r)
              end
          | None => (inl AttributeError, w)
          end
      | _ => (inl AttributeError, w)
      end
  end.

(** The child created on demand by [allocate] and [rebalance].
<<
          if child not in self.children:
              c = SecurityBase(child)
              c.setup(self._universe)
              c.update(self.now)
              self._add_child(c)
>> *)
Definition ensure_child (p : path) (child : string) : M unit := fun w =>
  match get p (root w) with
  | Some (Strat f cs paper) =>
      if mem_key child cs then (inr tt, w)
      else
        let c := SecurityBase.init_setup child (Int 1) (StrategyBase._universe f) in
        match SecurityBase.update (StrategyBase.now f) None c with
        | Ok c' =>
            (inr tt, {| root := put p (Strat f (assoc_set child (Sec c') cs) paper)
                                    (root w);
                        stale := stale w |})
        | Raise e _ => (inl e, w)
        end
  | _ => (inl AttributeError, w)
  end.

(** [StrategyBase.allocate(amount, child, update)]. *)
Definition allocate (p : path) (amount : num) (child : option string)
           (upd : bool) : M unit :=
  match child with
  | Some c => ensure_child p c ;;; allocate_node (p ++ [c]) amount true
  | None => allocate_node p amount upd
  end.

(** [StrategyBase.flatten].
<<
      [c.allocate(-c.value) for c in self._childrenv if c.value != 0]
>> *)
Fixpoint flatten_keys (p : path) (keys : list string) : M unit :=
  match keys with
  | [] => ret tt
  | k :: rest =>
      v <- value (p ++ [k]) ;;
      (if Num.neqb v zero
       then v' <- value (p ++ [k]) ;; allocate_node (p ++ [k]) (- v')%num true
       else ret tt) ;;;
      flatten_keys p rest
  end.

Definition flatten (p : path) : M unit :=
  n <- node_at p ;; flatten_keys p (map fst (node_children n)).

(** [StrategyBase.close(child)].
<<
      c = self.children[child]
      if c.children is not None and len(c.children) != 0:
          c.flatten()
      c.allocate(-c.value)
>> *)
Definition close (p : path) (child : string) : M unit :=
  n <- node_at p ;;
  match assoc child (node_children n) with
  | None => throw KeyError
  | Some c =>
      (match node_children c with
       | [] => ret tt
       | _ :: _ => flatten (p ++ [child])
       end) ;;;
      v <- value (p ++ [child]) ;;
      allocate_node (p ++ [child]) (- v)%num true
  end.

(** [StrategyBase.rebalance(weight, child, base, update)].
<<
      if weight == 0:
          if child in self.children:
              return self.close(child)
          else:
              return
      if np.isnan(base):
          base = self.value
      if child not in self.children: ...
      c = self.children[child]
      delta = weight - c.weight
      c.allocate(delta * base)
>> *)
Definition rebalance (p : path) (wgt : num) (child : string) (base : num)
           (upd : bool) : M unit :=
  n <- node_at p ;;
  if Num.eqb wgt zero then
    if mem_key child (node_children n) then close p child else ret tt
  else
    b <- (match np_isnan base with
          | None => throw TypeError
          | Some true => value p
          | Some false => ret base
          end) ;;
    ensure_child p child ;;;
    cw <- weight (p ++ [child]) ;;
    allocate_node (p ++ [child]) ((wgt - cw) * b)%num true.

End Tree.

(** ** The [price] properties *)

Module Reads.

(** [StrategyBase.price] of the strategy at [p].
<<
        if self.root.stale:
            self.root.update(self.now, None)
        return self._price
>>
    The root is updated at the date of the strategy that is read. *)
Definition strategy_price (p : path) : M num := fun w =>
  match get p (root w) with
  | Some (Strat f _ _) =>
      let (r, w1) := if stale w
                     then Tree.update_root (StrategyBase.now f) None w
                     else (inr tt, w) in
      match r with
      | inl e => (inl e, w1)
      | inr _ =>
          match get p (root w1) with
          | Some n => (inr (node_price n), w1)
          | None => (inl AttributeError, w1)
          end
      end
  | _ => (inl AttributeError, w)
  end.

(** [SecurityBase.price] of the security at [p].
<<
        if self._needupdate:
            self.update(self.root.now)
        return self._price
>> *)
Definition security_price (p : path) : M num := fun w =>
  match get p (root w) with
  | Some (Sec s) =>
      if SecurityBase._needupdate s then
        match SecurityBase.update (node_now (root w)) None s with
        | Ok s' =>
            (inr (SecurityBase._price s'),
             {| root := put p (Sec s') (root w); stale := stale w |})
        | Raise e s' =>
            (inl e, {| root := put p (Sec s') (root w); stale := stale w |})
        end
      else (inr (SecurityBase._price s), w)
  | _ => (inl AttributeError, w)
  end.

End Reads.

(** ** [Node.__init__] and [Node.members] *)

Module Node.

Definition node_name (n : node) : string :=
  match n with
  | Strat f _ _ => StrategyBase.name f
  | Sec s => SecurityBase.name s
  end.

(** [SecurityBase(c)], as the constructor of a parent builds it for a
    name found in its [children] list.  The series are created by
    [setup]; before it they are absent, which is modelled by empty
    series and [_prices_set] false. *)
Definition new_security (c : string) : security := {|
  SecurityBase.name := c; SecurityBase.now := 0%Z;
  SecurityBase._price := Int 0; SecurityBase._value := Int 0;
  SecurityBase._weight := Int 0; SecurityBase._position := Int 0;
  SecurityBase.multiplier := Int 1; SecurityBase._last_pos := Int 0;
  SecurityBase._needupdate := true; SecurityBase._prices_set := false;
  SecurityBase._prices := []; SecurityBase._values := [];
  SecurityBase._positions := [] |}.

(** An element of a [children] list: a name, or a node built beforehand. *)
Inductive child_arg : Type :=
| Name (c : string)
| Given (n : node).

(** The [children] argument: absent, a dict, or a list. *)
Inductive children_arg : Type :=
| NoChildren
| Dict (d : children_t)
| List (l : list child_arg).

(** The attribute [_universe_tickers]: not set (the constructor was given
    a dict), [None], or a list of names. *)
Inductive tickers : Type :=
| Unset
| AllTickers
| Only (names : list string).

(** What the constructor derives from [children]. *)
Record built : Type := {
  children : children_t;
  _universe_tickers : tickers;
  _has_strat_children : bool;
  _strat_children : list string
}.

Definition is_name (x : child_arg) : bool :=
  match x with Name _ => true | Given _ => false end.

Definition arg_name (x : child_arg) : string :=
  match x with Name c => c | Given n => node_name n end.

(** The loop over a list that holds nodes.
<<
                    for c in children:
                        if type(c) == str:
                            tmp[c] = SecurityBase(c)
                            ut.append(c)
                        else:
                            tmp[c.name] = c
                            if isinstance(c, StrategyBase):
                                self._has_strat_children = True
                                self._strat_children.append(c.name)
                            else:
                                ut.append(c.name)
>> *)
Fixpoint collect (l : list child_arg) (tmp : children_t) (ut : list string)
         (has : bool) (sc : list string) : built :=
  match l with
  | [] => {| children := tmp; _universe_tickers := Only ut;
             _has_strat_children := has; _strat_children := sc |}
  | Name c :: rest =>
      collect rest (assoc_set c (Sec (new_security c)) tmp) (ut ++ [c]) has sc
  | Given (Strat f cs p) :: rest =>
      collect rest (assoc_set (StrategyBase.name f) (Strat f cs p) tmp) ut
              true (sc ++ [StrategyBase.name f])
  | Given (Sec s) :: rest =>
      collect rest (assoc_set (SecurityBase.name s) (Sec s) tmp)
              (ut ++ [SecurityBase.name s]) has sc
  end.

(** The part of [Node.__init__] that handles [children].
<<
        self._has_strat_children = False
        self._strat_children = []
        if children is not None:
            if isinstance(children, list):
                if all(isinstance(x, str) for x in children):
                    self._universe_tickers = children
                    children = {}
                else: ...
        ...
        if children is None:
            children = {}
            self._universe_tickers = None
>> *)
Definition init_children (arg : children_arg) : built :=
  match arg with
  | NoChildren =>
      {| children := []; _universe_tickers := AllTickers;
         _has_strat_children := false; _strat_children := [] |}
  | Dict d =>
      {| children := d; _universe_tickers := Unset;
         _has_strat_children := false; _strat_children := [] |}
  | List l =>
      if forallb is_name l then
        {| children := []; _universe_tickers := Only (map arg_name l);
           _has_strat_children := false; _strat_children := [] |}
      else collect l [] [] false []
  end.

(** [members]: the node and, in order, the members of its children.
<<
        res = [self]
        for c in self.children.values():
            res.extend(c.members)
        return res
>> *)
Fixpoint members (n : node) : list node :=
  n :: match n with
       | Sec _ => []
       | Strat _ cs _ =>
           (fix go (l : children_t) : list node :=
              match l with
              | [] => []
              | (_, c) :: rest => (members c ++ go rest)%list
              end) cs
       end.

End Node.

(** ** [AlgoStack] *)

Module AlgoStack.
Section Stack.

(** The strategy the algos act on. *)
Variable target : Type.

(** An algo is called on the target, which it may change, and returns a
    boolean; [run_always] is [None] when the algo has no such
    attribute ([hasattr(x, 'run_always')] is false). *)
Record algo : Type := {
  call : target -> bool * target;
  run_always : option bool
}.

Definition has_run_always (a : algo) : bool :=
  match run_always a with Some _ => true | None => false end.

(** [self.check_run_always], set by [__init__]. *)
Definition check_run_always (algos : list algo) : bool :=
  existsb has_run_always algos.

(** The normal running mode.
<<
        for algo in self.algos:
            if not algo(target):
                return False
        return True
>> *)
Fixpoint run_normal (algos : list algo) (t : target) : bool * target :=
  match algos with
  | [] => (true, t)
  | a :: rest =>
      let (r, t') := call a t in
      if negb r then (false, t') else run_normal rest t'
  end.

(** The mode with [run_always].
<<
        res = True
        for algo in self.algos:
            if res:
                res = algo(target)
            elif hasattr(algo, 'run_always'):
                if algo.run_always:
                    algo(target)
        return res
>> *)
Fixpoint run_flagged (algos : list algo) (res : bool) (t : target)
  : bool * target :=
  match algos with
  | [] => (res, t)
  | a :: rest =>
      if res then
        let (r, t') := call a t in run_flagged rest r t'
      else
        match run_always a with
        | Some true => let (_, t') := call a t in run_flagged rest res t'
        | _ => run_flagged rest res t
        end
  end.

(** [AlgoStack.__call__]. *)
Definition __call__ (algos : list algo) (t : target) : bool * target :=
  if negb (check_run_always algos) then run_normal algos t
  else run_flagged algos true t.

(** *** The behaviour in the words of the specification *)

(** Algos invoked with the return value discarded. *)
Fixpoint invoke_all (algos : list algo) (t : target) : target :=
  match algos with
  | [] => t
  | a :: rest => invoke_all rest (snd (call a t))
  end.

Definition always (a : algo) : bool :=
  match run_always a with Some true => true | _ => false end.

(** The algos are invoked in order up to the first that returns false.
    In the normal mode the stack stops there; in the extended mode the
    later algos whose [run_always] is true are still invoked.  The
    stack returns false when an algo returned false, true otherwise. *)
Fixpoint stack_spec (extended : bool) (algos : list algo) (t : target)
  : bool * target :=
  match algos with
  | [] => (true, t)
  | a :: rest =>
      let (r, t') := call a t in
      if r then stack_spec extended rest t'
      else (false,
            if extended then invoke_all (filter always rest) t' else t')
  end.

End Stack.
End AlgoStack.

(** ** Measures on the children *)

(** The value that [update] accumulates: the capital, then the value of
    each child after its update, the dormant securities that the loop
    passed over counting for nothing.  [before] holds the children as the
    loop met them, [after] as it left them. *)
Fixpoint children_total (before after : children_t) (acc : num) : num :=
  match before, after with
  | (_, c) :: b, (_, c') :: a =>
      children_total b a (if skipped c then acc else (acc + node_value c')%num)
  | _, _ => acc
  end.

Definition is_sec (n : node) : bool :=
  match n with Sec _ => true | Strat _ _ _ => false end.

(** A dormant security: one that holds nothing and weighs nothing, and
    has been told so by an update ([_needupdate] is false). *)
Definition dormant (n : node) : bool :=
  match n with
  | Sec s => negb (SecurityBase._needupdate s)
  | Strat _ _ _ => false
  end.



(** Two lists of children with the same names and the same kinds of node
    under each name. *)
Fixpoint same_shape (l l' : children_t) : Prop :=
  match l, l' with
  | [], [] => True
  | (k, c) :: r, (k', c') :: r' =>
      k = k' /\ is_sec c = is_sec c' /\ same_shape r r'
  | _, _ => False
  end.

(** The depth of a list of children and of a paper twin, as [depth]
    counts them. *)
Fixpoint depth_children (l : children_t) : nat :=
  match l with
  | [] => O
  | (_, c) :: rest => Nat.max (depth c) (depth_children rest)
  end.

Definition depth_paper (paper : option node) : nat :=
  match paper with Some p => depth p | None => O end.

(** The amount that each child receives in the cascade of
    [StrategyBase.allocate], from the weights cached in the children when
    the call starts. *)
Definition shares (amount : num) (cs : children_t) : list num :=
  map (fun kc : string * node => (amount * node_weight (snd kc))%num) cs.

(** Each child in turn receives [c.allocate(share, update=False)], the
    strategy with slots [f] being its parent; an exception stops the
    sequence. *)
Fixpoint allocate_each (sh : list num) (cs : children_t) (f : sdata) (st : bool)
  : outcome (sdata * bool * children_t) :=
  match sh, cs with
  | a :: sh', (k, c) :: rest =>
      match Allocate.allocate a false c (f, st) with
      | Raise e (f', st', c') => Raise e (f', st', (k, c') :: rest)
      | Ok (f', st', c') =>
          match allocate_each sh' rest f' st' with
          | Ok (f'', st'', rest') => Ok (f'', st'', (k, c') :: rest')
          | Raise e (f'', st'', rest') => Raise e (f'', st'', (k, c') :: rest')
          end
      end
  | _, _ => Ok (f, st, cs)
  end.

(** The slots that only an update writes: the cached price, value and
    weight of a strategy, and its date. *)
Definition cached_same (f f' : sdata) : Prop :=
  StrategyBase._weight f' = StrategyBase._weight f
  /\ StrategyBase._value f' = StrategyBase._value f
  /\ StrategyBase._price f' = StrategyBase._price f
  /\ StrategyBase.now f' = StrategyBase.now f.

(** The weights cached in a list of children. *)
Definition weights (cs : children_t) : list num :=
  map (fun kc : string * node => node_weight (snd kc)) cs.

(** The strategy at [p] has a child of the given name. *)
Definition has_child (p : path) (child : string) (w : world) : Prop :=
  exists n, get p (root w) = Some n
            /\ mem_key child (node_children n) = true.

(** A call that creates the missing child [child] of the strategy at
    [p] in [w], [res] being what the call gave: the new security is set
    up on the universe of the strategy and updated at the date of the
    strategy; when that first update returns, the strategy has the child
    once the call is over; when it raises, the call raises the same and
    the tree is as it was. *)
Definition created (p : path) (child : string) (w : world)
           (res : (exn + unit) * world) : Prop :=
  match get p (root w) with
  | Some (Strat f _ _) =>
      match SecurityBase.update (StrategyBase.now f) None
              (SecurityBase.init_setup child (Int 1) (StrategyBase._universe f))
      with
      | Ok _ => has_child p child (snd res)
      | Raise e _ => res = (inl e, w)
      end
  | _ => False
  end.

(** The names in [_strat_children] are those of the strategies handed to
    the constructor as children ([Node.__init__]): none of them is the
    name of a security. *)
Definition strategies_named (names : list string) (cs : children_t) : Prop :=
  forall c, In c names ->
    match assoc c cs with Some (Sec _) => False | _ => True end.

(** Two lists of children with the same names in the same order, the
    children related one by one. *)
Definition children_rel (R : node -> node -> Prop) (cs cs' : children_t) : Prop :=
  Forall2 (fun kc kc' : string * node =>
             fst kc' = fst kc /\ R (snd kc) (snd kc')) cs cs'.

(** A dormant security is found again as it was. *)
Definition dormant_kept (c c' : node) : Prop := skipped c = true -> c' = c.

(** The money and the holdings of a tree, node by node from the top: the
    capital of each strategy, the position of each security.  The paper
    twins are books of their own and are left out. *)
Fixpoint ledger (n : node) : list num :=
  match n with
  | Sec s => [SecurityBase._position s]
  | Strat f cs _ =>
      StrategyBase._capital f
      :: (fix go (l : children_t) : list num :=
            match l with
            | [] => []
            | (_, c) :: rest => (ledger c ++ go rest)%list
            end) cs
  end.

Fixpoint ledger_children (cs : children_t) : list num :=
  match cs with
  | [] => []
  | (_, c) :: rest => (ledger c ++ ledger_children rest)%list
  end.

Definition same_ledger (c c' : node) : Prop := ledger c' = ledger c.

(** An [AlgoStack] is an [Algo]: called, it runs its algos; it has no
    [run_always] attribute of its own. *)
Definition stack_algo {target : Type} (algos : list (AlgoStack.algo target))
  : AlgoStack.algo target :=
  {| AlgoStack.call := AlgoStack.__call__ algos;
     AlgoStack.run_always := None |}.

(** A Python number, [int] or [float], as opposed to a [numpy.float64]:
    a division of Python numbers by zero raises. *)
Definition python (a : num) : Prop := kind_of a <> Float64.

(** A number that is not an infinity. *)
Definition no_inf (a : num) : Prop := forall s, valof a <> Inf s.

(** A whole number of shares. *)
Definition whole (a : num) : Prop := exists z : Z, a ≃ Int z.

(** The members of a list of children. *)
Fixpoint members_children (cs : children_t) : list node :=
  match cs with
  | [] => []
  | (_, c) :: rest => (Node.members c ++ members_children rest)%list
  end.

(** The strategies of a [children] list, by name, in order. *)
Fixpoint strategy_names (l : list Node.child_arg) : list string :=
  match l with
  | [] => []
  | Node.Given (Strat f _ _) :: rest => StrategyBase.name f :: strategy_names rest
  | _ :: rest => strategy_names rest
  end.

(** The names and the securities of a [children] list, by name. *)
Fixpoint security_names (l : list Node.child_arg) : list string :=
  match l with
  | [] => []
  | Node.Given (Strat _ _ _) :: rest => security_names rest
  | x :: rest => Node.arg_name x :: security_names rest
  end.

(** Two trees of the same shape: a chain of child names leads to a node
    in the one exactly when it does in the other, and to a node of the
    same kind. *)
Definition same_paths (c c' : node) : Prop :=
  forall q : path,
    match get q c, get q c' with
    | Some x, Some x' => is_sec x' = is_sec x
    | None, None => True
    | _, _ => False
    end.

(** ** Concrete trees *)

Module Examples.

(** A panel of three dates with one symbol, whose price is zero on the
    second date. *)
Definition panel : universe := {|
  u_index := [1; 2; 3]%Z;
  u_columns := [("A"%string, [(1%Z, F64 10); (2%Z, F64 0); (3%Z, F64 12)])]
|}.

(** A commission function that charges the quantity it is handed, so that
    the sign of its argument shows in the fee. *)
Definition fee_is_quantity (q p : num) : num := q.

(** A strategy at date [d] holding [1000] in cash, with the given
    commission function. *)
Definition desk (d : date) (fn : num -> num -> num) : sdata := {|
  StrategyBase.name := "desk"; StrategyBase.now := d;
  StrategyBase._price := F64 100; StrategyBase._value := F64 1100;
  StrategyBase._weight := Int 1; StrategyBase._capital := F64 1000;
  StrategyBase._net_flows := Int 0; StrategyBase._last_value := F64 1100;
  StrategyBase._last_price := F64 100; StrategyBase._last_fee := Flt 0;
  StrategyBase._paper_trade := false;
  StrategyBase._has_strat_children := false;
  StrategyBase._strat_children := []; StrategyBase._universe := panel;
  StrategyBase._prices := [(1%Z, F64 100)]; StrategyBase._values := [(1%Z, F64 1100)];
  StrategyBase._cash := [(1%Z, F64 1000)]; StrategyBase._fees := [(1%Z, F64 0)];
  StrategyBase.commission_fn := fn
|}.

(** The security "A" on the first date: ten shares at a price of [10]. *)
Definition held : security := {|
  SecurityBase.name := "A"; SecurityBase.now := 1%Z;
  SecurityBase._price := F64 10; SecurityBase._value := F64 100;
  SecurityBase._weight := F64 (1 # 11); SecurityBase._position := Int 10;
  SecurityBase.multiplier := Int 1; SecurityBase._last_pos := Int 10;
  SecurityBase._needupdate := true; SecurityBase._prices_set := true;
  SecurityBase._prices := [(1%Z, F64 10); (2%Z, F64 0); (3%Z, F64 12)];
  SecurityBase._values := [(1%Z, F64 100)];
  SecurityBase._positions := [(1%Z, F64 10)]
|}.

(** The security below the desk, the desk being at date [d]. *)
Definition holding (d : date) (fn : num -> num -> num) : SecurityBase.scope := {|
  SecurityBase.parent := Some (desk d fn);
  SecurityBase.stale := false;
  SecurityBase.self := held
|}.

(** A second symbol, never traded: a dormant security. *)
Definition idle : security := {|
  SecurityBase.name := "B"; SecurityBase.now := 1%Z;
  SecurityBase._price := Flt 7; SecurityBase._value := Flt 0;
  SecurityBase._weight := Int 0; SecurityBase._position := Int 0;
  SecurityBase.multiplier := Int 1; SecurityBase._last_pos := Int 0;
  SecurityBase._needupdate := false; SecurityBase._prices_set := false;
  SecurityBase._prices := [(1%Z, Flt 7)];
  SecurityBase._values := [(1%Z, Flt 0)];
  SecurityBase._positions := [(1%Z, Int 0)]
|}.

(** The desk as the root of a tree, with the two securities below it. *)
Definition fund : node :=
  Strat (desk 1%Z StrategyBase._dflt_comm_fn)
        [("A"%string, Sec held); ("B"%string, Sec idle)] None.

(** A strategy with no children, given by its date and its money slots. *)
Definition account (nm : string) (d : date) (price value capital net_flows
                    last_value last_price : num) (paper : bool) : sdata := {|
  StrategyBase.name := nm; StrategyBase.now := d;
  StrategyBase._price := price; StrategyBase._value := value;
  StrategyBase._weight := Int 1; StrategyBase._capital := capital;
  StrategyBase._net_flows := net_flows; StrategyBase._last_value := last_value;
  StrategyBase._last_price := last_price; StrategyBase._last_fee := Int 0;
  StrategyBase._paper_trade := paper;
  StrategyBase._has_strat_children := false;
  StrategyBase._strat_children := []; StrategyBase._universe := panel;
  StrategyBase._prices := []; StrategyBase._values := [];
  StrategyBase._cash := []; StrategyBase._fees := [];
  StrategyBase.commission_fn := StrategyBase._dflt_comm_fn
|}.



(** A root strategy with no children, followed through two dates.  It
    receives [100] before the first date.  On the second date a fee of [10]
    is taken and the strategy is updated; then [10] is withdrawn as a flow
    and [10] comes back as a non-flow adjustment, and the strategy is
    updated again. *)
Definition do_adjust (amount : num) (flow : bool) (n : node) : node :=
  match n with
  | Strat f cs paper =>
      Strat (fst (StrategyBase.adjust amount true flow (Flt 0) f false)) cs paper
  | Sec _ => n
  end.

Definition do_update (d : date) (n : node) : node :=
  match Update.update 1 None d None n with
  | Some o => state_of o
  | None => n
  end.



Definition history : node :=
  let n0 := Strat (StrategyBase.init "root" panel) [] None in
  let n1 := do_update 1%Z (do_adjust (Int 100) true n0) in
  let n2 := do_update 2%Z n1 in
  let n3 := do_update 2%Z (do_adjust (Int (-10)) false n2) in
  do_update 2%Z (do_adjust (Int 10) false (do_adjust (Int (-10)) true n3)).

End Examples.

(** * Properties *)

(** ** The algo stack *)

Section StackFacts.
Import AlgoStack.
Variable target : Type.
Implicit Types (algos : list (algo target)) (t : target).

Lemma run_normal_spec algos t :
  run_normal algos t = stack_spec false algos t.
Proof.
  revert t; induction algos as [|a rest IH]; intros t; simpl; trivial.
  destruct (call a t) as [r t']; destruct r; simpl; auto.
Qed.

(** Once the result is false, only the algos with a true [run_always]
    run, and the result stays false. *)
Lemma run_flagged_false algos t :
  run_flagged algos false t = (false, invoke_all (filter (@always _) algos) t).
Proof.
  revert t; induction algos as [|a rest IH]; intros t; simpl; trivial.
  unfold always at 1.
  destruct (run_always a) as [[|]|]; simpl; auto.
  destruct (call a t) as [r t']; simpl; apply IH.
Qed.

Lemma run_flagged_spec algos t :
  run_flagged algos true t = stack_spec true algos t.
Proof.
  revert t; induction algos as [|a rest IH]; intros t; simpl; trivial.
  destruct (call a t) as [r t']; destruct r; simpl; auto.
  apply run_flagged_false.
Qed.

(** C8.  The stack invokes its algos in order.  When no algo has a
    [run_always] attribute it stops at the first algo that returns false
    and returns false, and returns true when none does.  When some algo
    has the attribute, the algos after the first false are invoked only
    if their [run_always] is true, their results are discarded, and the
    stack returns false exactly when an algo returned false. *)
Theorem algostack_call_spec algos t :
  ((forall a, In a algos -> run_always a = None) ->
   __call__ algos t = stack_spec false algos t)
  /\ ((exists a, In a algos /\ run_always a <> None) ->
      __call__ algos t = stack_spec true algos t).
Proof.
  unfold __call__, check_run_always; split.
  - intros H.
    assert (E : existsb (@has_run_always _) algos = false).
    { destruct (existsb (@has_run_always _) algos) eqn:X; [|reflexivity].
      apply existsb_exists in X; destruct X as (a & Ha & Hr).
      unfold has_run_always in Hr; rewrite (H a Ha) in Hr; discriminate. }
    rewrite E; simpl; apply run_normal_spec.
  - intros (a & Ha & Hr).
    assert (E : existsb (@has_run_always _) algos = true).
    { apply existsb_exists; exists a; split; [exact Ha|].
      unfold has_run_always; destruct (run_always a); [reflexivity|].
      exfalso; apply Hr; reflexivity. }
    rewrite E; simpl; apply run_flagged_spec.
Qed.

End StackFacts.

(** ** Numbers: the comparisons as propositions *)

(** A closed statement about numbers, by evaluation. *)
Ltac by_compute :=
  vm_compute; first [reflexivity | exact I | split; reflexivity].

(** Sameness of sums and products, by cases on the kinds and on the
    values. *)
Ltac num_same :=
  intros;
  repeat match goal with a : num |- _ => destruct a as [? ?] end;
  split;
  [ cbn [kind_of Num.add Num.sub Num.mul Num.neg Num.abs Int Flt F64 zero one];
    repeat match goal with k : kind |- _ => destruct k end; reflexivity
  | unfold Num.eqv;
    cbn [valof Num.add Num.sub Num.mul Num.neg Num.abs Int Flt F64 zero one];
    repeat match goal with v : ext |- _ => destruct v as [?| |[|]] end;
    cbn [Num.esame Num.eadd Num.esub Num.emul Num.eneg Num.eabs
         Bool.eqb xorb negb];
    try exact I; try reflexivity ].

(** The operations on the values, reduced on their constructors; the
    rationals are left as they are. *)
Ltac ext_simpl :=
  cbn [Num.eadd Num.esub Num.emul Num.ediv Num.eneg Num.eabs Num.eeqb
       Num.eltb Num.esame valof kind_of Bool.eqb xorb negb] in *.

(** Case analysis on a number: its kind, and its value. *)
Ltac num_cases x := destruct x as [? [?| |[|]]].

Lemma eeqb_Fin (x y : Q) : Num.eeqb (Fin x) (Fin y) = true <-> x == y.
Proof. simpl. apply Qeq_bool_iff. Qed.

Lemma eeqb_Fin_false (x y : Q) : Num.eeqb (Fin x) (Fin y) = false <-> ~ x == y.
Proof.
  rewrite <- eeqb_Fin.
  destruct (Num.eeqb (Fin x) (Fin y)); split; intros H; try discriminate.
  - exfalso; apply H; reflexivity.
  - reflexivity.
Qed.

Lemma eqb_Fin k k' (x y : Q) :
  Num.eqb (Num k (Fin x)) (Num k' (Fin y)) = true <-> x == y.
Proof. apply eeqb_Fin. Qed.

Lemma eqb_Fin_false k k' (x y : Q) :
  Num.eqb (Num k (Fin x)) (Num k' (Fin y)) = false <-> ~ x == y.
Proof. apply eeqb_Fin_false. Qed.

Lemma esame_refl (a : ext) : Num.esame a a.
Proof. destruct a; simpl; [reflexivity | exact I | reflexivity]. Qed.

Lemma esame_sym (a b : ext) : Num.esame a b -> Num.esame b a.
Proof. destruct a, b; simpl; auto; intros H; symmetry; exact H. Qed.

Lemma esame_trans (a b c : ext) :
  Num.esame a b -> Num.esame b c -> Num.esame a c.
Proof.
  destruct a, b, c; simpl; auto; try contradiction.
  - intros H1 H2; rewrite H1; exact H2.
  - intros H1 H2; rewrite H1; exact H2.
Qed.

Lemma eqv_refl (a : num) : a ≃ a.
Proof. apply esame_refl. Qed.

Lemma eqv_sym (a b : num) : a ≃ b -> b ≃ a.
Proof. apply esame_sym. Qed.

Lemma eqv_trans (a b c : num) : a ≃ b -> b ≃ c -> a ≃ c.
Proof. apply esame_trans. Qed.

Lemma same_refl (a : num) : a ≡ a.
Proof. split; [reflexivity | apply eqv_refl]. Qed.

Lemma same_sym (a b : num) : a ≡ b -> b ≡ a.
Proof. intros [K V]; split; [symmetry; exact K | apply eqv_sym; exact V]. Qed.

Lemma same_trans (a b c : num) : a ≡ b -> b ≡ c -> a ≡ c.
Proof.
  intros [K V] [K' V']; split;
    [rewrite K; exact K' | eapply eqv_trans; eassumption].
Qed.

Lemma same_eqv (a b : num) : a ≡ b -> a ≃ b.
Proof. intros [_ V]; exact V. Qed.

(** [a == b] holds only for numbers of the same value. *)
Lemma eqb_eqv (a b : num) : Num.eqb a b = true -> a ≃ b.
Proof.
  unfold Num.eqb, Num.eqv.
  destruct (valof a) as [x| |s], (valof b) as [y| |t]; simpl; try discriminate.
  - apply Qeq_bool_iff.
  - apply Bool.eqb_prop.
Qed.

(** Two numbers of the same value that are not [NaN] are [==]. *)
Lemma eqv_eqb (a b : num) :
  a ≃ b -> Num.isnan a = false -> Num.eqb a b = true.
Proof.
  unfold Num.eqb, Num.eqv, Num.isnan.
  destruct (valof a) as [x| |s], (valof b) as [y| |t]; simpl;
    try contradiction; try discriminate.
  - intros H _; apply Qeq_bool_iff; exact H.
  - intros -> _; apply Bool.eqb_reflx.
Qed.

(** [a != b] is false only for two equal numbers. *)
Lemma neqb_false_eqv (a b : num) : Num.neqb a b = false -> a ≃ b.
Proof.
  unfold Num.neqb; intros H; apply eqb_eqv.
  destruct (Num.eqb a b); [reflexivity | discriminate].
Qed.

Lemma eltb_Fin (x y : Q) : Num.eltb (Fin x) (Fin y) = true <-> x < y.
Proof.
  simpl. rewrite Qlt_alt.
  destruct (x ?= y); split; intros H; try discriminate; reflexivity.
Qed.

Lemma eltb_asym (a b : ext) : Num.eltb a b = true -> Num.eltb b a = false.
Proof.
  destruct a as [x| |[|]], b as [y| |[|]]; cbn [Num.eltb];
    try discriminate; try reflexivity.
  intros H; apply eltb_Fin in H.
  destruct (y ?= x) eqn:C; try reflexivity.
  apply Qlt_alt in C. exfalso; apply (Qlt_irrefl x).
  eapply Qlt_trans; eassumption.
Qed.

Lemma eltb_not_nan (a b : ext) : Num.eltb a b = true -> a <> NaN /\ b <> NaN.
Proof.
  destruct a as [x| |[|]], b as [y| |[|]]; cbn [Num.eltb];
    try discriminate; split; discriminate.
Qed.

Lemma ltb_Fin k k' (x y : Q) :
  Num.ltb (Num k (Fin x)) (Num k' (Fin y)) = true <-> x < y.
Proof. apply eltb_Fin. Qed.

Lemma gtb_Fin k k' (x y : Q) :
  Num.gtb (Num k (Fin x)) (Num k' (Fin y)) = true <-> y < x.
Proof. apply eltb_Fin. Qed.

(** The comparisons see the value only. *)
Lemma eeqb_esame (a a' b b' : ext) :
  Num.esame a a' -> Num.esame b b' -> Num.eeqb a b = Num.eeqb a' b'.
Proof.
  destruct a as [x| |s], a' as [x'| |s'], b as [y| |t], b' as [y'| |t'];
    simpl; try contradiction; try reflexivity.
  - intros H1 H2.
    destruct (Qeq_bool x y) eqn:E, (Qeq_bool x' y') eqn:E'; try reflexivity.
    + apply Qeq_bool_iff in E. apply Qeq_bool_neq in E'.
      exfalso; apply E'; rewrite <- H1, <- H2; exact E.
    + apply Qeq_bool_iff in E'. apply Qeq_bool_neq in E.
      exfalso; apply E; rewrite H1, H2; exact E'.
  - intros -> ->; reflexivity.
Qed.

Lemma eltb_esame (a a' b b' : ext) :
  Num.esame a a' -> Num.esame b b' -> Num.eltb a b = Num.eltb a' b'.
Proof.
  destruct a as [x| |[|]], a' as [x'| |[|]], b as [y| |[|]], b' as [y'| |[|]];
    cbn [Num.esame Num.eltb]; try contradiction; try reflexivity;
    try discriminate.
  intros H1 H2. rewrite H1, H2; reflexivity.
Qed.

Lemma eqb_eqv_compat (a a' b b' : num) :
  a ≃ a' -> b ≃ b' -> Num.eqb a b = Num.eqb a' b'.
Proof. apply eeqb_esame. Qed.

Lemma ltb_eqv_compat (a a' b b' : num) :
  a ≃ a' -> b ≃ b' -> Num.ltb a b = Num.ltb a' b'.
Proof. apply eltb_esame. Qed.

Lemma negative_compat (x y : Q) : x == y -> Num.negative x = Num.negative y.
Proof. intros H; unfold Num.negative; rewrite H; reflexivity. Qed.

Lemma Qeq_bool_compat (x x' y y' : Q) :
  x == x' -> y == y' -> Qeq_bool x y = Qeq_bool x' y'.
Proof.
  intros H1 H2.
  destruct (Qeq_bool x y) eqn:E, (Qeq_bool x' y') eqn:E'; try reflexivity.
  - apply Qeq_bool_iff in E. apply Qeq_bool_neq in E'.
    exfalso; apply E'; rewrite <- H1, <- H2; exact E.
  - apply Qeq_bool_iff in E'. apply Qeq_bool_neq in E.
    exfalso; apply E; rewrite H1, H2; exact E'.
Qed.

(** The arithmetic on the values respects the sameness of values. *)
Ltac ext_cases :=
  intros a a' b b';
  destruct a as [x| |[|]], a' as [x'| |[|]], b as [y| |[|]], b' as [y'| |[|]];
  cbn [Num.esame Num.eadd Num.esub Num.emul Num.ediv Num.eneg Num.eabs
       Bool.eqb xorb negb];
  try contradiction; try exact I; try reflexivity; try discriminate;
  intros H1 H2; try discriminate;
  try rewrite (@Qeq_bool_compat x x' 0 0 H1 (Qeq_refl 0));
  try rewrite (@Qeq_bool_compat y y' 0 0 H2 (Qeq_refl 0));
  try rewrite (negative_compat H1);
  try rewrite (negative_compat H2).

Lemma eadd_esame :
  forall a a' b b' : ext, Num.esame a a' -> Num.esame b b' ->
  Num.esame (Num.eadd a b) (Num.eadd a' b').
Proof. ext_cases. rewrite H1, H2; reflexivity. Qed.

Lemma esub_esame :
  forall a a' b b' : ext, Num.esame a a' -> Num.esame b b' ->
  Num.esame (Num.esub a b) (Num.esub a' b').
Proof. ext_cases. rewrite H1, H2; reflexivity. Qed.

Lemma emul_esame :
  forall a a' b b' : ext, Num.esame a a' -> Num.esame b b' ->
  Num.esame (Num.emul a b) (Num.emul a' b').
Proof.
  ext_cases;
    try (destruct (Qeq_bool x' 0); cbn [Num.esame]; trivial; fail);
    try (destruct (Qeq_bool y' 0); cbn [Num.esame]; trivial; fail).
  rewrite H1, H2; reflexivity.
Qed.

Lemma ediv_esame :
  forall a a' b b' : ext, Num.esame a a' -> Num.esame b b' ->
  Num.esame (Num.ediv a b) (Num.ediv a' b').
Proof.
  ext_cases; try reflexivity.
  destruct (Qeq_bool y' 0);
    [destruct (Qeq_bool x' 0); cbn [Num.esame]; trivial|].
  cbn [Num.esame]; rewrite H1, H2; reflexivity.
Qed.

Lemma add_eqv (x x' y y' : num) :
  x ≃ x' -> y ≃ y' -> (x + y)%num ≃ (x' + y')%num.
Proof. apply eadd_esame. Qed.

Lemma sub_eqv (x x' y y' : num) :
  x ≃ x' -> y ≃ y' -> (x - y)%num ≃ (x' - y')%num.
Proof. apply esub_esame. Qed.

Lemma mul_eqv (x x' y y' : num) :
  x ≃ x' -> y ≃ y' -> (x * y)%num ≃ (x' * y')%num.
Proof. apply emul_esame. Qed.

Lemma add_same_compat (x x' y y' : num) :
  x ≡ x' -> y ≡ y' -> (x + y)%num ≡ (x' + y')%num.
Proof.
  intros [K1 V1] [K2 V2]; split; [simpl; rewrite K1, K2; reflexivity|].
  apply add_eqv; assumption.
Qed.

Lemma sub_same_compat (x x' y y' : num) :
  x ≡ x' -> y ≡ y' -> (x - y)%num ≡ (x' - y')%num.
Proof.
  intros [K1 V1] [K2 V2]; split; [simpl; rewrite K1, K2; reflexivity|].
  apply sub_eqv; assumption.
Qed.

Lemma mul_same_compat (x x' y y' : num) :
  x ≡ x' -> y ≡ y' -> (x * y)%num ≡ (x' * y')%num.
Proof.
  intros [K1 V1] [K2 V2]; split; [simpl; rewrite K1, K2; reflexivity|].
  apply mul_eqv; assumption.
Qed.

(** ** The security: [allocate] *)

Section SecurityFacts.
Import SecurityBase.
Implicit Types (w : scope) (s : security) (p : sdata).


(** The update of a security changes neither its position nor its
    multiplier. *)
Lemma update_position d data s :
  _position (state_of (update d data s)) = _position s.
Proof.
  unfold update.
  destruct (Z.eqb d (now s) && Num.eqb (_last_pos s) (_position s))%bool;
    [reflexivity|].
  destruct (negb (Z.eqb d (now s))); [|reflexivity].
  simpl. destruct (_prices_set s).
  - destruct (series_get d (_prices s)); reflexivity.
  - destruct data as [row|]; [|reflexivity].
    destruct (assoc (name s) row); reflexivity.
Qed.

(** The head of [allocate] touches the security only: not its position,
    nor the parent, nor the stale flag. *)
Lemma sync_frame w :
  parent (state_of (sync w)) = parent w
  /\ stale (state_of (sync w)) = stale w
  /\ _position (self (state_of (sync w))) = _position (self w).
Proof.
  unfold sync.
  destruct (_needupdate (self w) || negb (Z.eqb (now (self w)) (parent_now w)))%bool;
    [|auto].
  generalize (update_position (parent_now w) None (self w)).
  destruct (update (parent_now w) None (self w)); simpl; auto.
Qed.


(** numpy takes every number that is not an [int] beyond 64 bits. *)
Lemma np_isnan_Fin (a : num) (x : Q) :
  valof a = Fin x ->
  inject_Z (- 2 ^ 63) <= x -> x < inject_Z (2 ^ 64) ->
  Num.np_isnan a = Some false.
Proof.
  intros Ha Hlo Hhi; unfold Num.np_isnan, Num.isnan; rewrite Ha.
  destruct (kind_of a); try reflexivity.
  apply Qle_bool_iff in Hlo; rewrite Hlo.
  destruct (Qle_bool (inject_Z (2 ^ 64)) x) eqn:E; [|reflexivity].
  apply Qle_bool_iff in E. exfalso; apply (Qlt_not_le _ _ Hhi E).
Qed.

Lemma np_isnan_float (a : num) :
  kind_of a <> PyInt -> Num.np_isnan a = Some (Num.isnan a).
Proof.
  unfold Num.np_isnan; destruct (kind_of a); try reflexivity.
  intros H; exfalso; apply H; reflexivity.
Qed.


End SecurityFacts.

Section AllocateFacts.
Import SecurityBase.
Implicit Types (w : scope) (s : security) (p : sdata).

(** What [allocate] does once the checks have passed and the quantity is
    known: nothing for a zero quantity, the trade and the adjustment of
    the parent otherwise. *)
Lemma place_by_quantity w p amount upd q :
  parent w = Some p ->
  Num.eqb amount zero = false ->
  or_isnan (Num.eqb (_price (self w)) zero) (_price (self w)) = Some false ->
  quantity (self w) amount = inr q ->
  place amount upd w =
    match or_isnan (Num.eqb q zero) q with
    | None => Raise TypeError w
    | Some true => Ok w
    | Some false =>
      let px := (_price (self w) * multiplier (self w))%num in
      let fee := StrategyBase.commission_fn p q px in
      let cost := (q * _price (self w) * multiplier (self w) + fee)%num in
      Ok {| parent := Some (fst (StrategyBase.adjust (- cost)%num upd false fee
                                                     p (stale w)));
            stale := snd (StrategyBase.adjust (- cost)%num upd false fee
                                              p (stale w));
            self := trade q (self w) |}
    end.
Proof.
  intros Hp Ha Hpr Hq; unfold place.
  rewrite Ha, Hp, Hpr, Hq.
  destruct (or_isnan (Num.eqb q zero) q) as [[|]|]; reflexivity.
Qed.


End AllocateFacts.

Section SecurityClaims.
Import SecurityBase.
Implicit Types (w : scope) (s : security) (p : sdata).





End SecurityClaims.

Section TradeClaims.
Import SecurityBase.
Implicit Types (w : scope) (s : security) (p : sdata).

(** The booking of a trade of [q] by [allocate(amount, upd)]: the fee is
    the parent's [commission_fn] at [q] as it is, sign included, and at the
    price per unit; the parent is adjusted by minus the outlay, with
    [flow=False] and that fee. *)
Definition trade_booked w w1 p (amount : num) (upd : bool) (q : num) : Prop :=
  let px := (_price (self w1) * multiplier (self w1))%num in
  let fee := StrategyBase.commission_fn p q px in
  let cost := (q * _price (self w1) * multiplier (self w1) + fee)%num in
  let p' := fst (StrategyBase.adjust (- cost)%num upd false fee p (stale w1)) in
  outlay p (trade q (self w1)) q = (cost, fee)
  /\ allocate amount upd w =
       Ok {| parent := Some p';
             stale := if upd then true else stale w1;
             self := trade q (self w1) |}
  /\ StrategyBase._capital p' = (StrategyBase._capital p + - cost)%num
  /\ StrategyBase._last_fee p' = (StrategyBase._last_fee p + fee)%num
  /\ StrategyBase._net_flows p' = StrategyBase._net_flows p.

(** C4 (amended).  When [allocate] trades a quantity [q] that is not zero,
    the fee is [parent.commission_fn(q, price * multiplier)], called with
    the signed quantity, and the parent is adjusted by
    [-(q * price * multiplier + fee)] through [adjust] with [flow=False]
    and [fee] equal to that commission. *)
Theorem allocate_trade_adjusts_parent w w1 p amount upd q :
  sync w = Ok w1 ->
  parent w1 = Some p ->
  Num.eqb amount zero = false ->
  Num.eqb (_price (self w1)) zero = false ->
  Num.np_isnan (_price (self w1)) = Some false ->
  quantity (self w1) amount = inr q ->
  Num.eqb q zero = false ->
  Num.np_isnan q = Some false ->
  trade_booked w w1 p amount upd q.
Proof.
  intros Hsync Hp Ha Hpr Hprn Hq Hnz Hnn.
  assert (Hpr' : or_isnan (Num.eqb (_price (self w1)) zero)
                          (_price (self w1)) = Some false)
    by (unfold or_isnan; rewrite Hpr; exact Hprn).
  pose proof (@place_by_quantity w1 p amount upd q Hp Ha Hpr' Hq) as Hplace.
  unfold or_isnan in Hplace; rewrite Hnz, Hnn in Hplace.
  unfold trade_booked; repeat split.
  - unfold allocate; rewrite Hsync, Hplace; reflexivity.
Qed.

(** A sale of five shares by the default commission function. *)
Lemma allocate_trade_adjusts_parent_witness :
  trade_booked (Examples.holding 1%Z StrategyBase._dflt_comm_fn)
               (Examples.holding 1%Z StrategyBase._dflt_comm_fn)
               (Examples.desk 1%Z StrategyBase._dflt_comm_fn)
               (Flt (-50)) true (Int (-5)).
Proof.
  apply (@allocate_trade_adjusts_parent
           (Examples.holding 1%Z StrategyBase._dflt_comm_fn)
           (Examples.holding 1%Z StrategyBase._dflt_comm_fn)
           (Examples.desk 1%Z StrategyBase._dflt_comm_fn)
           (Flt (-50)) true (Int (-5))); reflexivity.
Defined.

(** C4, as stated, fails on the argument of the commission function: a
    sale of five shares under a commission function that returns its first
    argument books a fee of [-5], the function applied to the signed
    quantity, where the function applied to the unsigned quantity gives
    [5]. *)
Lemma commission_receives_signed_quantity :
  let fn := Examples.fee_is_quantity in
  let q := Int (-5) in
  exists w' p',
    allocate (Flt (-50)) true (Examples.holding 1%Z fn) = Ok w'
    /\ parent w' = Some p'
    /\ quantity Examples.held (Flt (-50)) = inr q
    /\ StrategyBase._last_fee p' ≡ Flt (-5)
    /\ StrategyBase.commission_fn (Examples.desk 1%Z fn) (Num.abs q) (F64 10)
       ≡ Int 5
    /\ ~ StrategyBase._last_fee p'
         ≃ (StrategyBase._last_fee (Examples.desk 1%Z fn)
            + StrategyBase.commission_fn (Examples.desk 1%Z fn) (Num.abs q)
                                         (F64 10))%num.
Proof.
  intros fn q; eexists; eexists.
  split; [vm_compute; reflexivity|].
  split; [reflexivity|].
  repeat split; try reflexivity.
  intros H; vm_compute in H; discriminate H.
Qed.

End TradeClaims.

Section ErrorClaims.
Import SecurityBase.
Implicit Types (w : scope) (s : security) (p : sdata).








(** The errors that numpy brings.  With the price of the panel, a
    multiplier of zero makes the quotient infinite, and [math.floor]
    raises [OverflowError]; an amount of [10^21] at a price of [10] gives
    a quantity of [10^20], an [int] that [np.isnan] does not take. *)
Example numpy_allocate_errors :
  let w := Examples.holding 1%Z StrategyBase._dflt_comm_fn in
  let flat := {|
    SecurityBase.name := "A"; SecurityBase.now := 1%Z;
    SecurityBase._price := F64 10; SecurityBase._value := F64 100;
    SecurityBase._weight := F64 (1 # 11); SecurityBase._position := Int 10;
    SecurityBase.multiplier := Int 0; SecurityBase._last_pos := Int 10;
    SecurityBase._needupdate := true; SecurityBase._prices_set := true;
    SecurityBase._prices := [(1%Z, F64 10); (2%Z, F64 0); (3%Z, F64 12)];
    SecurityBase._values := [(1%Z, F64 100)];
    SecurityBase._positions := [(1%Z, F64 10)] |} in
  allocate (Flt 50) true (with_self flat w) = Raise OverflowError (with_self flat w)
  /\ quantity (self w) (Flt (10 ^ 21)) = inr (Int (10 ^ 20))
  /\ allocate (Flt (10 ^ 21)) true w = Raise TypeError w.
Proof.
  intros w flat; split; [vm_compute; reflexivity|].
  split; vm_compute; reflexivity.
Qed.

End ErrorClaims.

(** ** The update of a strategy *)

Section UpdateFacts.
Import Tick Update.

(** A division raises exactly when the divisor is zero and both numbers
    are Python numbers. *)
Lemma div_None_iff (a b : num) :
  Num.div a b = None
  <-> Num.join (kind_of a) (kind_of b) <> Float64 /\ Num.eqb b zero = true.
Proof.
  unfold Num.div, Num.eqb; cbn [valof zero Int].
  change (Fin (inject_Z 0)) with (Fin 0).
  destruct (Num.join (kind_of a) (kind_of b));
    destruct (Num.eeqb (valof b) (Fin 0)); split;
    try discriminate; try (intros [H1 H2]; try discriminate; congruence);
    intros _; split; try reflexivity; discriminate.
Qed.

Lemma same_shape_refl l : same_shape l l.
Proof. induction l as [|[k c] r IH]; simpl; auto. Qed.

Lemma same_shape_trans l1 l2 l3 :
  same_shape l1 l2 -> same_shape l2 l3 -> same_shape l1 l3.
Proof.
  revert l2 l3; induction l1 as [|[k c] r IH]; intros [|[k2 c2] r2] [|[k3 c3] r3];
    simpl; try tauto.
  intros (-> & E1 & S1) (-> & E2 & S2); repeat split; eauto; congruence.
Qed.

Lemma same_shape_assoc l l' k :
  same_shape l l' ->
  match assoc k l, assoc k l' with
  | Some c, Some c' => is_sec c = is_sec c'
  | None, None => True
  | _, _ => False
  end.
Proof.
  revert l'; induction l as [|[k1 c] r IH]; intros [|[k2 c'] r']; simpl;
    try tauto.
  intros (-> & E & S); destruct (String.eqb k2 k); [exact E | apply IH; exact S].
Qed.

Section Children.
Variable upd : node -> option (outcome node).

(** The loop returns the total of [children_total]. *)
Lemma update_children_total cs acc cs1 val :
  update_children upd cs acc = Some (Ok (cs1, val)) ->
  val = children_total cs cs1 acc.
Proof.
  revert acc cs1 val; induction cs as [|[k c] rest IH]; intros acc cs1 val; simpl.
  - intros H; inversion H; reflexivity.
  - destruct (skipped c) eqn:Hs.
    + destruct (update_children upd rest acc) as [[[r v]|e [r v]]|] eqn:E;
        try discriminate.
      intros H; inversion H; subst; cbn [children_total]; rewrite ?Hs; eauto.
    + destruct (upd c) as [[c'|e c']|]; try discriminate.
      destruct (update_children upd rest (acc + node_value c')%num)
        as [[[r v]|e [r v]]|] eqn:E; try discriminate.
      intros H; inversion H; subst; cbn [children_total]; rewrite ?Hs; eauto.
Qed.


(** The loop keeps the names, and the kinds when the update of a child
    does. *)
Lemma update_children_shape cs acc o :
  (forall c o', upd c = Some o' -> is_sec (state_of o') = is_sec c) ->
  update_children upd cs acc = Some o ->
  same_shape cs (fst (state_of o)).
Proof.
  intros Hk; revert acc o; induction cs as [|[k c] rest IH]; intros acc o; simpl.
  - intros H; inversion H; simpl; auto.
  - destruct (skipped c).
    + destruct (update_children upd rest acc) as [[[r v]|e [r v]]|] eqn:E;
        try discriminate; intros H; inversion H; subst; simpl;
        repeat split; auto; apply (IH _ _ E).
    + destruct (upd c) as [[c'|e c']|] eqn:Ec; try discriminate.
      * pose proof (Hk _ _ Ec) as K; simpl in K.
        destruct (update_children upd rest (acc + node_value c')%num)
          as [[[r v]|e [r v]]|] eqn:E;
          try discriminate; intros H; inversion H; subst; simpl;
          repeat split; auto; apply (IH _ _ E).
      * pose proof (Hk _ _ Ec) as K; simpl in K.
        intros H; inversion H; subst; simpl; repeat split; auto.
        apply same_shape_refl.
Qed.

End Children.





End UpdateFacts.

Section SettleFacts.
Import Tick Update.

Lemma assoc_set_same {A} k (v : A) l : assoc k l = Some v -> assoc_set k v l = l.
Proof.
  induction l as [|[k' w] r IH]; simpl; [discriminate|].
  destruct (String.eqb k' k); [intros H; inversion H; reflexivity|].
  intros H; rewrite (IH H); reflexivity.
Qed.

Lemma set_universe_same f : set_universe (StrategyBase._universe f) f = f.
Proof. destruct f; reflexivity. Qed.

(** Writing the prices of the sub-strategies touches the universe only. *)
Lemma publish_fields rn d names f cs :
  exists u, fst (state_of (publish rn d names f cs)) = set_universe u f.
Proof.
  revert f cs; induction names as [|c rest IH]; intros f cs; simpl.
  - exists (StrategyBase._universe f); symmetry; apply set_universe_same.
  - destruct (assoc c cs) as [child|];
      [|exists (StrategyBase._universe f); symmetry; apply set_universe_same].
    destruct (child_price rn child) as [child'|e child'];
      [|exists (StrategyBase._universe f); symmetry; apply set_universe_same].
    destruct (IH (set_universe
                    (loc_set d c (node_price child') (StrategyBase._universe f)) f)
                 (assoc_set c child' cs)) as (u & E).
    exists u; rewrite E; reflexivity.
Qed.

(** When the names are those of strategies, the children are not touched. *)
Lemma publish_children rn d names f cs :
  strategies_named names cs ->
  snd (state_of (publish rn d names f cs)) = cs.
Proof.
  revert f cs; induction names as [|c rest IH]; intros f cs W; simpl; auto.
  pose proof (W c (or_introl eq_refl)) as Wc.
  destruct (assoc c cs) as [child|] eqn:E; [|reflexivity].
  destruct child as [fc csc pc|sc]; [|contradiction].
  simpl; rewrite (assoc_set_same _ _ E).
  apply IH; intros c' Hin; apply W; right; exact Hin.
Qed.

Lemma reweigh_shape val cs : same_shape cs (reweigh val cs).
Proof.
  induction cs as [|[k c] r IH]; simpl; auto.
  destruct (skipped c); simpl; repeat split; auto.
  destruct c; reflexivity.
Qed.

(** The weights do not enter the total. *)
Lemma reweigh_total val before after acc :
  children_total before (reweigh val after) acc = children_total before after acc.
Proof.
  revert after acc; induction before as [|[k c] b IH]; intros [|[k' c'] a] acc;
    simpl; auto.
  destruct (skipped c') eqn:Hs'; simpl; rewrite IH; auto.
  destruct c'; reflexivity.
Qed.

Lemma strategies_named_shape names cs cs' :
  same_shape cs cs' -> strategies_named names cs -> strategies_named names cs'.
Proof.
  intros S W c Hin; specialize (W c Hin).
  pose proof (@same_shape_assoc cs cs' c S) as A.
  destruct (assoc c cs) as [n|], (assoc c cs') as [n'|]; try contradiction; auto.
  destruct n', n; simpl in *; auto; try discriminate; contradiction.
Qed.

(** The commit block: what it writes when it commits, and that it does
    nothing when it does not. *)
Lemma commit_ok np d val f1 f2 :
  commit np d val f1 = Ok f2 ->
  if commits np val f1 then
    exists ret, period_return (set_value d val f1) = Some ret
                /\ f2 = set_price d (StrategyBase._last_price f1 * (Int 1 + ret))%num
                                  (set_value d val f1)
  else f2 = f1.
Proof.
  unfold commit; destruct (commits np val f1).
  - destruct (period_return (set_value d val f1)) as [ret|]; [|discriminate].
    intros H; inversion H; eauto.
  - intros H; inversion H; reflexivity.
Qed.

(** The value after the commit block is the total, committed or not. *)
Lemma commit_value np d val f1 f2 :
  commit np d val f1 = Ok f2 -> StrategyBase._value f2 ≃ val.
Proof.
  intros H; pose proof (commit_ok _ _ _ _ H) as C.
  destruct (commits np val f1) eqn:E.
  - destruct C as (ret & _ & ->); apply eqv_refl.
  - subst f2; unfold commits in E; apply orb_false_iff in E.
    apply neqb_false_eqv, E.
Qed.

(** The middle of the update, when it returns. *)
Lemma settle_ok is_root rn np d val f1 cs1 f4 cs3 :
  settle is_root rn np d val f1 cs1 = Ok (f4, cs3) ->
  (is_root && Num.ltb val zero)%bool = false
  /\ exists f2 u,
       commit np d val f1 = Ok f2
       /\ f4 = snapshot (set_universe u f2)
       /\ (strategies_named (StrategyBase._strat_children f2) (reweigh val cs1) ->
           cs3 = reweigh val cs1).
Proof.
  unfold settle; destruct (is_root && Num.ltb val zero)%bool; [discriminate|].
  intros H; split; [reflexivity|].
  destruct (commit np d val f1) as [f2|e f2]; [|discriminate].
  exists f2; destruct (StrategyBase._has_strat_children f2).
  - pose proof (publish_fields rn d (StrategyBase._strat_children f2) f2
                               (reweigh val cs1)) as (u & Hu).
    pose proof (publish_children rn d (names := StrategyBase._strat_children f2)
                                 f2 (cs := reweigh val cs1)) as Hc.
    destruct (publish rn d (StrategyBase._strat_children f2) f2 (reweigh val cs1))
      as [[f3 c3]|e [f3 c3]]; [|discriminate].
    simpl in Hu, Hc; inversion H; subst.
    exists u; repeat split; auto.
  - inversion H; subst.
    exists (StrategyBase._universe f2); rewrite set_universe_same; auto.
Qed.

End SettleFacts.

Section StrategyUpdateFacts.
Import Tick Update.

Variables child_update paper_update : node -> option (outcome node).

(** The end of the update, when it returns. *)
Lemma paper_trade_ok np d f4 cs3 paper n' :
  paper_trade paper_update np d f4 cs3 paper = Some (Ok n') ->
  if (np && StrategyBase._paper_trade f4)%bool
  then exists p p1 p2,
      paper = Some p
      /\ paper_update p = Some (Ok p1)
      /\ paper_update p1 = Some (Ok p2)
      /\ n' = Strat (set_price d (node_price p2) f4) cs3 (Some p2)
  else n' = Strat f4 cs3 paper.
Proof.
  unfold paper_trade; destruct (np && StrategyBase._paper_trade f4)%bool.
  - destruct paper as [p|]; [|discriminate].
    destruct (paper_update p) as [[p1|e p1]|] eqn:E1; try discriminate.
    destruct (paper_update p1) as [[p2|e p2]|] eqn:E2; try discriminate.
    intros H; inversion H; subst; exists p, p1, p2; auto.
  - intros H; inversion H; reflexivity.
Qed.

(** The three stages of an update that returns. *)
Lemma update_strategy_ok rootnow d f cs paper n' :
  update_strategy child_update paper_update rootnow d f cs paper = Some (Ok n') ->
  exists cs1 val f4 cs3,
    update_children child_update cs (StrategyBase._capital f) = Some (Ok (cs1, val))
    /\ settle (match rootnow with None => true | Some _ => false end)
              (match rootnow with Some r => r | None => d end)
              (newpt d f) d val (start d f) cs1 = Ok (f4, cs3)
    /\ paper_trade paper_update (newpt d f) d f4 cs3 paper = Some (Ok n').
Proof.
  unfold update_strategy.
  change (StrategyBase._capital (start d f)) with (StrategyBase._capital f).
  destruct (update_children child_update cs (StrategyBase._capital f))
    as [[[cs1 val]|e [cs1 val]]|]; try discriminate.
  destruct (settle _ _ _ _ _ _ _) as [[f4 cs3]|e [f3 cs3]] eqn:E; try discriminate.
  intros H; exists cs1, val, f4, cs3; auto.
Qed.

(** After an update that returns, the value of the strategy is its capital
    plus the values of its children, the dormant securities aside. *)
Lemma update_strategy_value rootnow d f cs paper n' :
  (forall c o, child_update c = Some o -> is_sec (state_of o) = is_sec c) ->
  strategies_named (StrategyBase._strat_children f) cs ->
  update_strategy child_update paper_update rootnow d f cs paper = Some (Ok n') ->
  exists f' cs' paper',
    n' = Strat f' cs' paper'
    /\ StrategyBase._capital f' = StrategyBase._capital f
    /\ StrategyBase._value f' ≃ children_total cs cs' (StrategyBase._capital f').
Proof.
  intros Hk W H.
  destruct (update_strategy_ok _ _ _ _ _ H) as (cs1 & val & f4 & cs3 & Hc & Hs & Hp).
  pose proof (update_children_total _ _ _ Hc) as Hval.
  pose proof (@update_children_shape _ _ _ _ Hk Hc) as Hshape; simpl in Hshape.
  destruct (settle_ok _ _ _ _ _ _ _ Hs) as (_ & f2 & u & Hcommit & -> & Hcs).
  pose proof (commit_value _ _ _ _ Hcommit) as Hv.
  assert (Hcap : StrategyBase._capital f2 = StrategyBase._capital f).
  { pose proof (commit_ok _ _ _ _ Hcommit) as C.
    destruct (commits (newpt d f) val (start d f));
      [destruct C as (ret & _ & ->)|subst f2]; reflexivity. }
  assert (Hnames : StrategyBase._strat_children f2 = StrategyBase._strat_children f).
  { pose proof (commit_ok _ _ _ _ Hcommit) as C.
    destruct (commits (newpt d f) val (start d f));
      [destruct C as (ret & _ & ->)|subst f2]; reflexivity. }
  rewrite Hnames in Hcs.
  assert (Hcs3 : cs3 = reweigh val cs1).
  { apply Hcs. eapply strategies_named_shape; [|exact W].
    eapply same_shape_trans; [exact Hshape | apply reweigh_shape]. }
  subst cs3.
  assert (Htotal : StrategyBase._value f2
                   ≃ children_total cs (reweigh val cs1) (StrategyBase._capital f)).
  { rewrite reweigh_total, <- Hval; exact Hv. }
  pose proof (paper_trade_ok _ _ _ _ _ Hp) as P.
  destruct (newpt d f && StrategyBase._paper_trade (snapshot (set_universe u f2)))%bool.
  - destruct P as (p & p1 & p2 & _ & _ & _ & ->).
    eexists; eexists; eexists; split; [reflexivity|].
    simpl; rewrite Hcap; split; [reflexivity | exact Htotal].
  - subst n'; eexists; eexists; eexists; split; [reflexivity|].
    simpl; rewrite Hcap; split; [reflexivity | exact Htotal].
Qed.

(** An update of a strategy leaves a strategy, whatever the outcome. *)
Lemma update_strategy_kind rootnow d f cs paper o :
  update_strategy child_update paper_update rootnow d f cs paper = Some o ->
  is_sec (state_of o) = false.
Proof.
  unfold update_strategy, paper_trade.
  destruct (update_children child_update cs _) as [[[cs1 val]|e [cs1 val]]|];
    try discriminate; [|intros H; inversion H; reflexivity].
  destruct (settle _ _ _ _ _ _ _) as [[f4 cs3]|e [f3 cs3]];
    [|intros H; inversion H; reflexivity].
  destruct (newpt d f && StrategyBase._paper_trade f4)%bool;
    [|intros H; inversion H; reflexivity].
  destruct paper as [p|]; [|intros H; inversion H; reflexivity].
  destruct (paper_update p) as [[p1|e p1]|]; try discriminate;
    [|intros H; inversion H; reflexivity].
  destruct (paper_update p1) as [[p2|e p2]|]; try discriminate;
    intros H; inversion H; reflexivity.
Qed.

End StrategyUpdateFacts.

(** The update keeps the kind of the node. *)
Lemma update_kind fuel rootnow d data n o :
  Update.update fuel rootnow d data n = Some o -> is_sec (state_of o) = is_sec n.
Proof.
  destruct n as [f cs paper|s].
  - destruct fuel as [|fuel']; [discriminate|].
    apply update_strategy_kind.
  - destruct fuel; simpl;
      destruct (SecurityBase.update d data s); intros H; inversion H; reflexivity.
Qed.

(** ** The recursion bound of the update *)

Section DepthFacts.
Import Tick Update.

Lemma depth_strat f cs paper :
  depth (Strat f cs paper) = S (Nat.max (depth_children cs) (depth_paper paper)).
Proof. reflexivity. Qed.

Lemma assoc_set_depth k c c' cs :
  assoc k cs = Some c -> depth c' = depth c ->
  depth_children (assoc_set k c' cs) = depth_children cs.
Proof.
  induction cs as [|[k1 c1] r IH]; simpl; [discriminate|].
  destruct (String.eqb k1 k).
  - intros H E; inversion H; subst; simpl; rewrite E; reflexivity.
  - intros H E; simpl; rewrite (IH H E); reflexivity.
Qed.

Lemma reweigh_depth val cs : depth_children (reweigh val cs) = depth_children cs.
Proof.
  induction cs as [|[k c] r IH]; simpl; auto.
  destruct (skipped c); simpl; rewrite IH; auto.
  destruct c; reflexivity.
Qed.

Lemma child_price_depth rn c : depth (state_of (child_price rn c)) = depth c.
Proof.
  destruct c as [f cs p|s]; simpl; auto.
  destruct (SecurityBase._needupdate s); auto.
  destruct (SecurityBase.update rn None s); reflexivity.
Qed.

Lemma publish_depth rn d names f cs :
  depth_children (snd (state_of (publish rn d names f cs))) = depth_children cs.
Proof.
  revert f cs; induction names as [|c rest IH]; intros f cs; simpl; auto.
  destruct (assoc c cs) as [child|] eqn:E; auto.
  pose proof (child_price_depth rn child) as D.
  destruct (child_price rn child) as [child'|e child']; simpl in D.
  - rewrite IH; apply (@assoc_set_depth c child child' cs E D).
  - simpl; apply (@assoc_set_depth c child child' cs E D).
Qed.

Lemma settle_depth is_root rn np d val f1 cs1 :
  depth_children (snd (state_of (settle is_root rn np d val f1 cs1)))
  = depth_children cs1.
Proof.
  unfold settle; destruct (is_root && Num.ltb val zero)%bool; auto.
  destruct (commit np d val f1) as [f2|e f2]; auto.
  destruct (StrategyBase._has_strat_children f2).
  - pose proof (publish_depth rn d (StrategyBase._strat_children f2) f2
                              (reweigh val cs1)) as D.
    destruct (publish rn d (StrategyBase._strat_children f2) f2 (reweigh val cs1))
      as [[f3 c3]|e [f3 c3]]; simpl in *; rewrite D; apply reweigh_depth.
  - simpl; apply reweigh_depth.
Qed.

Section Bounded.
Variable upd : node -> option (outcome node).
Hypothesis upd_depth :
  forall c o, upd c = Some o -> depth (state_of o) = depth c.

Lemma update_children_depth cs acc o :
  update_children upd cs acc = Some o ->
  depth_children (fst (state_of o)) = depth_children cs.
Proof.
  revert acc o; induction cs as [|[k c] rest IH]; intros acc o; simpl.
  - intros H; inversion H; reflexivity.
  - destruct (skipped c).
    + destruct (update_children upd rest acc) as [[[r v]|e [r v]]|] eqn:E;
        try discriminate; intros H; inversion H; subst;
        pose proof (IH _ _ E) as I; simpl in *; rewrite I; reflexivity.
    + destruct (upd c) as [[c'|e c']|] eqn:Ec; try discriminate.
      * pose proof (upd_depth Ec) as D; simpl in D.
        destruct (update_children upd rest (acc + node_value c')%num)
          as [[[r v]|e [r v]]|] eqn:E;
          try discriminate; intros H; inversion H; subst;
          pose proof (IH _ _ E) as I; simpl in *; rewrite I, D; reflexivity.
      * pose proof (upd_depth Ec) as D; simpl in D.
        intros H; inversion H; subst; simpl; rewrite D; reflexivity.
Qed.

Lemma update_children_some k cs acc :
  (forall c, (depth c <= k)%nat -> exists o, upd c = Some o) ->
  (depth_children cs <= k)%nat ->
  exists o, update_children upd cs acc = Some o.
Proof.
  intros Hs; revert acc; induction cs as [|[k1 c] rest IH]; intros acc B; simpl in *.
  - eauto.
  - assert (Bc : (depth c <= k)%nat) by lia.
    assert (Br : (depth_children rest <= k)%nat) by lia.
    destruct (skipped c).
    + destruct (IH acc Br) as (o & ->).
      destruct o as [[r v]|e [r v]]; eauto.
    + destruct (Hs c Bc) as (oc & ->).
      destruct oc as [c'|e c']; eauto.
      destruct (IH (acc + node_value c')%num Br) as (o & ->).
      destruct o as [[r v]|e [r v]]; eauto.
Qed.

End Bounded.

Ltac depth_close :=
  let H := fresh in
  intros H; inversion H; subst; cbn [state_of]; rewrite !depth_strat;
  cbn [depth_paper]; congruence.

Section BoundedStrategy.
Variables cu pu : node -> option (outcome node).
Hypothesis cu_depth : forall c o, cu c = Some o -> depth (state_of o) = depth c.
Hypothesis pu_depth : forall c o, pu c = Some o -> depth (state_of o) = depth c.

Lemma update_strategy_depth rootnow d f cs paper o :
  update_strategy cu pu rootnow d f cs paper = Some o ->
  depth (state_of o) = depth (Strat f cs paper).
Proof.
  unfold update_strategy, paper_trade.
  destruct (update_children cu cs _) as [[[cs1 val]|e [cs1 val]]|] eqn:Ec;
    try discriminate.
  - pose proof (@update_children_depth cu cu_depth _ _ _ Ec) as D1; simpl in D1.
    match goal with |- context [settle ?a ?b ?c ?e ?g ?h ?i] =>
      pose proof (settle_depth a b c e g h i) as D2;
      destruct (settle a b c e g h i) as [[f4 cs3]|e' [f3 cs3]]
    end; simpl in D2.
    + destruct (newpt d f && StrategyBase._paper_trade f4)%bool.
      * destruct paper as [p|].
        -- destruct (pu p) as [[p1|e p1]|] eqn:E1; try discriminate.
           ++ pose proof (pu_depth E1) as P1; simpl in P1.
              destruct (pu p1) as [[p2|e p2]|] eqn:E2; try discriminate;
                pose proof (pu_depth E2) as P2; simpl in P2;
                depth_close.
           ++ pose proof (pu_depth E1) as P1; simpl in P1.
              depth_close.
        -- depth_close.
      * depth_close.
    + depth_close.
  - pose proof (@update_children_depth cu cu_depth _ _ _ Ec) as D1; simpl in D1.
    depth_close.
Qed.

Lemma update_strategy_some k rootnow d f cs paper :
  (forall c, (depth c <= k)%nat -> exists o, cu c = Some o) ->
  (forall c, (depth c <= k)%nat -> exists o, pu c = Some o) ->
  (depth (Strat f cs paper) <= S k)%nat ->
  exists o, update_strategy cu pu rootnow d f cs paper = Some o.
Proof.
  intros Hc Hp B; rewrite depth_strat in B.
  assert (Bc : (depth_children cs <= k)%nat) by lia.
  assert (Bp : (depth_paper paper <= k)%nat) by lia.
  unfold update_strategy, paper_trade.
  destruct (@update_children_some cu k cs (StrategyBase._capital (start d f)) Hc Bc)
    as (oc & ->).
  destruct oc as [[cs1 val]|e [cs1 val]]; eauto.
  destruct (settle _ _ _ _ _ _ _) as [[f4 cs3]|e' [f3 cs3]]; eauto.
  destruct (newpt d f && StrategyBase._paper_trade f4)%bool; eauto.
  destruct paper as [p|]; eauto; simpl in Bp.
  destruct (Hp p Bp) as (o1 & E1); rewrite E1.
  destruct o1 as [p1|e p1]; eauto.
  pose proof (pu_depth E1) as P1; simpl in P1.
  destruct (Hp p1 ltac:(lia)) as (o2 & ->).
  destruct o2 as [p2|e p2]; eauto.
Qed.

End BoundedStrategy.

(** The update keeps the depth of the tree. *)
Lemma update_depth fuel rootnow d data n o :
  update fuel rootnow d data n = Some o -> depth (state_of o) = depth n.
Proof.
  revert rootnow d data n o; induction fuel as [|fuel IH]; intros rn d data n o;
    destruct n as [f cs paper|s]; simpl; try discriminate;
    try (destruct (SecurityBase.update d data s); intros H; inversion H; reflexivity).
  apply update_strategy_depth; intros c o'; apply IH.
Qed.

(** A bound of at least the depth of the tree is enough: the update
    returns or raises. *)
Lemma update_fits fuel rootnow d data n :
  (depth n <= fuel)%nat -> exists o, update fuel rootnow d data n = Some o.
Proof.
  revert rootnow d data n; induction fuel as [|fuel IH]; intros rn d data n B;
    destruct n as [f cs paper|s]; simpl;
    try (destruct (SecurityBase.update d data s); eauto; fail).
  - rewrite depth_strat in B; lia.
  - apply update_strategy_some with (k := fuel); auto.
    intros c o'; apply update_depth.
Qed.

End DepthFacts.

(** ** The price after an update *)

Section PriceClaims.
Import Tick Update.










(** With a [numpy.float64] for value the division does not raise.  A
    fresh root is updated at the first date, receives [100] that is not
    a flow, buys five shares of "A" at [10] and is updated again: the
    value is [99] against a denominator of zero, the quotient is
    infinite, and the update returns with an infinite price. *)
Example numpy_zero_base_gives_inf :
  let w0 := {| root := Strat (StrategyBase.init "root" Examples.panel) [] None;
               stale := false |} in
  exists w1 w2 w3 w4 f cs paper,
    Tree.update_root 1%Z None w0 = (inr tt, w1)
    /\ Tree.adjust [] (Int 100) true false (Flt 0) w1 = (inr tt, w2)
    /\ Tree.allocate [] (Int 50) (Some "A"%string) true w2 = (inr tt, w3)
    /\ Tree.update_root 1%Z None w3 = (inr tt, w4)
    /\ root w4 = Strat f cs paper
    /\ StrategyBase._value f ≡ F64 99
    /\ Num.eqb (StrategyBase._last_value f + StrategyBase._net_flows f)%num zero
       = true
    /\ valof (StrategyBase._price f) = Inf false.
Proof.
  do 7 eexists.
  split; [vm_compute; reflexivity|].
  split; [vm_compute; reflexivity|].
  split; [vm_compute; reflexivity|].
  split; [vm_compute; reflexivity|].
  split; [reflexivity|].
  split; [by_compute|].
  split; reflexivity.
Qed.

End PriceClaims.

(** ** Flows *)

Section FlowExamples.
Import Tick Update.

(** C6.  Flow neutrality is what the code means to give (the comment
    in [adjust]: a flow does not affect performance), and does not give
    where an update has skipped the commit.  The root strategy of
    [Examples.history] is up to date at the second date: an update there
    changes nothing.  Its value, [90], equals
    [last_value + net_flows = 100 - 10], and yet its price is [90] and
    not the last price, [100]: the update that followed the flow found
    the value unchanged and skipped the commit, on the ground that
    nothing would change, leaving the price of before the flow.  An
    injection of [5] followed by an update at the same date moves the
    price to [100]. *)
Lemma injection_moves_price :
  exists f f',
    Examples.history = Strat f [] None
    /\ update 1 None 2%Z None Examples.history = Some (Ok Examples.history)
    /\ Num.eqb (StrategyBase._value f)
               (StrategyBase._last_value f + StrategyBase._net_flows f)%num = true
    /\ update 1 None 2%Z None
              (Strat (fst (StrategyBase.adjust (Int 5) true true (Flt 0) f true))
                     [] None) = Some (Ok (Strat f' [] None))
    /\ StrategyBase._last_price f ≡ Flt 100
    /\ StrategyBase._price f ≡ Flt 90
    /\ StrategyBase._price f' ≡ Flt 100
    /\ ~ StrategyBase._price f' ≃ StrategyBase._price f.
Proof.
  eexists; eexists.
  split; [vm_compute; reflexivity|].
  split; [vm_compute; reflexivity|].
  split; [vm_compute; reflexivity|].
  split; [vm_compute; reflexivity|].
  split; [vm_compute; split; reflexivity|].
  split; [vm_compute; split; reflexivity|].
  split; [vm_compute; split; reflexivity|].
  intros H; vm_compute in H; discriminate H.
Qed.

(** The whole value of the fund of the examples is withdrawn as a flow:
    the value and the denominator [last_value + net_flows] are both
    zero, and they are [numpy.float64], so that the division returns
    not-a-number where the handler of [ZeroDivisionError] would have
    given a return of zero: the price, [100] before, is lost. *)
Lemma withdrawal_of_all_loses_price :
  let f := Examples.desk 1%Z StrategyBase._dflt_comm_fn in
  let cs := [("A"%string, Sec Examples.held); ("B"%string, Sec Examples.idle)] in
  exists f' cs',
    Num.eqb (StrategyBase._value f)
            (StrategyBase._last_value f + StrategyBase._net_flows f)%num = true
    /\ StrategyBase._price f ≡ StrategyBase._last_price f
    /\ update 1 None 1%Z None
              (Strat (fst (StrategyBase.adjust (Int (-1100)) true true (Flt 0)
                                               f false)) cs None)
       = Some (Ok (Strat f' cs' None))
    /\ Num.eqb (StrategyBase._value f') zero = true
    /\ Num.isnan (StrategyBase._price f') = true.
Proof.
  eexists; eexists.
  split; [vm_compute; reflexivity|].
  split; [vm_compute; split; reflexivity|].
  split; [vm_compute; reflexivity|].
  split; vm_compute; reflexivity.
Qed.

End FlowExamples.

(** ** The cascade of [allocate] *)

Section NodeInduction.
Variable P : node -> Prop.
Hypothesis P_sec : forall s, P (Sec s).
Hypothesis P_strat :
  forall f cs paper,
    Forall (fun kc : string * node => P (snd kc)) cs -> P (Strat f cs paper).

(** Induction on a node through the list of its children. *)
Fixpoint node_children_ind (n : node) : P n :=
  match n with
  | Sec s => P_sec s
  | Strat f cs paper =>
      P_strat f paper
        ((fix go (l : children_t) : Forall (fun kc => P (snd kc)) l :=
            match l with
            | [] => Forall_nil _
            | kc :: rest =>
                Forall_cons kc (node_children_ind (snd kc)) (go rest)
            end) cs)
  end.

End NodeInduction.

Section CascadeFacts.
Import Allocate.

Lemma adjust_cached amount upd flow fee f st :
  cached_same f (fst (StrategyBase.adjust amount upd flow fee f st)).
Proof. repeat split. Qed.

Lemma cached_same_refl f : cached_same f f.
Proof. repeat split. Qed.

Lemma cached_same_trans f g h :
  cached_same f g -> cached_same g h -> cached_same f h.
Proof.
  unfold cached_same; intros (A & B & C & D) (A' & B' & C' & D');
    repeat split; congruence.
Qed.

(** [SecurityBase.update] keeps the weight of the security. *)
Lemma sec_update_weight d data s :
  SecurityBase._weight (state_of (SecurityBase.update d data s))
  = SecurityBase._weight s.
Proof.
  unfold SecurityBase.update.
  destruct (Z.eqb d (SecurityBase.now s)
            && Num.eqb (SecurityBase._last_pos s) (SecurityBase._position s))%bool;
    [reflexivity|].
  destruct (negb (Z.eqb d (SecurityBase.now s))); [|reflexivity].
  simpl; destruct (SecurityBase._prices_set s).
  - destruct (series_get d (SecurityBase._prices s)); reflexivity.
  - destruct data as [row|]; [|reflexivity].
    destruct (assoc (SecurityBase.name s) row); reflexivity.
Qed.

(** [SecurityBase.allocate] keeps the weight of the security and the
    cached slots of the parent, and sets the stale flag only on request. *)
Lemma allocate_sec_frame amount upd s par st :
  let r := state_of (allocate_sec amount upd s par st) in
  cached_same par (fst (fst r))
  /\ node_weight (snd r) = SecurityBase._weight s
  /\ (upd = false -> snd (fst r) = st).
Proof.
  unfold allocate_sec, SecurityBase.allocate, SecurityBase.sync.
  cbn [SecurityBase.self SecurityBase.parent SecurityBase.stale
       SecurityBase.parent_now].
  pose proof (sec_update_weight (StrategyBase.now par) None s) as W.
  destruct (SecurityBase._needupdate s
            || negb (Z.eqb (SecurityBase.now s) (StrategyBase.now par)))%bool.
  - destruct (SecurityBase.update (StrategyBase.now par) None s) as [s1|e s1];
      simpl in W; [|simpl; repeat split; auto].
    unfold SecurityBase.place; simpl.
    destruct (Num.eqb amount zero); [simpl; repeat split; auto|].
    destruct (SecurityBase.or_isnan (Num.eqb (SecurityBase._price s1) zero)
                                    (SecurityBase._price s1)) as [[|]|];
      [simpl; repeat split; auto| |simpl; repeat split; auto].
    destruct (SecurityBase.quantity s1 amount) as [e|q];
      [simpl; repeat split; auto|].
    destruct (SecurityBase.or_isnan (Num.eqb q zero) q) as [[|]|];
      [simpl; repeat split; auto| |simpl; repeat split; auto].
    simpl; repeat split; auto. intros ->; reflexivity.
  - unfold SecurityBase.place; simpl.
    destruct (Num.eqb amount zero); [simpl; repeat split; auto|].
    destruct (SecurityBase.or_isnan (Num.eqb (SecurityBase._price s) zero)
                                    (SecurityBase._price s)) as [[|]|];
      [simpl; repeat split; auto| |simpl; repeat split; auto].
    destruct (SecurityBase.quantity s amount) as [e|q];
      [simpl; repeat split; auto|].
    destruct (SecurityBase.or_isnan (Num.eqb q zero) q) as [[|]|];
      [simpl; repeat split; auto| |simpl; repeat split; auto].
    simpl; repeat split; auto. intros ->; reflexivity.
Qed.

End CascadeFacts.

Section CascadeFrame.
Import Allocate.

(** What a call of [allocate] leaves alone: the cached slots of the
    parent, the weight of the node and of its children, and, unless an
    update is requested, the stale flag. *)
Definition allocate_keeps (n : node) : Prop :=
  forall amount upd par st,
    let r := state_of (allocate amount upd n (par, st)) in
    cached_same par (fst (fst r))
    /\ node_weight (snd r) = node_weight n
    /\ weights (node_children (snd r)) = weights (node_children n)
    /\ (upd = false -> snd (fst r) = st).

Lemma cascade_each (alloc : num -> node -> sdata * bool -> outcome frame)
      amount cs :
  (forall a c ps, alloc a c ps = allocate a false c ps) ->
  forall f st,
    cascade alloc amount cs f st = allocate_each (shares amount cs) cs f st.
Proof.
  intros Ha; induction cs as [|[k c] rest IH]; intros f st; simpl;
    [reflexivity|].
  rewrite Ha.
  destruct (allocate (amount * node_weight c)%num false c (f, st))
    as [[[f' st'] c']|e [[f' st'] c']]; [|reflexivity].
  rewrite IH; reflexivity.
Qed.

Lemma allocate_each_keeps cs :
  Forall (fun kc : string * node => allocate_keeps (snd kc)) cs ->
  forall sh f st,
    let r := state_of (allocate_each sh cs f st) in
    cached_same f (fst (fst r))
    /\ snd (fst r) = st
    /\ weights (snd r) = weights cs
    /\ map fst (snd r) = map fst cs.
Proof.
  induction 1 as [|[k c] rest Hc Hrest IH]; intros sh f st.
  - destruct sh; simpl; repeat split.
  - destruct sh as [|a sh]; [simpl; repeat split|].
    cbn [allocate_each].
    pose proof (Hc a false f st) as K; cbn [snd] in K.
    destruct (allocate a false c (f, st))
      as [[[f' st'] c']|e [[f' st'] c']];
      cbn [state_of fst snd] in K; destruct K as (K1 & K2 & _ & K4);
      specialize (K4 eq_refl); subst st'.
    + pose proof (IH sh f' st) as I.
      destruct (allocate_each sh rest f' st)
        as [[[f'' st''] rest']|e [[f'' st''] rest']];
        cbn [state_of fst snd] in I |- *;
        destruct I as (I1 & I2 & I3 & I4);
        (split; [eapply cached_same_trans; eassumption|]);
        (split; [assumption|]);
        unfold weights in *; simpl; rewrite K2, I3, I4; split; reflexivity.
    + cbn [state_of fst snd].
      split; [assumption|]. split; [reflexivity|].
      unfold weights; simpl; rewrite K2; split; reflexivity.
Qed.

Lemma allocate_keeps_all n : allocate_keeps n.
Proof.
  induction n as [s|f cs paper IH] using node_children_ind;
    intros amount upd par st.
  - cbn [allocate].
    pose proof (@allocate_sec_frame amount upd s par st) as (A & B & C).
    split; [exact A|]. split; [exact B|]. split; [|exact C].
    unfold allocate_sec.
    destruct (SecurityBase.allocate amount upd _); reflexivity.
  - cbn [allocate]; unfold StrategyBase.adjust; cbv beta iota zeta.
    rewrite !(@cascade_each _ amount cs (fun _ _ _ => eq_refl)).
    match goal with
    | |- context [allocate_each ?sh cs ?f1 ?s1] =>
        pose proof (@allocate_each_keeps cs IH sh f1 s1) as K;
        destruct (allocate_each sh cs f1 s1)
          as [[[f2 st3] cs']|e [[f2 st3] cs']]
    end;
      cbn [state_of fst snd] in K |- *; destruct K as (K1 & K2 & K3 & _);
      (split; [repeat split|]);
      (split; [cbn [node_weight]; destruct K1 as (-> & _); reflexivity|]);
      (split; [cbn [node_children]; exact K3|]).
    + intros ->; exact K2.
    + intros _; exact K2.
Qed.

End CascadeFrame.

Section CascadeClaims.
Import Allocate.

(** C5.  [StrategyBase.allocate(amount)] with no child given: the parent's
    [adjust] is called with [-amount], with [flow=True] exactly when the
    strategy is the root (then its own parent) and [flow=False] otherwise;
    its own [adjust] is called with [+amount] and [flow=True]; every child
    [c] then receives [c.allocate(amount * w_c, update=False)] with [w_c]
    the weight cached in [c] when the call starts.  Nothing is recomputed
    on the way: the cached price, value and weight of the strategy and of
    its parent, and the weights of the children, are after the call what
    they were before, and the stale flag is set by the request [update]
    alone. *)
Theorem allocate_cascades_cached_weights amount upd f cs paper :
  (forall par st,
     allocate amount upd (Strat f cs paper) (par, st)
     = let (par1, st1) :=
         StrategyBase.adjust (- amount)%num false false (Flt 0) par st in
       let (f1, st2) := StrategyBase.adjust amount false true (Flt 0) f st1 in
       match allocate_each (shares amount cs) cs f1 st2 with
       | Raise e (f2, st3, cs') => Raise e (par1, st3, Strat f2 cs' paper)
       | Ok (f2, st3, cs') =>
           Ok (par1, if upd then true else st3, Strat f2 cs' paper)
       end)
  /\ (forall st,
        allocate_root amount upd (Strat f cs paper) st
        = let (f0, st1) :=
            StrategyBase.adjust (- amount)%num false true (Flt 0) f st in
          let (f1, st2) :=
            StrategyBase.adjust amount false true (Flt 0) f0 st1 in
          match allocate_each (shares amount cs) cs f1 st2 with
          | Raise e (f2, st3, cs') => Raise e (st3, Strat f2 cs' paper)
          | Ok (f2, st3, cs') =>
              Ok (if upd then true else st3, Strat f2 cs' paper)
          end)
  /\ (forall par st,
        let r := state_of (allocate amount upd (Strat f cs paper) (par, st)) in
        cached_same par (fst (fst r))
        /\ (exists f' cs',
              snd r = Strat f' cs' paper
              /\ cached_same f f'
              /\ weights cs' = weights cs
              /\ map fst cs' = map fst cs)
        /\ (returned (allocate amount upd (Strat f cs paper) (par, st)) = true ->
            snd (fst r) = if upd then true else st))
  /\ (forall st,
        let o := allocate_root amount upd (Strat f cs paper) st in
        (exists f' cs',
           snd (state_of o) = Strat f' cs' paper
           /\ cached_same f f'
           /\ weights cs' = weights cs
           /\ map fst cs' = map fst cs)
        /\ (returned o = true ->
            fst (state_of o) = if upd then true else st)).
Proof.
  assert (IH : Forall (fun kc : string * node => allocate_keeps (snd kc)) cs)
    by (apply Forall_forall; intros kc _; apply allocate_keeps_all).
  split; [|split; [|split]].
  - intros par st; cbn [allocate].
    unfold StrategyBase.adjust; cbv beta iota zeta.
    rewrite (@cascade_each _ amount cs (fun _ _ _ => eq_refl)); reflexivity.
  - intros st; cbn [allocate_root].
    unfold StrategyBase.adjust; cbv beta iota zeta.
    rewrite (@cascade_each _ amount cs (fun _ _ _ => eq_refl)); reflexivity.
  - intros par st; cbn [allocate].
    unfold StrategyBase.adjust; cbv beta iota zeta.
    rewrite !(@cascade_each _ amount cs (fun _ _ _ => eq_refl)).
    match goal with
    | |- context [allocate_each ?sh cs ?f1 ?s1] =>
        pose proof (@allocate_each_keeps cs IH sh f1 s1) as K;
        destruct (allocate_each sh cs f1 s1)
          as [[[f2 st3] cs']|e [[f2 st3] cs']]
    end;
      cbn [state_of fst snd returned] in K |- *;
      destruct K as (K1 & K2 & K3 & K4);
      (split; [repeat split|]);
      (split; [exists f2, cs'; split; [reflexivity|]; split;
                 [destruct K1 as (A & B & C & D); repeat split; assumption
                 |split; assumption]|]).
    + intros _; rewrite K2; reflexivity.
    + discriminate.
  - intros st; cbn [allocate_root].
    unfold StrategyBase.adjust; cbv beta iota zeta.
    rewrite !(@cascade_each _ amount cs (fun _ _ _ => eq_refl)).
    match goal with
    | |- context [allocate_each ?sh cs ?f1 ?s1] =>
        pose proof (@allocate_each_keeps cs IH sh f1 s1) as K;
        destruct (allocate_each sh cs f1 s1)
          as [[[f2 st3] cs']|e [[f2 st3] cs']]
    end;
      cbn [state_of fst snd returned] in K |- *;
      destruct K as (K1 & K2 & K3 & K4);
      (split; [exists f2, cs'; split; [reflexivity|]; split;
                 [destruct K1 as (A & B & C & D); repeat split; assumption
                 |split; assumption]|]).
    + intros _; rewrite K2; reflexivity.
    + discriminate.
Qed.

End CascadeClaims.

(** ** Children that are not there *)

Section PathFacts.

Lemma assoc_assoc_set {A} k (v : A) l : assoc k (assoc_set k v l) = Some v.
Proof.
  induction l as [|[k' x] rest IH]; simpl.
  - rewrite String.eqb_refl; reflexivity.
  - destruct (String.eqb k' k) eqn:E; simpl; rewrite E; [reflexivity|exact IH].
Qed.

Lemma mem_key_assoc_set {A} k (v : A) l : mem_key k (assoc_set k v l) = true.
Proof. unfold mem_key; rewrite assoc_assoc_set; reflexivity. Qed.

Lemma mem_key_false {A} k (l : list (string * A)) :
  assoc k l = None -> mem_key k l = false.
Proof. unfold mem_key; intros ->; reflexivity. Qed.

(** The node written at a path that exists is the node read there. *)
Lemma get_put p : forall n new r,
  get p r = Some n -> get p (put p new r) = Some new.
Proof.
  induction p as [|k p IH]; intros n new r G; simpl in *; [reflexivity|].
  destruct r as [f cs paper|s]; simpl in G; [|discriminate].
  destruct (assoc k cs) as [c|] eqn:E; [|discriminate].
  simpl; rewrite assoc_assoc_set; eapply IH; exact G.
Qed.

(** [c.allocate(amount)] for the child [k] of the strategy at [p]. *)
Lemma allocate_node_child p k amount upd w f cs paper c :
  get p (root w) = Some (Strat f cs paper) ->
  assoc k cs = Some c ->
  Tree.allocate_node (p ++ [k]) amount upd w
  = match Allocate.allocate amount upd c (f, stale w) with
    | Ok (f', st, c') =>
        (inr tt,
         {| root := put p (Strat f' (assoc_set k c' cs) paper) (root w);
            stale := st |})
    | Raise e (f', st, c') =>
        (inl e,
         {| root := put p (Strat f' (assoc_set k c' cs) paper) (root w);
            stale := st |})
    end.
Proof.
  intros G A; unfold Tree.allocate_node.
  destruct (p ++ [k]) as [|x l] eqn:E;
    [destruct p; discriminate|].
  rewrite <- E, removelast_last, last_last, G, A.
  destruct (Allocate.allocate amount upd c (f, stale w))
    as [[[f' st] c']|e [[f' st] c']]; reflexivity.
Qed.

(** After [c.allocate] the child is still a child. *)
Lemma allocate_node_child_stays p k amount upd w f cs paper c :
  get p (root w) = Some (Strat f cs paper) ->
  assoc k cs = Some c ->
  has_child p k (snd (Tree.allocate_node (p ++ [k]) amount upd w)).
Proof.
  intros G A; rewrite (@allocate_node_child p k amount upd w f cs paper c G A).
  destruct (Allocate.allocate amount upd c (f, stale w))
    as [[[f' st] c']|e [[f' st] c']]; simpl;
    (eexists; split; [eapply get_put; exact G|]);
    simpl; apply mem_key_assoc_set.
Qed.

(** [ensure_child] on a strategy that lacks the child: the security is
    created, brought to the date of the strategy and added, unless that
    first update raises. *)
Lemma ensure_child_missing p child w f cs paper :
  get p (root w) = Some (Strat f cs paper) ->
  assoc child cs = None ->
  (exists e, Tree.ensure_child p child w = (inl e, w))
  \/ (exists c' : security,
        Tree.ensure_child p child w
        = (inr tt,
           {| root := put p (Strat f (assoc_set child (Sec c') cs) paper) (root w);
              stale := stale w |})).
Proof.
  intros G A; unfold Tree.ensure_child; rewrite G, (@mem_key_false _ child cs A).
  destruct (SecurityBase.update _ None _) as [c'|e c'];
    [right; exists c'|left; exists e]; reflexivity.
Qed.

End PathFacts.



(** ** Reads that return a slot *)

Section RawReads.

(** C10.  Reading [capital], [cash], [fees] of a strategy or [position] of
    a security returns the slot as it is and leaves the whole tree, the
    stale flag included, unchanged: no update is run.  While the root is
    stale such a read can disagree with the cached value: after
    [adjust(50)] on a childless root worth [100], capital reads [150] while
    the cached value is still [100]; reading [value] runs the update,
    after which value and capital agree and the flag is cleared. *)
Theorem raw_reads_never_update :
  (forall p w,
     snd (Tree.capital p w) = w /\ snd (Tree.cash p w) = w
     /\ snd (Tree.fees p w) = w /\ snd (Tree.position p w) = w)
  /\ (forall p w f cs paper,
        get p (root w) = Some (Strat f cs paper) ->
        Tree.capital p w = (inr (StrategyBase._capital f), w)
        /\ Tree.cash p w = (inr (StrategyBase._cash f), w)
        /\ Tree.fees p w = (inr (StrategyBase._fees f), w))
  /\ (forall p w s,
        get p (root w) = Some (Sec s) ->
        Tree.position p w = (inr (SecurityBase._position s), w))
  /\ (let w0 := {| root := Strat (Examples.account "root" 2%Z (Flt 100) (Int 100)
                                     (Int 100) (Int 0) (Int 100) (Flt 100) false)
                                  [] None;
                   stale := false |} in
      let w1 := snd (Tree.adjust [] (Int 50) true true (Flt 0) w0) in
      stale w1 = true
      /\ (exists c, Tree.capital [] w1 = (inr c, w1) /\ c ≡ Int 150)
      /\ node_value (root w1) = Int 100
      /\ exists v w2,
           Tree.value [] w1 = (inr v, w2)
           /\ v ≡ Int 150
           /\ stale w2 = false
           /\ exists c, Tree.capital [] w2 = (inr c, w2) /\ c ≡ Int 150).
Proof.
  split; [|split; [|split]].
  - intros p w; unfold Tree.capital, Tree.cash, Tree.fees, Tree.position.
    destruct (get p (root w)) as [[f cs paper|s]|]; repeat split.
  - intros p w f cs paper G.
    unfold Tree.capital, Tree.cash, Tree.fees; rewrite G; repeat split.
  - intros p w s G; unfold Tree.position; rewrite G; reflexivity.
  - cbv zeta.
    split; [reflexivity|].
    split; [eexists; split; [vm_compute; reflexivity|by_compute]|].
    split; [reflexivity|].
    eexists; eexists.
    split; [vm_compute; reflexivity|].
    split; [by_compute|].
    split; [reflexivity|].
    eexists; split; by_compute.
Qed.

End RawReads.

(** * Further properties of the code *)

(** ** Sums of numbers *)

Section NumFacts.

Lemma add_assoc_same (a b c : num) : ((a + b) + c)%num ≡ (a + (b + c))%num.
Proof. revert a b c; num_same; ring. Qed.

Lemma add_zero_same (a : num) : (a + zero)%num ≡ a.
Proof. revert a; num_same; ring. Qed.

Lemma add_comm_same (a b : num) : (a + b)%num ≡ (b + a)%num.
Proof. revert a b; num_same; ring. Qed.

Lemma zero_add_same (a : num) : (zero + a)%num ≡ a.
Proof. revert a; num_same; ring. Qed.

(** Sums up to sameness: associative, commutative, with [0] for unit. *)
#[export] Instance same_Equivalence : Equivalence Num.same.
Proof.
  split; [exact same_refl|exact same_sym|exact same_trans].
Qed.

#[export] Instance add_Proper :
  Proper (Num.same ==> Num.same ==> Num.same) Num.add.
Proof. intros x x' Hx y y' Hy; apply add_same_compat; assumption. Qed.

#[export] Instance add_Associative : Associative Num.same Num.add.
Proof. intros a b c; apply same_sym, add_assoc_same. Qed.

#[export] Instance add_Commutative : Commutative Num.same Num.add.
Proof. intros a b; apply add_comm_same. Qed.

#[export] Instance add_Unit : Unit Num.same Num.add zero.
Proof. split; [exact zero_add_same|exact add_zero_same]. Qed.


End NumFacts.

(** ** Capital adjustments and the default commission *)

Section AdjustFacts.
Import StrategyBase.


(** X2.  The default commission [max(1, abs(q) * 0.01)] is never less
    than [1] and never not-a-number, even for a quantity that is: it is
    [1] up to a hundred units and one percent of the size of the
    quantity beyond; it does not depend on the price or on the sign of
    the quantity. *)
Theorem default_commission_floor (q p : num) :
  Num.ltb (_dflt_comm_fn q p) one = false
  /\ Num.isnan (_dflt_comm_fn q p) = false
  /\ (forall x, valof q = Fin x -> Qabs x <= 100 -> _dflt_comm_fn q p = one)
  /\ (forall x, valof q = Fin x -> 100 < Qabs x ->
      _dflt_comm_fn q p = (Num.abs q * Flt (1 # 100))%num
      /\ valof (_dflt_comm_fn q p) = Fin (Qabs x * (1 # 100)))
  /\ (Num.isnan q = true -> _dflt_comm_fn q p = one)
  /\ (forall s, valof q = Inf s -> valof (_dflt_comm_fn q p) = Inf false)
  /\ _dflt_comm_fn (- q)%num p ≡ _dflt_comm_fn q p
  /\ forall p', _dflt_comm_fn q p' = _dflt_comm_fn q p.
Proof.
  unfold _dflt_comm_fn, max1, Num.gtb, Num.ltb.
  assert (Hr' : (Num.abs (- q) * Flt (1 # 100))%num
                ≡ (Num.abs q * Flt (1 # 100))%num).
  { destruct q as [k [x| |[|]]]; split; try reflexivity;
      unfold Num.eqv;
      cbn [valof Num.abs Num.neg Num.mul Num.eabs Num.eneg Num.emul Flt kind_of];
      try apply esame_refl.
    cbn [Num.esame]; rewrite Qabs_opp; reflexivity. }
  rewrite (@eltb_esame (valof one) (valof one)
             (valof (Num.abs (- q) * Flt (1 # 100))%num)
             (valof (Num.abs q * Flt (1 # 100))%num)
             (esame_refl _) (proj2 Hr')).
  assert (V : valof (Num.abs q * Flt (1 # 100))%num
              = Num.emul (Num.eabs (valof q)) (Fin (1 # 100))) by reflexivity.
  set (r := (Num.abs q * Flt (1 # 100))%num) in *.
  change (valof one) with (Fin 1).
  destruct (Num.eltb (Fin 1) (valof r)) eqn:G.
  - split; [apply eltb_asym; exact G|].
    split.
    { unfold Num.isnan. destruct (eltb_not_nan _ _ G) as [_ N].
      destruct (valof r); try reflexivity. exfalso; apply N; reflexivity. }
    split.
    { intros x E L; rewrite V, E in G; ext_simpl.
      apply (eltb_Fin 1) in G; lra. }
    split; [intros x E L; split; [reflexivity|rewrite V, E; reflexivity]|].
    split.
    { unfold Num.isnan; intros E; rewrite V in G.
      destruct (valof q); try discriminate. }
    split; [intros sg E; rewrite V, E; reflexivity|].
    split; [exact Hr'|reflexivity].
  - split; [reflexivity|]. split; [reflexivity|].
    split; [reflexivity|].
    split.
    { intros x E L; exfalso; rewrite V, E in G; ext_simpl.
      assert (K : 1 < Qabs x * (1 # 100)) by lra.
      apply (eltb_Fin 1) in K; cbn [Num.eltb] in K; rewrite K in G.
      discriminate G. }
    split; [reflexivity|].
    split; [intros sg E; rewrite V, E in G; discriminate G|].
    split; [apply same_refl|reflexivity].
Qed.

End AdjustFacts.

(** ** The update of a security *)

Section SecurityUpdateFacts.
Import SecurityBase.
Implicit Types (s : security).

Lemma series_get_set d v (l : series) : series_get d (series_set d v l) = Some v.
Proof.
  induction l as [|[k x] rest IH]; simpl.
  - rewrite Z.eqb_refl; reflexivity.
  - destruct (Z.eqb k d) eqn:E; simpl; rewrite E; [reflexivity|exact IH].
Qed.

Lemma series_set_idem d v (l : series) :
  series_set d v (series_set d v l) = series_set d v l.
Proof.
  induction l as [|[k x] rest IH]; simpl.
  - rewrite Z.eqb_refl; reflexivity.
  - destruct (Z.eqb k d) eqn:E; simpl; rewrite E; [reflexivity|].
    rewrite IH; reflexivity.
Qed.

Lemma revalue_idem d s : revalue d (revalue d s) = revalue d s.
Proof.
  unfold revalue; simpl; rewrite !series_set_idem.
  destruct (Num.eqb (_weight s) zero && Num.eqb (_position s) zero)%bool;
    reflexivity.
Qed.

(** The security a returning update leaves: either the update did
    nothing, or it revalued a security that is at the date. *)
Lemma update_ok_shape d data s s' :
  update d data s = Ok s' ->
  (s' = s /\ now s = d
   /\ (Z.eqb d (now s) && Num.eqb (_last_pos s) (_position s))%bool = true)
  \/ (exists s2, s' = revalue d s2 /\ now s2 = d
                 /\ _position s2 = _position s
                 /\ multiplier s2 = multiplier s
                 /\ _weight s2 = _weight s
                 /\ _needupdate s2 = _needupdate s
                 /\ (Z.eqb d (now s)
                     && Num.eqb (_last_pos s) (_position s))%bool = false
                 /\ _prices_set s2 = _prices_set s).
Proof.
  unfold update.
  destruct (Z.eqb d (now s) && Num.eqb (_last_pos s) (_position s))%bool eqn:C.
  - intros E; inversion E; subst; left; split; [reflexivity|].
    split; [|reflexivity].
    apply andb_true_iff in C; destruct C as [C _].
    apply Z.eqb_eq in C; symmetry; exact C.
  - destruct (Z.eqb d (now s)) eqn:D; cbn [negb].
    + intros E; inversion E; subst; right; exists s.
      apply Z.eqb_eq in D; repeat split; auto.
    + cbn [_prices_set set_now _prices name].
      destruct (_prices_set s) eqn:PS.
      * destruct (series_get d (_prices s)) as [p|]; [|discriminate].
        intros E; inversion E; subst; right; eexists; split; [reflexivity|].
        repeat split; exact PS.
      * destruct data as [row|].
        -- destruct (assoc (name s) row) as [prc|]; [|discriminate].
           intros E; inversion E; subst; right; eexists; split; [reflexivity|].
           repeat split; exact PS.
        -- intros E; inversion E; subst; right; eexists; split; [reflexivity|].
           repeat split; exact PS.
Qed.

(** X3.  The update of a security is idempotent: after an update at a
    date has returned, another update at that date, with any data, returns
    and changes nothing. *)
Theorem security_update_idempotent d data data' s s' :
  update d data s = Ok s' -> update d data' s' = Ok s'.
Proof.
  intros E;
    destruct (@update_ok_shape _ _ _ _ E) as [(-> & N & C)|(s2 & -> & N & _)].
  - unfold update; rewrite C; reflexivity.
  - unfold update.
    change (now (revalue d s2)) with (now s2); rewrite N, Z.eqb_refl.
    cbn [negb andb].
    destruct (Num.eqb (_last_pos (revalue d s2)) (_position (revalue d s2)));
      [reflexivity|].
    rewrite revalue_idem; reflexivity.
Qed.

(** A tick of the security "A" of the examples. *)
Lemma security_update_idempotent_witness :
  update 3%Z None (state_of (update 3%Z None Examples.held))
  = Ok (state_of (update 3%Z None Examples.held)).
Proof.
  apply (@security_update_idempotent 3%Z None None Examples.held).
  vm_compute; reflexivity.
Defined.

(** X4.  An update that has work to do (the date is new, or the position
    has moved since the last update) and returns leaves the security at
    the date, with its position unchanged and recorded as the last one
    seen, its value equal to position times price times multiplier, and
    both written in the history at that date (as [float64] when the
    history is a [float64] column); the security goes dormant exactly
    when its weight and its position are zero. *)
Theorem security_update_books d data s s' :
  update d data s = Ok s' ->
  (Z.eqb d (now s) && Num.eqb (_last_pos s) (_position s))%bool = false ->
  now s' = d
  /\ _position s' = _position s
  /\ _last_pos s' = _position s
  /\ _value s' = (_position s * _price s' * multiplier s)%num
  /\ series_get d (_values s') = Some (stored s (_value s'))
  /\ series_get d (_positions s') = Some (stored s (_position s))
  /\ _needupdate s'
     = (if (Num.eqb (_weight s) zero && Num.eqb (_position s) zero)%bool
        then false else _needupdate s).
Proof.
  intros E C;
    destruct (@update_ok_shape _ _ _ _ E)
      as [(_ & _ & C')|(s2 & -> & N & P & M & W & U & _ & PS)];
    [congruence|].
  change (_price (revalue d s2)) with (_price s2).
  cbn [revalue now _position _last_pos _value _values _positions _needupdate].
  unfold stored; cbn [_prices_set revalue].
  rewrite !series_get_set, N, P, M, W, U, PS.
  repeat split; reflexivity.
Qed.

(** The security "A" of the examples, from the first date to the third:
    ten shares at a price of [12]. *)
Lemma security_update_books_witness :
  let s' := state_of (update 3%Z None Examples.held) in
  now s' = 3%Z
  /\ _position s' = _position Examples.held
  /\ _last_pos s' = _position Examples.held
  /\ _value s' = (_position Examples.held * _price s' * multiplier Examples.held)%num
  /\ series_get 3%Z (_values s') = Some (stored Examples.held (_value s'))
  /\ series_get 3%Z (_positions s')
     = Some (stored Examples.held (_position Examples.held))
  /\ _needupdate s'
     = (if (Num.eqb (_weight Examples.held) zero
            && Num.eqb (_position Examples.held) zero)%bool
        then false else _needupdate Examples.held).
Proof.
  intros s'.
  apply (@security_update_books 3%Z None Examples.held s');
    vm_compute; reflexivity.
Defined.

(** The security an update leaves when it raises. *)
Lemma security_update_missing_price_shape d data s e s' :
  update d data s = Raise e s' -> s' = set_now d s.
Proof.
  unfold update.
  destruct (Z.eqb d (now s) && Num.eqb (_last_pos s) (_position s))%bool;
    [discriminate|].
  destruct (Z.eqb d (now s)); cbn [negb]; [discriminate|].
  cbn [_prices_set set_now _prices name].
  destruct (_prices_set s).
  - destruct (series_get d (_prices s)) as [p|]; [discriminate|].
    intros E; inversion E; reflexivity.
  - destruct data as [row|]; [|discriminate].
    destruct (assoc (name s) row) as [prc|]; [discriminate|].
    intros E; inversion E; reflexivity.
Qed.

(** X5.  The only exception of the update is the [KeyError] of a missing
    price, on a change of date: the date is absent from the price series
    of a security that was set up with one, or the data handed over has
    no entry for the security.  The date of the security has then moved
    and nothing else has. *)
Theorem security_update_missing_price d data s e s' :
  update d data s = Raise e s' ->
  e = KeyError
  /\ s' = set_now d s
  /\ d <> now s
  /\ (if _prices_set s then series_get d (_prices s) = None
      else exists row, data = Some row /\ assoc (name s) row = None).
Proof.
  unfold update.
  destruct (Z.eqb d (now s) && Num.eqb (_last_pos s) (_position s))%bool;
    [discriminate|].
  destruct (Z.eqb d (now s)) eqn:D; cbn [negb]; [discriminate|].
  apply Z.eqb_neq in D.
  cbn [_prices_set set_now _prices name].
  destruct (_prices_set s).
  - destruct (series_get d (_prices s)) as [p|]; [discriminate|].
    intros E; inversion E; subst; repeat split; auto.
  - destruct data as [row|]; [|discriminate].
    destruct (assoc (name s) row) as [prc|] eqn:A; [discriminate|].
    intros E; inversion E; subst; repeat split; auto.
    exists row; split; [reflexivity|exact A].
Qed.

(** The security "A" of the examples has no price at a fourth date. *)
Lemma security_update_missing_price_witness :
  update 4%Z None Examples.held = Raise KeyError (set_now 4%Z Examples.held)
  /\ 4%Z <> now Examples.held
  /\ series_get 4%Z (_prices Examples.held) = None.
Proof.
  assert (E : update 4%Z None Examples.held
              = Raise KeyError (set_now 4%Z Examples.held))
    by (vm_compute; reflexivity).
  split; [exact E|].
  destruct (@security_update_missing_price 4%Z None Examples.held KeyError
              (set_now 4%Z Examples.held) E) as (_ & _ & D & P).
  split; [exact D|exact P].
Defined.

End SecurityUpdateFacts.

(** ** Trades *)

Section TradeFacts.
Import SecurityBase.
Implicit Types (w : scope) (s : security) (p : sdata).







(** X8.  Closing out.  On a security that is in step with its parent (at
    its date, no move of the position pending), whose cached value is a
    number other than zero and whose price is a number other than zero,
    [allocate(-value)] returns and leaves a position of exactly zero,
    whatever the rounding would have given: the quantity is minus the
    position, not a quotient. *)
Theorem full_close_zeroes_position w p upd (pos : Q) :
  parent w = Some p ->
  now (self w) = StrategyBase.now p ->
  Num.eqb (_last_pos (self w)) (_position (self w)) = true ->
  valof (_position (self w)) = Fin pos ->
  Num.eqb (_value (self w)) zero = false ->
  Num.isnan (_value (self w)) = false ->
  Num.eqb (_price (self w)) zero = false ->
  Num.np_isnan (_price (self w)) = Some false ->
  Num.np_isnan (- _position (self w))%num <> None ->
  exists w',
    allocate (- _value (self w))%num upd w = Ok w'
    /\ _position (self w') ≃ zero
    /\ quantity (self w) (- _value (self w))%num
       = inr (- _position (self w))%num.
Proof.
  intros Hp Hnow Hlast Hpos Hval Hnan Hprice Hpn Hfit.
  assert (Hsync : sync w = Ok w).
  { unfold sync, parent_now; rewrite Hp, Hnow, Z.eqb_refl; cbn [negb].
    destruct (_needupdate (self w)); cbn [orb]; [|reflexivity].
    unfold update; rewrite <- Hnow, Z.eqb_refl, Hlast; cbn [andb].
    destruct w; reflexivity. }
  assert (Hrefl : Num.eqb (- _value (self w))%num (- _value (self w))%num = true).
  { apply eqv_eqb; [apply eqv_refl|].
    unfold Num.isnan in *; cbn [Num.neg valof].
    destruct (valof (_value (self w))); try discriminate; reflexivity. }
  assert (Hq : quantity (self w) (- _value (self w))%num
               = inr (- _position (self w))%num).
  { unfold quantity; rewrite Hrefl; reflexivity. }
  assert (Hamt : Num.eqb (- _value (self w))%num zero = false).
  { unfold Num.eqb in *; cbn [Num.neg valof zero Int] in *.
    destruct (valof (_value (self w))) as [v| |sg]; ext_simpl;
      try reflexivity.
    apply (eeqb_Fin_false (- v) 0); apply (eeqb_Fin_false v 0) in Hval.
    intros H; apply Hval; lra. }
  assert (Hprice' : or_isnan (Num.eqb (_price (self w)) zero)
                             (_price (self w)) = Some false)
    by (unfold or_isnan; rewrite Hprice; exact Hpn).
  pose proof (@place_by_quantity w p (- _value (self w))%num upd
                (- _position (self w))%num Hp Hamt Hprice' Hq) as Hplace.
  unfold allocate; rewrite Hsync, Hplace; unfold or_isnan.
  assert (Hn : Num.np_isnan (- _position (self w))%num = Some false).
  { unfold Num.np_isnan, Num.isnan in *; cbn [Num.neg valof kind_of] in *.
    rewrite Hpos in *; cbn [Num.eneg] in *.
    destruct (kind_of (_position (self w))); try reflexivity.
    destruct (Qle_bool (inject_Z (- 2 ^ 63)) (- pos)
              && negb (Qle_bool (inject_Z (2 ^ 64)) (- pos)))%bool;
      [reflexivity|exfalso; apply Hfit; reflexivity]. }
  rewrite Hn.
  destruct (Num.eqb (- _position (self w))%num zero) eqn:Z0.
  - exists w; split; [reflexivity|]. split; [|exact Hq].
    unfold Num.eqb, Num.eqv in *; cbn [Num.neg valof zero Int] in *.
    rewrite Hpos in *; ext_simpl.
    apply (eeqb_Fin (- pos) 0) in Z0.
    change (inject_Z 0) with 0; lra.
  - eexists; split; [reflexivity|]. split; [|exact Hq].
    cbn [self trade _position].
    unfold Num.eqv; cbn [Num.add Num.neg valof zero Int].
    rewrite Hpos; ext_simpl. change (inject_Z 0) with 0; lra.
Qed.

(** The ten shares of the examples, worth a hundred, are closed out. *)
Lemma full_close_zeroes_position_witness :
  let w := Examples.holding 1%Z StrategyBase._dflt_comm_fn in
  exists w',
    allocate (- _value (self w))%num true w = Ok w'
    /\ _position (self w') ≃ zero
    /\ quantity (self w) (- _value (self w))%num
       = inr (- _position (self w))%num.
Proof.
  intros w.
  apply (@full_close_zeroes_position w
           (Examples.desk 1%Z StrategyBase._dflt_comm_fn) true 10);
    try reflexivity.
  discriminate.
Defined.

End TradeFacts.

(** ** The update of a strategy: what it guarantees and what it leaves *)

Section RootValue.
Import Tick Update.

Lemma ltb_same (a b c : num) : a ≃ b -> Num.ltb a c = Num.ltb b c.
Proof. intros E; apply ltb_eqv_compat; [exact E|apply eqv_refl]. Qed.

(** The value of a strategy after the three stages of a returning update
    is the total that the loop over the children found. *)
Lemma update_strategy_total cu pu rootnow d f cs paper n' :
  update_strategy cu pu rootnow d f cs paper = Some (Ok n') ->
  exists cs1 val,
    update_children cu cs (StrategyBase._capital f) = Some (Ok (cs1, val))
    /\ ((match rootnow with None => true | Some _ => false end)
        && Num.ltb val zero)%bool = false
    /\ node_value n' ≃ val.
Proof.
  intros H.
  destruct (@update_strategy_ok cu pu rootnow d f cs paper n' H)
    as (cs1 & val & f4 & cs3 & Hc & Hs & Hp).
  destruct (@settle_ok _ _ _ _ _ _ _ _ _ Hs) as (Hroot & f2 & u & Hcommit & -> & _).
  pose proof (@commit_value _ _ _ _ _ Hcommit) as Hv.
  exists cs1, val; split; [exact Hc|]. split; [exact Hroot|].
  pose proof (@paper_trade_ok pu _ _ _ _ _ _ Hp) as P.
  destruct (newpt d f && StrategyBase._paper_trade (snapshot (set_universe u f2)))%bool.
  - destruct P as (p & p1 & p2 & _ & _ & _ & ->); exact Hv.
  - subst n'; exact Hv.
Qed.

(** X9.  The root never has a negative value after an update that
    returned.  When the capital of the root plus the values of its
    children is below zero the update raises [ValueError] right after the
    loop over the children: the date has moved and the children have been
    updated, but the cached value and price of the root, the weights of
    the children and the histories of the root are as they were. *)
Theorem root_value_not_negative fuel d data f cs paper :
  (forall n', update (S fuel) None d data (Strat f cs paper) = Some (Ok n') ->
              Num.ltb (node_value n') zero = false)
  /\ (forall cs1 val,
        update_children (update fuel (Some d) d data) cs (StrategyBase._capital f)
        = Some (Ok (cs1, val)) ->
        Num.ltb val zero = true ->
        update (S fuel) None d data (Strat f cs paper)
        = Some (Raise ValueError (Strat (start d f) cs1 paper))).
Proof.
  split.
  - intros n' H; cbn [update] in H.
    destruct (@update_strategy_total _ _ _ _ _ _ _ _ H)
      as (cs1 & val & _ & Hroot & Hv).
    rewrite (@ltb_same _ _ zero Hv); exact Hroot.
  - intros cs1 val Hc Hneg.
    cbn [update]; unfold update_strategy.
    change (StrategyBase._capital (start d f)) with (StrategyBase._capital f).
    rewrite Hc; unfold settle; rewrite Hneg; reflexivity.
Qed.

(** A childless root whose capital has gone to [-5]. *)
Lemma negative_root_raises :
  let f := Examples.account "root" 2%Z (Flt 100) (Int 100) (Int (-5)) (Int 0)
                            (Int 100) (Flt 100) false in
  update 1 None 2%Z None (Strat f [] None)
  = Some (Raise ValueError (Strat (start 2%Z f) [] None))
  /\ StrategyBase._value (start 2%Z f) = Int 100.
Proof. split; reflexivity. Qed.

End RootValue.

Section ChildrenFrame.
Import Tick Update.

Variable R : node -> node -> Prop.
Hypothesis R_refl : forall c, R c c.
Hypothesis R_trans : forall a b c, R a b -> R b c -> R a c.
Hypothesis R_weight : forall w c, skipped c = false -> R c (set_node_weight w c).
Hypothesis R_price : forall rn c, R c (state_of (child_price rn c)).

Lemma children_rel_refl cs : children_rel R cs cs.
Proof. induction cs as [|kc rest IH]; constructor; auto. Qed.

Lemma children_rel_trans cs1 cs2 cs3 :
  children_rel R cs1 cs2 -> children_rel R cs2 cs3 -> children_rel R cs1 cs3.
Proof.
  intros H; revert cs3; induction H as [|a b l1 l2 (K & Hab) _ IH];
    intros cs3 H3; inversion H3 as [|b' c l2' l3 (K' & Hbc) T]; subst;
    constructor.
  - split; [congruence|eapply R_trans; eassumption].
  - apply IH; assumption.
Qed.

Lemma children_rel_assoc_set k c c' cs :
  assoc k cs = Some c -> R c c' -> children_rel R cs (assoc_set k c' cs).
Proof.
  induction cs as [|[k' x] rest IH]; simpl; [discriminate|].
  destruct (String.eqb k' k).
  - intros E Hc; inversion E; subst; constructor;
      [split; [reflexivity|exact Hc]|apply children_rel_refl].
  - intros E Hc; constructor;
      [split; [reflexivity|apply R_refl]|apply IH; assumption].
Qed.

Lemma reweigh_rel val cs : children_rel R cs (reweigh val cs).
Proof.
  induction cs as [|[k c] rest IH]; simpl; constructor; auto.
  destruct (skipped c) eqn:Hs; simpl; split; auto.
Qed.

Lemma publish_rel rn d names : forall f cs,
  children_rel R cs (snd (state_of (publish rn d names f cs))).
Proof.
  induction names as [|c rest IH]; intros f cs; simpl;
    [apply children_rel_refl|].
  destruct (assoc c cs) as [child|] eqn:E; [|apply children_rel_refl].
  pose proof (R_price rn child) as Hp.
  destruct (child_price rn child) as [child'|e child']; cbn [state_of] in Hp.
  - eapply children_rel_trans; [|apply IH].
    eapply children_rel_assoc_set; eassumption.
  - simpl; eapply children_rel_assoc_set; eassumption.
Qed.

Lemma settle_rel is_root rn np d val f1 cs1 :
  children_rel R cs1 (snd (state_of (settle is_root rn np d val f1 cs1))).
Proof.
  unfold settle.
  destruct (is_root && Num.ltb val zero)%bool; [apply children_rel_refl|].
  destruct (commit np d val f1) as [f2|e f2]; [|apply children_rel_refl].
  destruct (StrategyBase._has_strat_children f2).
  - pose proof (publish_rel rn d (StrategyBase._strat_children f2) f2
                            (reweigh val cs1)) as P.
    destruct (publish rn d (StrategyBase._strat_children f2) f2 (reweigh val cs1))
      as [[f3 cs3]|e [f3 cs3]]; cbn [state_of snd] in P |- *;
      (eapply children_rel_trans; [apply reweigh_rel|exact P]).
  - simpl; apply reweigh_rel.
Qed.

Variable cu : node -> option (outcome node).
Hypothesis R_child :
  forall c o, skipped c = false -> cu c = Some o -> R c (state_of o).

Lemma update_children_rel cs : forall acc o,
  update_children cu cs acc = Some o -> children_rel R cs (fst (state_of o)).
Proof.
  induction cs as [|[k c] rest IH]; intros acc o; simpl.
  - intros H; inversion H; constructor.
  - destruct (skipped c) eqn:Hs.
    + destruct (update_children cu rest acc) as [[[r v]|e [r v]]|] eqn:E;
        try discriminate; intros H; inversion H; subst; simpl;
        (constructor; [split; [reflexivity|apply R_refl]|apply (IH _ _ E)]).
    + destruct (cu c) as [[c'|e c']|] eqn:Ec; try discriminate.
      * pose proof (R_child Hs Ec) as Hc; cbn [state_of] in Hc.
        destruct (update_children cu rest (acc + node_value c')%num)
          as [[[r v]|e [r v]]|] eqn:E; try discriminate;
          intros H; inversion H; subst; simpl;
          (constructor; [split; [reflexivity|exact Hc]|apply (IH _ _ E)]).
      * pose proof (R_child Hs Ec) as Hc; cbn [state_of] in Hc.
        intros H; inversion H; subst; simpl.
        constructor; [split; [reflexivity|exact Hc]|apply children_rel_refl].
Qed.

(** Whatever the outcome of the update of a strategy, its children are
    related to the ones it had. *)
Lemma update_strategy_rel pu rootnow d f cs paper o :
  update_strategy cu pu rootnow d f cs paper = Some o ->
  exists f' cs' paper',
    state_of o = Strat f' cs' paper'
    /\ StrategyBase._capital f' = StrategyBase._capital f
    /\ StrategyBase.now f' = d
    /\ children_rel R cs cs'.
Proof.
  unfold update_strategy.
  destruct (update_children cu cs (StrategyBase._capital (start d f)))
    as [[[cs1 val]|e [cs1 val]]|] eqn:Ec; try discriminate.
  - pose proof (update_children_rel _ _ Ec) as H1; cbn [state_of fst] in H1.
    set (is_root := match rootnow with None => true | Some _ => false end).
    set (rn := match rootnow with Some r => r | None => d end).
    pose proof (settle_rel is_root rn (newpt d f) d val (start d f) cs1) as H2.
    assert (Hf : StrategyBase._capital
                   (fst (state_of (settle is_root rn (newpt d f) d val
                                          (start d f) cs1)))
                 = StrategyBase._capital f
                 /\ StrategyBase.now
                      (fst (state_of (settle is_root rn (newpt d f) d val
                                             (start d f) cs1))) = d).
    { unfold settle.
      destruct (is_root && Num.ltb val zero)%bool; [split; reflexivity|].
      unfold commit; destruct (commits (newpt d f) val (start d f)).
      - destruct (period_return (set_value d val (start d f)));
          [|split; reflexivity].
        match goal with
        | |- context [if ?b then publish ?a1 ?a2 ?a3 ?a4 ?a5 else _] =>
            destruct b;
            [destruct (publish_fields a1 a2 a3 a4 a5) as (u & Hu);
             destruct (publish a1 a2 a3 a4 a5) as [[f3 c3]|e [f3 c3]];
             cbn [state_of fst] in Hu |- *; subst f3; split; reflexivity
            |split; reflexivity]
        end.
      - match goal with
        | |- context [if ?b then publish ?a1 ?a2 ?a3 ?a4 ?a5 else _] =>
            destruct b;
            [destruct (publish_fields a1 a2 a3 a4 a5) as (u & Hu);
             destruct (publish a1 a2 a3 a4 a5) as [[f3 c3]|e [f3 c3]];
             cbn [state_of fst] in Hu |- *; subst f3; split; reflexivity
            |split; reflexivity]
        end. }
    destruct (settle is_root rn (newpt d f) d val (start d f) cs1)
      as [[f4 cs3]|e [f3 cs3]]; cbn [state_of snd fst] in H2, Hf;
      destruct Hf as (Hcap & Hnow).
    + unfold paper_trade.
      destruct (newpt d f && StrategyBase._paper_trade f4)%bool.
      * destruct paper as [p|].
        -- destruct (pu p) as [[p1|e p1]|]; try discriminate.
           ++ destruct (pu p1) as [[p2|e p2]|]; try discriminate;
                intros H; inversion H; cbn [state_of];
                eexists; eexists; eexists; (split; [reflexivity|]);
                (split; [exact Hcap|]); (split; [exact Hnow|]);
                eapply children_rel_trans; eassumption.
           ++ intros H; inversion H; cbn [state_of];
                eexists; eexists; eexists; (split; [reflexivity|]);
                (split; [exact Hcap|]); (split; [exact Hnow|]);
                eapply children_rel_trans; eassumption.
        -- intros H; inversion H; cbn [state_of];
             eexists; eexists; eexists; (split; [reflexivity|]);
             (split; [exact Hcap|]); (split; [exact Hnow|]);
             eapply children_rel_trans; eassumption.
      * intros H; inversion H; cbn [state_of];
          eexists; eexists; eexists; (split; [reflexivity|]);
          (split; [exact Hcap|]); (split; [exact Hnow|]);
          eapply children_rel_trans; eassumption.
    + intros H; inversion H; cbn [state_of];
        eexists; eexists; eexists; (split; [reflexivity|]);
        (split; [exact Hcap|]); (split; [exact Hnow|]);
        eapply children_rel_trans; eassumption.
  - pose proof (update_children_rel _ _ Ec) as H1; cbn [state_of fst] in H1.
    intros H; inversion H; cbn [state_of].
    eexists; eexists; eexists; split; [reflexivity|].
    split; [reflexivity|]. split; [reflexivity|exact H1].
Qed.

End ChildrenFrame.

Section UpdateFrame.
Import Tick Update.

Lemma ledger_strat f cs paper :
  ledger (Strat f cs paper) = StrategyBase._capital f :: ledger_children cs.
Proof.
  assert (E : forall l,
             (fix go (l : children_t) : list num :=
                match l with
                | [] => []
                | (_, c) :: rest => (ledger c ++ go rest)%list
                end) l = ledger_children l).
  { induction l as [|[k c] rest IH]; [reflexivity|].
    cbn [ledger_children]; rewrite <- IH; reflexivity. }
  cbn [ledger]; rewrite E; reflexivity.
Qed.

Lemma ledger_children_rel cs cs' :
  children_rel same_ledger cs cs' -> ledger_children cs' = ledger_children cs.
Proof.
  induction 1 as [|[k c] [k' c'] l l' (_ & E) _ IH]; [reflexivity|].
  cbn [ledger_children snd] in *; unfold same_ledger in E; cbn [snd] in E.
  rewrite E, IH; reflexivity.
Qed.

Lemma set_node_weight_ledger w c : ledger (set_node_weight w c) = ledger c.
Proof. destruct c as [f cs paper|s]; reflexivity. Qed.

Lemma child_price_ledger rn c : ledger (state_of (child_price rn c)) = ledger c.
Proof.
  destruct c as [f cs paper|s]; [reflexivity|].
  unfold child_price; destruct (SecurityBase._needupdate s); [|reflexivity].
  pose proof (update_position rn None s) as P.
  destruct (SecurityBase.update rn None s) as [s'|e s']; cbn [state_of] in *;
    cbn [ledger]; rewrite P; reflexivity.
Qed.

(** X10.  An update moves no money and no holdings: whether it returns
    or raises, and at every depth of the tree, the capital of each
    strategy and the position of each security are after the update what
    they were before. *)
Theorem update_keeps_ledger fuel : forall rootnow d data n o,
  update fuel rootnow d data n = Some o -> ledger (state_of o) = ledger n.
Proof.
  induction fuel as [|fuel IH]; intros rootnow d data n o.
  - destruct n as [f cs paper|s]; [discriminate|].
    cbn [update]; pose proof (update_position d data s) as P.
    destruct (SecurityBase.update d data s) as [s'|e s']; cbn [state_of] in P;
      intros H; inversion H; cbn [state_of ledger]; rewrite P; reflexivity.
  - destruct n as [f cs paper|s].
    + cbn [update]; intros H.
      destruct (@update_strategy_rel same_ledger
                  (fun c => eq_refl)
                  (fun a b c (H1 : same_ledger a b) (H2 : same_ledger b c) =>
                     eq_trans H2 H1)
                  (fun w c _ => set_node_weight_ledger w c)
                  child_price_ledger
                  _ (fun c o' _ E => IH _ _ _ _ _ E)
                  _ _ _ _ _ _ _ H)
        as (f' & cs' & paper' & -> & Hcap & _ & Hrel).
      rewrite !ledger_strat, Hcap, (ledger_children_rel Hrel); reflexivity.
    + cbn [update]; pose proof (update_position d data s) as P.
      destruct (SecurityBase.update d data s) as [s'|e s']; cbn [state_of] in P;
        intros H; inversion H; cbn [state_of ledger]; rewrite P; reflexivity.
Qed.

(** The fund of the examples, updated at the third date. *)
Lemma update_keeps_ledger_witness :
  ledger (Examples.do_update 3%Z Examples.fund) = ledger Examples.fund.
Proof.
  destruct (@update_fits 1 None 3%Z None Examples.fund) as (o & E);
    [simpl; lia|].
  unfold Examples.do_update; rewrite E.
  apply (@update_keeps_ledger 1 None 3%Z None Examples.fund o E).
Defined.

Lemma dormant_kept_trans a b c :
  dormant_kept a b -> dormant_kept b c -> dormant_kept a c.
Proof.
  unfold dormant_kept; intros H1 H2 Hs.
  specialize (H1 Hs); subst b; auto.
Qed.

Lemma dormant_kept_active c c' : skipped c = false -> dormant_kept c c'.
Proof. intros Hs Hd; congruence. Qed.

Lemma dormant_kept_price rn c : dormant_kept c (state_of (child_price rn c)).
Proof.
  intros Hs; destruct c as [f cs paper|s]; [discriminate|].
  cbn [skipped] in Hs; unfold child_price.
  destruct (SecurityBase._needupdate s); [discriminate|reflexivity].
Qed.

(** X11.  The dormant securities are frozen: after the update of a
    strategy, whether it returned or raised, the children have the names
    they had, in the same order, and every security that was dormant (no
    position, no weight, [_needupdate] false) is found exactly as it was,
    its date and its price included; the strategy itself is at the date
    of the update. *)
Theorem update_freezes_dormant fuel rootnow d data f cs paper o :
  update fuel rootnow d data (Strat f cs paper) = Some o ->
  exists f' cs' paper',
    state_of o = Strat f' cs' paper'
    /\ StrategyBase.now f' = d
    /\ children_rel dormant_kept cs cs'.
Proof.
  destruct fuel as [|fuel]; [discriminate|].
  cbn [update]; intros H.
  destruct (@update_strategy_rel dormant_kept
              (fun c _ => eq_refl)
              dormant_kept_trans
              (fun w c Hs => @dormant_kept_active c _ Hs)
              dormant_kept_price
              _ (fun c o' Hs _ => @dormant_kept_active c _ Hs)
              _ _ _ _ _ _ _ H)
    as (f' & cs' & paper' & E & _ & Hnow & Hrel).
  exists f', cs', paper'; auto.
Qed.

(** The fund of the examples holds "A" and a dormant "B". *)
Lemma update_freezes_dormant_witness :
  exists f' cs' paper',
    Examples.do_update 3%Z Examples.fund = Strat f' cs' paper'
    /\ StrategyBase.now f' = 3%Z
    /\ children_rel dormant_kept
         [("A"%string, Sec Examples.held); ("B"%string, Sec Examples.idle)] cs'.
Proof.
  destruct (@update_fits 1 None 3%Z None Examples.fund) as (o & E);
    [simpl; lia|].
  unfold Examples.do_update; rewrite E.
  apply (@update_freezes_dormant 1 None 3%Z None
           (Examples.desk 1%Z StrategyBase._dflt_comm_fn)
           [("A"%string, Sec Examples.held); ("B"%string, Sec Examples.idle)]
           None o E).
Defined.

End UpdateFrame.

Section UpdateReturns.
Import Tick Update.

Lemma div_same (a b b' : num) :
  b ≡ b' ->
  match Num.div a b, Num.div a b' with
  | Some w, Some w' => w ≡ w'
  | None, None => True
  | _, _ => False
  end.
Proof.
  intros [K V]; unfold Num.div; rewrite <- K.
  rewrite <- (@eeqb_esame (valof b) (valof b') (Fin 0) (Fin 0) V (esame_refl _)).
  pose proof (@ediv_esame (valof a) (valof a) (valof b) (valof b')
                (esame_refl _) V) as D.
  destruct (Num.join (kind_of a) (kind_of b));
    destruct (Num.eeqb (valof b) (Fin 0)); try exact I;
    split; try reflexivity; exact D.
Qed.

(** The date of a node after its update, whatever the outcome. *)
Lemma update_now fuel rootnow d data n o :
  update fuel rootnow d data n = Some o -> node_now (state_of o) = d.
Proof.
  assert (S0 : forall s o',
             match SecurityBase.update d data s with
             | Ok s' => Some (Ok (Sec s'))
             | Raise e s' => Some (Raise e (Sec s'))
             end = Some o' -> node_now (state_of o') = d).
  { intros s o'.
    destruct (SecurityBase.update d data s) as [s'|e s'] eqn:E;
      intros H; inversion H; cbn [state_of node_now].
    - destruct (@update_ok_shape _ _ _ _ E)
        as [(-> & N & _)|(s2 & -> & N & _)]; [exact N|exact N].
    - rewrite (@security_update_missing_price_shape d data s e s' E).
      reflexivity. }
  destruct n as [f cs paper|s].
  - destruct fuel as [|fuel]; [discriminate|].
    cbn [update]; intros H.
    destruct (@update_strategy_rel (fun _ _ => True)
                (fun _ => I) (fun _ _ _ _ _ => I) (fun _ _ _ => I)
                (fun _ _ => I) _ (fun _ _ _ _ => I) _ _ _ _ _ _ _ H)
      as (f' & cs' & paper' & -> & _ & Hnow & _).
    exact Hnow.
  - destruct fuel; cbn [update]; apply S0.
Qed.

(** The loop over the children, when it returns: a dormant security is
    passed over, every other child has been updated and its update has
    returned. *)
Lemma update_children_ok_rel cu cs : forall acc cs1 val,
  update_children cu cs acc = Some (Ok (cs1, val)) ->
  children_rel (fun c c1 => if skipped c then c1 = c else cu c = Some (Ok c1))
               cs cs1.
Proof.
  induction cs as [|[k c] rest IH]; intros acc cs1 val; simpl.
  - intros H; inversion H; constructor.
  - destruct (skipped c) eqn:Hs.
    + destruct (update_children cu rest acc) as [[[r v]|e [r v]]|] eqn:E;
        try discriminate.
      intros H; inversion H; subst; constructor;
        [cbn [fst snd]; rewrite Hs; auto|apply (IH _ _ _ E)].
    + destruct (cu c) as [[c'|e c']|] eqn:Ec; try discriminate.
      destruct (update_children cu rest (acc + node_value c')%num)
        as [[[r v]|e [r v]]|] eqn:E; try discriminate.
      intros H; inversion H; subst; constructor;
        [cbn [fst snd]; rewrite Hs; auto|apply (IH _ _ _ E)].
Qed.

Lemma children_rel_reweigh (Q P : node -> node -> Prop) val cs cs1 :
  (forall c c1 w, Q c c1 ->
                  P c (if skipped c1 then c1 else set_node_weight w c1)) ->
  children_rel Q cs cs1 -> children_rel P cs (reweigh val cs1).
Proof.
  intros HQ H; induction H as [|[k c] [k1 c1] l l1 (K & Hq) _ IH];
    simpl; constructor; auto.
  cbn [fst snd] in *; subst k1.
  pose proof (HQ c c1 (match Num.div (node_value c1) val with
                       | Some w => w
                       | None => Flt 0
                       end) Hq) as Hp.
  destruct (skipped c1); cbn [fst snd]; split; auto.
Qed.

(** The stages of an update that returns, for a strategy whose
    [_strat_children] names strategies. *)
Lemma update_strategy_returns cu pu rootnow d f cs paper n' :
  (forall c o, cu c = Some o -> is_sec (state_of o) = is_sec c) ->
  strategies_named (StrategyBase._strat_children f) cs ->
  update_strategy cu pu rootnow d f cs paper = Some (Ok n') ->
  exists cs1 val f' paper',
    update_children cu cs (StrategyBase._capital f) = Some (Ok (cs1, val))
    /\ n' = Strat f' (reweigh val cs1) paper'
    /\ StrategyBase._value f' ≃ val
    /\ StrategyBase.now f' = d.
Proof.
  intros Hk W H.
  destruct (@update_strategy_ok cu pu rootnow d f cs paper n' H)
    as (cs1 & val & f4 & cs3 & Hc & Hs & Hp).
  pose proof (@update_children_shape cu _ _ _ Hk Hc) as Hshape; simpl in Hshape.
  destruct (@settle_ok _ _ _ _ _ _ _ _ _ Hs) as (_ & f2 & u & Hcommit & -> & Hcs).
  pose proof (@commit_value _ _ _ _ _ Hcommit) as Hv.
  pose proof (@commit_ok _ _ _ _ _ Hcommit) as C.
  assert (Hnames : StrategyBase._strat_children f2 = StrategyBase._strat_children f
                   /\ StrategyBase.now f2 = d).
  { destruct (commits (newpt d f) val (start d f));
      [destruct C as (ret & _ & ->)|subst f2]; split; reflexivity. }
  destruct Hnames as (Hnames & Hnow).
  rewrite Hnames in Hcs.
  assert (Hcs3 : cs3 = reweigh val cs1).
  { apply Hcs. eapply strategies_named_shape; [|exact W].
    eapply same_shape_trans; [exact Hshape | apply reweigh_shape]. }
  subst cs3.
  pose proof (@paper_trade_ok pu _ _ _ _ _ _ Hp) as P.
  exists cs1, val.
  destruct (newpt d f && StrategyBase._paper_trade (snapshot (set_universe u f2)))%bool.
  - destruct P as (p & p1 & p2 & _ & _ & _ & ->).
    eexists; eexists; split; [exact Hc|]. split; [reflexivity|].
    split; [exact Hv|exact Hnow].
  - subst n'; eexists; eexists; split; [exact Hc|]. split; [reflexivity|].
    split; [exact Hv|exact Hnow].
Qed.

(** X12.  After an update that returned, the strategy and every child
    that was not dormant before the update are at the date of the update;
    the children have the names they had, in the same order. *)
Theorem update_brings_to_date fuel rootnow d data f cs paper n' :
  strategies_named (StrategyBase._strat_children f) cs ->
  update fuel rootnow d data (Strat f cs paper) = Some (Ok n') ->
  exists f' cs' paper',
    n' = Strat f' cs' paper'
    /\ StrategyBase.now f' = d
    /\ children_rel (fun c c' => skipped c = false -> node_now c' = d) cs cs'.
Proof.
  intros W H; destruct fuel as [|fuel]; [discriminate|].
  cbn [update] in H.
  destruct (@update_strategy_returns _ _ _ _ _ _ _ _
              (fun c o => @update_kind fuel _ d data c o) W H)
    as (cs1 & val & f' & paper' & Hc & -> & _ & Hnow).
  exists f', (reweigh val cs1), paper'.
  split; [reflexivity|]. split; [exact Hnow|].
  eapply children_rel_reweigh; [|exact (@update_children_ok_rel _ _ _ _ _ Hc)].
  intros c c1 w Hq Hs; cbn beta in Hq; rewrite Hs in Hq.
  pose proof (@update_now _ _ _ _ _ _ Hq) as N; cbn [state_of] in N.
  destruct (skipped c1); [exact N|].
  destruct c1; exact N.
Qed.

(** The fund of the examples, updated at the third date. *)
Lemma update_brings_to_date_witness :
  exists f' cs' paper',
    Examples.do_update 3%Z Examples.fund = Strat f' cs' paper'
    /\ StrategyBase.now f' = 3%Z
    /\ children_rel (fun c c' => skipped c = false -> node_now c' = 3%Z)
         [("A"%string, Sec Examples.held); ("B"%string, Sec Examples.idle)] cs'.
Proof.
  apply (@update_brings_to_date 1 None 3%Z None
           (Examples.desk 1%Z StrategyBase._dflt_comm_fn)
           [("A"%string, Sec Examples.held); ("B"%string, Sec Examples.idle)]
           None (Examples.do_update 3%Z Examples.fund)).
  - intros c [].
  - vm_compute; reflexivity.
Defined.

Lemma skipped_set_node_weight w c : skipped (set_node_weight w c) = skipped c.
Proof. destruct c; reflexivity. Qed.

Lemma value_set_node_weight w c : node_value (set_node_weight w c) = node_value c.
Proof. destruct c; reflexivity. Qed.

Lemma weight_set_node_weight w c : node_weight (set_node_weight w c) = w.
Proof. destruct c; reflexivity. Qed.

(** X13.  The weights are shares of the value.  After an update of a
    strategy that returned, the value of the strategy equals ([==]) the
    total [val] that the update found, and every child that is not dormant
    has for weight its value divided by that total.  The weight is zero
    ([0.0]) where the division raises, which it does when the total is
    zero and both numbers are Python numbers; with a numpy number on
    either side the division by zero returns, and the weight is the
    infinity or the NaN it returns. *)
Theorem update_weights_are_shares fuel rootnow d data f cs paper n' :
  strategies_named (StrategyBase._strat_children f) cs ->
  update fuel rootnow d data (Strat f cs paper) = Some (Ok n') ->
  exists val,
    node_value n' ≃ val
    /\ forall k c', In (k, c') (node_children n') -> skipped c' = false ->
         match Num.div (node_value c') val with
         | Some w => node_weight c' = w
         | None =>
             node_weight c' = Flt 0
             /\ python (node_value c') /\ python val
             /\ Num.eqb val zero = true
         end.
Proof.
  intros W H; destruct fuel as [|fuel]; [discriminate|].
  cbn [update] in H.
  destruct (@update_strategy_returns _ _ _ _ _ _ _ _
              (fun c o => @update_kind fuel _ d data c o) W H)
    as (cs1 & val & f' & paper' & _ & -> & Hv & _).
  exists val; split; [exact Hv|].
  intros k c' Hin Hs; cbn [node_children node_value] in *.
  unfold reweigh in Hin; apply in_map_iff in Hin.
  destruct Hin as ([k1 c1] & E & _).
  destruct (skipped c1) eqn:Hs1.
  - inversion E; subst; congruence.
  - inversion E; subst k c'; clear E.
    rewrite value_set_node_weight, weight_set_node_weight.
    destruct (Num.div (node_value c1) val) as [w|] eqn:D; [reflexivity|].
    split; [reflexivity|].
    apply div_None_iff in D; destruct D as [J Z].
    repeat split; try exact Z; unfold python; intros K; apply J;
      rewrite K; [|destruct (Num.kind_of (node_value c1))]; reflexivity.
Qed.

(** In the fund of the examples at the third date, "A" is worth [120] of
    [1120]. *)
Lemma update_weights_are_shares_witness :
  exists val,
    node_value (Examples.do_update 3%Z Examples.fund) ≃ val
    /\ forall k c',
         In (k, c') (node_children (Examples.do_update 3%Z Examples.fund)) ->
         skipped c' = false ->
         match Num.div (node_value c') val with
         | Some w => node_weight c' = w
         | None =>
             node_weight c' = Flt 0
             /\ python (node_value c') /\ python val
             /\ Num.eqb val zero = true
         end.
Proof.
  apply (@update_weights_are_shares 1 None 3%Z None
           (Examples.desk 1%Z StrategyBase._dflt_comm_fn)
           [("A"%string, Sec Examples.held); ("B"%string, Sec Examples.idle)]
           None (Examples.do_update 3%Z Examples.fund)).
  - intros c [].
  - vm_compute; reflexivity.
Defined.

(** There "A" is worth [120] of [1120], and the dormant "B" keeps the
    weight it had. *)
Example fund_weights :
  exists a b,
    node_children (Examples.do_update 3%Z Examples.fund)
    = [("A"%string, a); ("B"%string, b)]
    /\ node_weight a ≡ F64 (120 # 1120)
    /\ node_weight b = node_weight (Sec Examples.idle).
Proof. do 2 eexists; split; [vm_compute; reflexivity|split; by_compute]. Qed.

End UpdateReturns.

(** ** Paths *)

Section Paths.

Lemma get_snoc p k : forall r n c,
  get p r = Some n -> assoc k (node_children n) = Some c ->
  get (p ++ [k]) r = Some c.
Proof.
  induction p as [|k' p IH]; intros r n c G A; simpl in *.
  - inversion G; subst; rewrite A; reflexivity.
  - destruct (assoc k' (node_children r)) as [c0|]; [|discriminate].
    eapply IH; eassumption.
Qed.

(** The world once a child has been set under a strategy. *)
Lemma added_child p child w f cs paper (c' : security) :
  get p (root w) = Some (Strat f cs paper) ->
  let w1 := {| root := put p (Strat f (assoc_set child (Sec c') cs) paper) (root w);
               stale := stale w |} in
  get p (root w1) = Some (Strat f (assoc_set child (Sec c') cs) paper)
  /\ assoc child (assoc_set child (Sec c') cs) = Some (Sec c')
  /\ get (p ++ [child]) (root w1) = Some (Sec c').
Proof.
  intros G w1.
  assert (G1 : get p (root w1)
               = Some (Strat f (assoc_set child (Sec c') cs) paper))
    by (apply (@get_put p (Strat f cs paper)); exact G).
  split; [exact G1|]. split; [apply assoc_assoc_set|].
  eapply get_snoc; [exact G1|]; simpl; apply assoc_assoc_set.
Qed.

End Paths.

(** ** Reads that update, and calls that find nothing to do *)

Section TreeReads.

Lemma refresh_clears w : stale (snd (Tree.refresh w)) = false.
Proof.
  unfold Tree.refresh; destruct (stale w) eqn:S; [|exact S].
  unfold Tree.update_root.
  destruct (Update.update _ _ _ _ _) as [[n|e n]|]; reflexivity.
Qed.

Lemma refresh_fresh w : stale w = false -> Tree.refresh w = (inr tt, w).
Proof. intros S; unfold Tree.refresh; rewrite S; reflexivity. Qed.

(** X14.  Reading [value] or [weight] settles the tree: after the read
    the root is not stale, whether the read returned or raised; a read
    that returned returns the same number again when repeated, this time
    without changing anything; and on a tree that is not stale the first
    read already changes nothing. *)
Theorem value_read_settles p w :
  stale (snd (Tree.value p w)) = false
  /\ stale (snd (Tree.weight p w)) = false
  /\ (forall v w', Tree.value p w = (inr v, w') ->
                   Tree.value p w' = (inr v, w'))
  /\ (forall v w', Tree.weight p w = (inr v, w') ->
                   Tree.weight p w' = (inr v, w')
                   /\ exists v', Tree.value p w' = (inr v', w'))
  /\ (stale w = false ->
      snd (Tree.value p w) = w /\ snd (Tree.weight p w) = w).
Proof.
  pose proof (refresh_clears w) as C.
  unfold Tree.value, Tree.weight, mbind, Tree.node_at, ret.
  destruct (Tree.refresh w) as [[e|[]] w1] eqn:R; cbn [snd] in C.
  - split; [exact C|]. split; [exact C|].
    split; [discriminate|]. split; [discriminate|].
    intros S; rewrite (@refresh_fresh w S) in R; discriminate.
  - assert (R1 : Tree.refresh w1 = (inr tt, w1)) by (apply refresh_fresh; exact C).
    destruct (get p (root w1)) as [n|] eqn:G; cbn [snd].
    + split; [exact C|]. split; [exact C|].
      split; [|split].
      * intros v w' E; inversion E; subst; rewrite R1, G; reflexivity.
      * intros v w' E; inversion E; subst; rewrite R1, G; split; eauto.
      * intros S; rewrite (@refresh_fresh w S) in R; inversion R; auto.
    + split; [exact C|]. split; [exact C|].
      split; [discriminate|]. split; [discriminate|].
      intros S; rewrite (@refresh_fresh w S) in R; inversion R; auto.
Qed.

Lemma assoc_of_key {A} k (l : list (string * A)) :
  In k (map fst l) -> exists v, assoc k l = Some v.
Proof.
  induction l as [|[k' x] rest IH]; simpl; [tauto|].
  intros [E|H].
  - subst k'; rewrite String.eqb_refl; eauto.
  - destruct (String.eqb k' k); eauto.
Qed.

Lemma flatten_keys_flat p keys w :
  stale w = false ->
  (forall k, In k keys ->
             exists c, get (p ++ [k]) (root w) = Some c
                       /\ Num.eqb (node_value c) zero = true) ->
  Tree.flatten_keys p keys w = (inr tt, w).
Proof.
  intros S; induction keys as [|k rest IH]; intros H; [reflexivity|].
  destruct (H k (or_introl eq_refl)) as (c & G & Z).
  cbn [Tree.flatten_keys]; unfold mbind at 1 2.
  unfold Tree.value, mbind, Tree.node_at, ret.
  rewrite (@refresh_fresh w S), G.
  unfold Num.neqb; rewrite Z; cbn [negb].
  apply IH; intros k' Hin; apply H; right; exact Hin.
Qed.

(** X15.  Nothing to flatten.  On a tree that is not stale, [flatten] on
    a strategy whose children all have a value equal to zero places no
    order and changes nothing: no child is updated, no capital moves, and
    the tree does not become stale. *)
Theorem flatten_flat_is_noop p w f cs paper :
  stale w = false ->
  get p (root w) = Some (Strat f cs paper) ->
  (forall k c, assoc k cs = Some c -> Num.eqb (node_value c) zero = true) ->
  Tree.flatten p w = (inr tt, w).
Proof.
  intros S G Z; unfold Tree.flatten, mbind, Tree.node_at; rewrite G.
  cbn [node_children]; apply flatten_keys_flat; [exact S|].
  intros k Hin; destruct (assoc_of_key _ _ Hin) as (c & A).
  exists c; split; [|exact (Z _ _ A)].
  eapply get_snoc; [exact G|exact A].
Qed.

(** A desk whose only holding is the dormant security "B", worth nothing. *)
Lemma flatten_flat_is_noop_witness :
  let w := {| root := Strat (Examples.desk 1%Z StrategyBase._dflt_comm_fn)
                            [("B"%string, Sec Examples.idle)] None;
              stale := false |} in
  Tree.flatten [] w = (inr tt, w).
Proof.
  intros w.
  apply (@flatten_flat_is_noop [] w
           (Examples.desk 1%Z StrategyBase._dflt_comm_fn)
           [("B"%string, Sec Examples.idle)] None).
  - reflexivity.
  - reflexivity.
  - intros k c; cbn [assoc].
    destruct (String.eqb "B" k); [|discriminate].
    intros E; inversion E; reflexivity.
Defined.

Lemma assoc_set_new {A} k (v : A) l :
  assoc k l = None -> assoc_set k v l = (l ++ [(k, v)])%list.
Proof.
  induction l as [|[k' x] rest IH]; simpl; [reflexivity|].
  destruct (String.eqb k' k); [discriminate|].
  intros H; rewrite (IH H); reflexivity.
Qed.

Lemma security_update_name d data s :
  SecurityBase.name (state_of (SecurityBase.update d data s)) = SecurityBase.name s.
Proof.
  unfold SecurityBase.update.
  destruct (Z.eqb d (SecurityBase.now s)
            && Num.eqb (SecurityBase._last_pos s) (SecurityBase._position s))%bool;
    [reflexivity|].
  destruct (negb (Z.eqb d (SecurityBase.now s))); [|reflexivity].
  simpl; destruct (SecurityBase._prices_set s).
  - destruct (series_get d (SecurityBase._prices s)); reflexivity.
  - destruct data as [row|]; [|reflexivity].
    destruct (assoc (SecurityBase.name s) row); reflexivity.
Qed.

(** X16.  The child created on demand.  When [allocate(amount, child)] or
    [rebalance] finds no child of the name, the security it adds comes
    last among the children, bears the name, is at the date of the
    strategy, and holds nothing: position and weight are zero.  The other
    children, the strategy and the stale flag are untouched, and asking
    again adds nothing. *)
Theorem ensure_child_adds_flat p child w w' f cs paper :
  get p (root w) = Some (Strat f cs paper) ->
  assoc child cs = None ->
  Tree.ensure_child p child w = (inr tt, w') ->
  exists s : security,
    get p (root w') = Some (Strat f (cs ++ [(child, Sec s)]) paper)
    /\ SecurityBase.name s = child
    /\ SecurityBase.now s = StrategyBase.now f
    /\ SecurityBase._position s = Int 0
    /\ SecurityBase._weight s = Int 0
    /\ stale w' = stale w
    /\ Tree.ensure_child p child w' = (inr tt, w').
Proof.
  intros G A E.
  unfold Tree.ensure_child in E; rewrite G, (@mem_key_false _ child cs A) in E.
  destruct (SecurityBase.update (StrategyBase.now f) None
              (SecurityBase.init_setup child (Int 1) (StrategyBase._universe f)))
    as [c'|e c'] eqn:U; [|discriminate].
  inversion E; subst w'; clear E.
  destruct (@added_child p child w f cs paper c' G) as (G1 & A1 & _).
  exists c'; rewrite <- (@assoc_set_new _ child (Sec c') cs A).
  split; [exact G1|].
  pose proof (update_position (StrategyBase.now f) None
                (SecurityBase.init_setup child (Int 1) (StrategyBase._universe f)))
    as P.
  pose proof (sec_update_weight (StrategyBase.now f) None
                (SecurityBase.init_setup child (Int 1) (StrategyBase._universe f)))
    as W.
  pose proof (@update_now 0 None (StrategyBase.now f) None
                (Sec (SecurityBase.init_setup child (Int 1)
                                              (StrategyBase._universe f)))
                (Ok (Sec c'))) as N.
  cbn [Update.update] in N; rewrite U in N; specialize (N eq_refl).
  rewrite U in P, W; cbn [state_of node_now] in P, W, N.
  assert (I : SecurityBase._position
                (SecurityBase.init_setup child (Int 1) (StrategyBase._universe f))
              = Int 0
              /\ SecurityBase._weight
                   (SecurityBase.init_setup child (Int 1) (StrategyBase._universe f))
                 = Int 0
              /\ SecurityBase.name
                   (SecurityBase.init_setup child (Int 1) (StrategyBase._universe f))
                 = child).
  { unfold SecurityBase.init_setup.
    destruct (assoc child (u_columns (StrategyBase._universe f)));
      repeat split. }
  destruct I as (I1 & I2 & I3).
  pose proof (security_update_name (StrategyBase.now f) None
                (SecurityBase.init_setup child (Int 1) (StrategyBase._universe f)))
    as Nm.
  rewrite U in Nm; cbn [state_of] in Nm; rewrite I3 in Nm.
  split; [exact Nm|]. split; [exact N|].
  split; [congruence|]. split; [congruence|].
  split; [reflexivity|].
  unfold Tree.ensure_child; rewrite G1.
  rewrite mem_key_assoc_set; reflexivity.
Qed.

(** The desk of the examples, asked for a child "A" it does not have. *)
Lemma ensure_child_adds_flat_witness :
  let f := Examples.desk 1%Z StrategyBase._dflt_comm_fn in
  let w := {| root := Strat f [] None; stale := false |} in
  let w' := snd (Tree.ensure_child [] "A" w) in
  exists s : security,
    get [] (root w') = Some (Strat f ([] ++ [("A"%string, Sec s)]) None)
    /\ SecurityBase.name s = "A"%string
    /\ SecurityBase.now s = StrategyBase.now f
    /\ SecurityBase._position s = Int 0
    /\ SecurityBase._weight s = Int 0
    /\ stale w' = stale w
    /\ Tree.ensure_child [] "A" w' = (inr tt, w').
Proof.
  intros f w w'.
  apply (@ensure_child_adds_flat [] "A"%string w w' f [] None).
  - reflexivity.
  - reflexivity.
  - vm_compute; reflexivity.
Defined.

End TreeReads.

(** ** Stacks of stacks *)

Section NestedStacks.
Import AlgoStack.
Variable target : Type.
Implicit Types (algos : list (algo target)) (t : target).

Lemma run_normal_app (a b : list (algo target)) t :
  run_normal (a ++ b) t
  = let (r, t') := run_normal a t in
    if r then run_normal b t' else (false, t').
Proof.
  revert t; induction a as [|x a IH]; intros t; simpl; [reflexivity|].
  destruct (call x t) as [r t']; destruct r; simpl; [apply IH|reflexivity].
Qed.

Lemma check_run_always_app (a b : list (algo target)) :
  check_run_always (a ++ b) = (check_run_always a || check_run_always b)%bool.
Proof. unfold check_run_always; apply existsb_app. Qed.

Lemma check_run_always_stacks (ls : list (list (algo target))) :
  check_run_always (map stack_algo ls) = false.
Proof. induction ls as [|l ls IH]; simpl; auto. Qed.

(** X17.  Stacks nest.  A stack whose members are stacks runs in the
    normal mode, since a stack has no [run_always] attribute: it runs the
    inner stacks in order and stops at the first that returns false.
    When no algo inside has the attribute either, the stack of stacks
    behaves as the one flat stack of all the algos in order: same result,
    same effect on the target. *)
Theorem nested_stacks_flatten (ls : list (list (algo target))) t :
  __call__ (map stack_algo ls) t = run_normal (map stack_algo ls) t
  /\ (check_run_always (List.concat ls) = false ->
      __call__ (map stack_algo ls) t = __call__ (List.concat ls) t).
Proof.
  split.
  - unfold __call__; rewrite check_run_always_stacks; reflexivity.
  - intros H; unfold __call__ at 1; rewrite check_run_always_stacks; cbn [negb].
    unfold __call__; rewrite H; cbn [negb].
    revert t H; induction ls as [|l ls IH]; intros t H; [reflexivity|].
    cbn [List.concat] in H; rewrite check_run_always_app in H.
    apply orb_false_iff in H; destruct H as (Hl & Hls).
    cbn [map run_normal List.concat]; rewrite run_normal_app.
    cbn [stack_algo call]; unfold __call__ at 1; rewrite Hl; cbn [negb].
    destruct (run_normal l t) as [r t']; destruct r; cbn [negb];
      [apply IH; exact Hls|reflexivity].
Qed.

End NestedStacks.

(** ** The index price of a strategy that has lost everything *)

Section WipedOut.
Import Tick Update.

(** The slots of a strategy that does not paper-trade after an update
    that returned: those the commit block left, the universe and the
    histories of cash and fees aside. *)
Lemma update_strategy_commit cu pu rootnow d f cs paper n' :
  StrategyBase._paper_trade f = false ->
  update_strategy cu pu rootnow d f cs paper = Some (Ok n') ->
  exists val f2 u cs3,
    commit (newpt d f) d val (start d f) = Ok f2
    /\ n' = Strat (snapshot (set_universe u f2)) cs3 paper.
Proof.
  intros Hpaper H.
  destruct (@update_strategy_ok cu pu rootnow d f cs paper n' H)
    as (cs1 & val & f4 & cs3 & Hc & Hs & Hp).
  destruct (@settle_ok _ _ _ _ _ _ _ _ _ Hs) as (_ & f2 & u & Hcommit & -> & _).
  exists val, f2, u, cs3; split; [exact Hcommit|].
  pose proof (@paper_trade_ok pu _ _ _ _ _ _ Hp) as P.
  pose proof (@commit_ok _ _ _ _ _ Hcommit) as C.
  assert (Hpt : StrategyBase._paper_trade (snapshot (set_universe u f2)) = false).
  { destruct (commits (newpt d f) val (start d f));
      [destruct C as (ret & _ & ->)|subst f2]; exact Hpaper. }
  rewrite Hpt, andb_false_r in P; exact P.
Qed.

Lemma div_valof (a b x : num) :
  Num.div a b = Some x -> valof x = Num.ediv (valof a) (valof b).
Proof.
  unfold Num.div.
  destruct (Num.join (kind_of a) (kind_of b));
    try destruct (Num.eeqb (valof b) (Fin 0)); try discriminate;
    intros E; inversion E; reflexivity.
Qed.

(** The price that a commit computes from a value of zero. *)
Lemma wiped_price (l v dn : ext) (x : Q) :
  l = Fin x -> Num.esame v (Fin 0) -> Num.eeqb dn (Fin 0) = false ->
  dn <> NaN ->
  Num.esame
    (Num.emul l (Num.eadd (Fin (inject_Z 1))
                          (Num.esub (Num.ediv v dn) (Fin (inject_Z 1)))))
    (Fin 0).
Proof.
  intros -> Hv Hz Hn.
  destruct v as [y| |[|]]; try contradiction; cbn [Num.esame] in Hv.
  destruct dn as [z| |[|]]; try congruence.
  - cbn [Num.eeqb] in Hz; cbn [Num.ediv]; rewrite Hz.
    cbn [Num.esub Num.eadd Num.emul Num.esame].
    apply Qeq_bool_neq in Hz.
    change (inject_Z 1) with 1; rewrite Hv; field; exact Hz.
  - cbn [Num.ediv Num.esub Num.eadd Num.emul Num.esame].
    change (inject_Z 1) with 1; ring.
  - cbn [Num.ediv Num.esub Num.eadd Num.emul Num.esame].
    change (inject_Z 1) with 1; ring.
Qed.

(** The product of zero and a number is zero or not a number. *)
Lemma zero_times (l r : ext) :
  Num.esame l (Fin 0) ->
  Num.esame (Num.emul l r) (Fin 0) \/ Num.emul l r = NaN.
Proof.
  destruct l as [x| |[|]]; try contradiction; cbn [Num.esame]; intros H.
  destruct r as [y| |s]; cbn [Num.emul].
  - left; cbn [Num.esame]; rewrite H; ring.
  - right; reflexivity.
  - right. rewrite (@Qeq_bool_compat x 0 0 0 H (Qeq_refl 0)); reflexivity.
Qed.

(** X18.  A strategy that is wiped out keeps an index price of zero.  For
    a strategy that does not paper-trade and an update that returned: on
    a tick where the value comes to zero against a base (last value plus
    net flows) that is a number other than zero, the price, last a finite
    number, becomes zero; and once the price is zero, every update at a
    new date leaves it at zero (or not a number), whatever the value has
    become: the price is the last price times one plus the return. *)
Theorem zero_price_is_absorbing fuel rootnow d data f cs paper n' :
  StrategyBase._paper_trade f = false ->
  update fuel rootnow d data (Strat f cs paper) = Some (Ok n') ->
  (newpt d f = true ->
   node_value n' ≃ zero ->
   Num.isnan (StrategyBase._last_price (start d f)) = false ->
   no_inf (StrategyBase._last_price (start d f)) ->
   Num.isnan (StrategyBase._last_value (start d f)
              + StrategyBase._net_flows (start d f))%num = false ->
   Num.eqb (StrategyBase._last_value (start d f)
            + StrategyBase._net_flows (start d f))%num zero = false ->
   node_price n' ≃ zero)
  /\ (StrategyBase.now f <> 0%Z -> d <> StrategyBase.now f ->
      StrategyBase._price f ≃ zero ->
      node_price n' ≃ zero \/ Num.isnan (node_price n') = true).
Proof.
  intros Hpaper H; destruct fuel as [|fuel]; [discriminate|].
  cbn [update] in H.
  destruct (@update_strategy_commit _ _ _ _ _ _ _ _ Hpaper H)
    as (val & f2 & u & cs3 & Hcommit & ->).
  pose proof (@commit_ok _ _ _ _ _ Hcommit) as C.
  cbn [node_value node_price].
  change (StrategyBase._value (snapshot (set_universe u f2)))
    with (StrategyBase._value f2).
  change (StrategyBase._price (snapshot (set_universe u f2)))
    with (StrategyBase._price f2).
  split.
  - intros Hnp Hval Hlp Hfin Hden Hnz.
    unfold commits in C; rewrite Hnp in C; cbn [orb] in C.
    destruct C as (ret & Hret & ->).
    cbn [StrategyBase._price set_price StrategyBase._value set_value] in *.
    unfold period_return in Hret.
    cbn [StrategyBase._value set_value StrategyBase._last_value
         StrategyBase._net_flows] in Hret.
    change (StrategyBase._last_price (set_value d val (start d f)))
      with (StrategyBase._last_price (start d f)).
    destruct (Num.div val (StrategyBase._last_value (start d f)
                           + StrategyBase._net_flows (start d f))%num)
      as [x|] eqn:D.
    + inversion Hret; subst ret; clear Hret.
      apply div_valof in D.
      unfold Num.eqv; cbn [valof Num.mul Num.add Num.sub Int zero].
      rewrite D.
      unfold Num.isnan in Hlp.
      destruct (valof (StrategyBase._last_price (start d f)))
        as [l| |s] eqn:L; [|discriminate|exfalso; exact (Hfin _ L)].
      eapply wiped_price; [reflexivity|exact Hval|exact Hnz|].
      intros K; unfold Num.isnan in Hden; rewrite K in Hden; discriminate.
    + apply div_None_iff in D; destruct D as [_ D]; congruence.
  - intros Hnow Hd Hprice.
    assert (Hnp : newpt d f = true).
    { unfold newpt; apply Z.eqb_neq in Hd; rewrite Hd.
      apply orb_true_r. }
    assert (Hlast : StrategyBase._last_price (start d f) = StrategyBase._price f).
    { unfold start; cbn [StrategyBase._last_price].
      apply Z.eqb_neq in Hnow, Hd; rewrite Hnow, Hd; reflexivity. }
    unfold commits in C; rewrite Hnp in C; cbn [orb] in C.
    destruct C as (ret & _ & ->).
    cbn [StrategyBase._price set_price].
    change (StrategyBase._last_price (set_value d val (start d f)))
      with (StrategyBase._last_price (start d f)).
    rewrite Hlast.
    unfold Num.eqv, Num.isnan; cbn [valof Num.mul zero Int].
    destruct (@zero_times (valof (StrategyBase._price f))
                (valof (Int 1 + ret)%num) Hprice) as [Z|Z];
      [left; exact Z|right; rewrite Z; reflexivity].
Qed.

(** A childless root whose price has fallen to zero, with [50] in hand on
    the first date, is updated at the second. *)
Lemma zero_price_is_absorbing_witness :
  let f := Examples.account "root" 1%Z (Flt 0) (Int 50) (Int 50) (Int 0)
                            (Int 0) (Flt 0) false in
  let n' := Examples.do_update 2%Z (Strat f [] None) in
  node_value n' ≡ Int 50
  /\ (node_price n' ≃ zero \/ Num.isnan (node_price n') = true).
Proof.
  intros f n'; split; [by_compute|].
  assert (E : update 1 None 2%Z None (Strat f [] None) = Some (Ok n'))
    by (vm_compute; reflexivity).
  apply (proj2 (@zero_price_is_absorbing 1 None 2%Z None f [] None n'
                  eq_refl E)).
  - cbn; lia.
  - cbn; lia.
  - vm_compute; reflexivity.
Defined.

End WipedOut.

(** ** Whole positions *)

Section WholePositions.
Import SecurityBase.
Implicit Types (w : scope) (s : security).

Lemma whole_add (a b : num) : whole a -> whole b -> whole (a + b)%num.
Proof.
  intros (x & Hx) (y & Hy); exists (x + y)%Z.
  eapply eqv_trans; [exact (@add_eqv _ _ _ _ Hx Hy)|].
  unfold Num.eqv; cbn [valof Num.add Int Num.eadd Num.esame].
  rewrite inject_Z_plus; reflexivity.
Qed.

Lemma whole_neg (a : num) : whole a -> whole (- a)%num.
Proof.
  intros (x & Hx); exists (- x)%Z.
  unfold Num.eqv in *; cbn [valof Num.neg Int] in *.
  destruct (valof a) as [p| |[|]]; cbn [Num.eneg Num.esame] in *;
    try contradiction.
  rewrite inject_Z_opp, Hx; reflexivity.
Qed.

Lemma whole_Int z : whole (Int z).
Proof. exists z; apply eqv_refl. Qed.

(** The quantity of a trade is a whole number when the position is. *)
Lemma quantity_whole s amount q :
  whole (_position s) -> quantity s amount = inr q -> whole q.
Proof.
  intros Hpos; unfold quantity.
  destruct (Num.eqb amount (- _value s)%num).
  - intros E; inversion E; subst; apply whole_neg; exact Hpos.
  - destruct (Num.div amount (_price s * multiplier s)%num) as [x|];
      [|discriminate].
    unfold Num.floor, Num.ceil.
    destruct (Num.gtb (_position s) zero
              || Num.eqb (_position s) zero && Num.gtb amount zero)%bool;
      destruct (valof x) as [v| |[|]]; try discriminate;
      intros E; inversion E; subst; apply whole_Int.
Qed.

(** X19.  Positions stay whole.  If the position of a security is a whole
    number of shares, so it is after [allocate], whatever the amount, the
    price and the outcome: a trade is for the rounded quotient or, when
    closing out, for the position itself. *)
Theorem allocate_keeps_positions_whole amount upd w :
  whole (_position (self w)) ->
  whole (_position (self (state_of (allocate amount upd w)))).
Proof.
  intros Hpos; unfold allocate.
  destruct (sync_frame w) as (_ & _ & Fpos).
  destruct (sync w) as [w1|e w1]; cbn [state_of] in Fpos |- *;
    [|rewrite Fpos; exact Hpos].
  rewrite <- Fpos in Hpos; clear Fpos; unfold place.
  destruct (Num.eqb amount zero); [exact Hpos|].
  destruct (parent w1) as [p|]; [|exact Hpos].
  destruct (or_isnan (Num.eqb (_price (self w1)) zero) (_price (self w1)))
    as [[|]|]; try exact Hpos.
  destruct (quantity (self w1) amount) as [e|q] eqn:Hq; [exact Hpos|].
  destruct (or_isnan (Num.eqb q zero) q) as [[|]|]; try exact Hpos.
  cbn; apply whole_add; [exact Hpos|].
  eapply quantity_whole; eassumption.
Qed.

(** The ten shares of the examples, after an order for [-55]. *)
Lemma allocate_keeps_positions_whole_witness :
  whole (_position
           (self (state_of (allocate (Flt (-55)) true
                              (Examples.holding 1%Z StrategyBase._dflt_comm_fn))))).
Proof.
  apply (@allocate_keeps_positions_whole (Flt (-55)) true
           (Examples.holding 1%Z StrategyBase._dflt_comm_fn)).
  exists 10%Z; vm_compute; reflexivity.
Defined.

End WholePositions.

(** ** Net flows under [allocate] *)

Section AllocateFlows.
Import Allocate.





End AllocateFlows.

(** ** The constructor and the members *)

Section Constructor.
Import Node.

Lemma assoc_set_other {A} k k' (v : A) l :
  k <> k' -> assoc k' (assoc_set k v l) = assoc k' l.
Proof.
  intros N; induction l as [|[k0 x] rest IH]; simpl.
  - apply String.eqb_neq in N; rewrite N; reflexivity.
  - destruct (String.eqb k0 k) eqn:E; simpl.
    + apply String.eqb_eq in E; subst k0.
      apply String.eqb_neq in N; rewrite N; reflexivity.
    + destruct (String.eqb k0 k'); [reflexivity|exact IH].
Qed.

Lemma mem_key_assoc_set_iff {A} k k' (v : A) l :
  mem_key k' (assoc_set k v l) = true <-> k' = k \/ mem_key k' l = true.
Proof.
  destruct (String.eqb k k') eqn:E.
  - apply String.eqb_eq in E; subst k'.
    rewrite mem_key_assoc_set; tauto.
  - apply String.eqb_neq in E; unfold mem_key.
    rewrite (assoc_set_other v l E).
    split; [tauto|intros [H|H]; [congruence|exact H]].
Qed.

(** The loop of the constructor, from any point on. *)
Lemma collect_fields l : forall tmp ut has sc,
  let b := collect l tmp ut has sc in
  _strat_children b = (sc ++ strategy_names l)%list
  /\ _universe_tickers b = Only (ut ++ security_names l)
  /\ _has_strat_children b
     = (has || match strategy_names l with [] => false | _ => true end)%bool
  /\ (forall k, mem_key k (children b) = true
                <-> mem_key k tmp = true \/ In k (map arg_name l)).
Proof.
  induction l as [|x rest IH]; intros tmp ut has sc; cbn zeta.
  - cbn; rewrite !app_nil_r, orb_false_r; repeat split; tauto.
  - destruct x as [c|[f cs p|s]]; cbn [collect strategy_names security_names
                                       map arg_name node_name].
    + destruct (IH (assoc_set c (Sec (new_security c)) tmp) (ut ++ [c])%list has sc)
        as (H1 & H2 & H3 & H4).
      rewrite H1, H2, H3, <- app_assoc; repeat split; auto.
      * intros H; apply H4 in H; rewrite mem_key_assoc_set_iff in H.
        cbn [In]; intuition (subst; auto).
      * intros H; apply H4; rewrite mem_key_assoc_set_iff.
        cbn [In] in H; intuition (subst; auto).
    + destruct (IH (assoc_set (StrategyBase.name f) (Strat f cs p) tmp) ut true
                   (sc ++ [StrategyBase.name f])%list) as (H1 & H2 & H3 & H4).
      rewrite H1, H2, H3, <- app_assoc, orb_true_r; repeat split; auto.
      * intros H; apply H4 in H; rewrite mem_key_assoc_set_iff in H.
        cbn [In]; intuition (subst; auto).
      * intros H; apply H4; rewrite mem_key_assoc_set_iff.
        cbn [In] in H; intuition (subst; auto).
    + destruct (IH (assoc_set (SecurityBase.name s) (Sec s) tmp)
                   (ut ++ [SecurityBase.name s])%list has sc)
        as (H1 & H2 & H3 & H4).
      rewrite H1, H2, H3, <- app_assoc; repeat split; auto.
      * intros H; apply H4 in H; rewrite mem_key_assoc_set_iff in H.
        cbn [In]; intuition (subst; auto).
      * intros H; apply H4; rewrite mem_key_assoc_set_iff.
        cbn [In] in H; intuition (subst; auto).
Qed.

(** A name that stands for a strategy when the loop is entered, and that
    no later name or security of the list takes over, stands for a
    strategy when the loop is left. *)
Lemma collect_strategies l : forall tmp ut has sc,
  (forall c, In c (sc ++ strategy_names l)%list -> ~ In c (security_names l)) ->
  (forall c, In c sc ->
     exists f cs p, assoc c tmp = Some (Strat f cs p) /\ StrategyBase.name f = c) ->
  forall c, In c (_strat_children (collect l tmp ut has sc)) ->
    exists f cs p,
      assoc c (children (collect l tmp ut has sc)) = Some (Strat f cs p)
      /\ StrategyBase.name f = c.
Proof.
  induction l as [|x rest IH]; intros tmp ut has sc Hsep Hinv c Hin.
  - cbn in *; auto.
  - destruct x as [c0|[f0 cs0 p0|s0]]; cbn [collect] in *;
      cbn [strategy_names security_names arg_name node_name] in Hsep.
    + eapply IH; [| |exact Hin].
      * intros c1 H1 H2; apply (Hsep c1 H1); right; exact H2.
      * intros c1 H1; destruct (Hinv c1 H1) as (f & cs & p & A & N).
        exists f, cs, p; split; [|exact N].
        rewrite assoc_set_other; [exact A|].
        intros E; apply (Hsep c1); [|left; exact E].
        apply in_or_app; left; exact H1.
    + eapply IH; [| |exact Hin].
      * intros c1 H1; apply Hsep.
        rewrite <- app_assoc in H1; exact H1.
      * intros c1 H1; apply in_app_or in H1.
        destruct (String.eqb (StrategyBase.name f0) c1) eqn:E.
        -- apply String.eqb_eq in E; subst c1.
           exists f0, cs0, p0; rewrite assoc_assoc_set; auto.
        -- apply String.eqb_neq in E.
           destruct H1 as [H1|[H1|[]]]; [|contradiction].
           destruct (Hinv c1 H1) as (f & cs & p & A & N).
           exists f, cs, p; split; [|exact N].
           rewrite assoc_set_other; [exact A|exact E].
    + eapply IH; [| |exact Hin].
      * intros c1 H1 H2; apply (Hsep c1 H1); right; exact H2.
      * intros c1 H1; destruct (Hinv c1 H1) as (f & cs & p & A & N).
        exists f, cs, p; split; [|exact N].
        rewrite assoc_set_other; [exact A|].
        intros E; apply (Hsep c1); [|left; exact E].
        apply in_or_app; left; exact H1.
Qed.

(** X21.  What the constructor makes of a [children] list.  A list of
    names only (the empty list included) creates no child: the names are
    kept as the tickers of the universe.  A list that holds a node gives
    one child per distinct name, a new security for each bare name;
    [_strat_children] holds the names of the strategies in order,
    [_has_strat_children] tells whether there is one, and the tickers are
    the other names.  When no bare name or security of the list bears the
    name of a strategy of the list, each name in [_strat_children] is the
    key of a strategy of that name: the condition under which [update]
    writes the prices of the sub-strategies into the universe. *)
Theorem constructor_names_strategies (l : list child_arg) :
  let b := init_children (List l) in
  (forallb is_name l = true ->
   children b = [] /\ _universe_tickers b = Only (map arg_name l)
   /\ _has_strat_children b = false /\ _strat_children b = [])
  /\ (forallb is_name l = false ->
      _strat_children b = strategy_names l
      /\ _universe_tickers b = Only (security_names l)
      /\ _has_strat_children b
         = match strategy_names l with [] => false | _ => true end
      /\ (forall k, mem_key k (children b) = true <-> In k (map arg_name l))
      /\ ((forall c, In c (strategy_names l) -> ~ In c (security_names l)) ->
          (forall c, In c (_strat_children b) ->
             exists f cs p, assoc c (children b) = Some (Strat f cs p)
                            /\ StrategyBase.name f = c)
          /\ strategies_named (_strat_children b) (children b))).
Proof.
  cbn zeta; unfold init_children.
  destruct (forallb is_name l) eqn:A; split; try discriminate.
  - intros _; repeat split.
  - intros _.
    destruct (collect_fields l [] [] false []) as (H1 & H2 & H3 & H4).
    cbn [app orb] in H1, H2, H3.
    split; [exact H1|]. split; [exact H2|]. split; [exact H3|].
    split.
    + intros k; rewrite H4; cbn; intuition discriminate.
    + intros Hsep.
      assert (K : forall c, In c (_strat_children (collect l [] [] false [])) ->
                  exists f cs p,
                    assoc c (children (collect l [] [] false []))
                    = Some (Strat f cs p)
                    /\ StrategyBase.name f = c).
      { apply collect_strategies; [exact Hsep|intros c []]. }
      split; [exact K|].
      intros c Hin; destruct (K c Hin) as (f & cs & p & E & _).
      rewrite E; exact I.
Qed.

End Constructor.

Section Members.
Import Node.

(** A list with a strategy and a bare name that share a name: the name in
    [_strat_children] is then the key of a security. *)
Lemma name_clash_breaks_strategy_names :
  let sub := Strat (Examples.account "x" 0%Z (Int 100) (Int 0) (Int 0) (Int 0)
                                     (Int 0) (Int 100) false) [] None in
  let b := init_children (List [Given sub; Name "x"]) in
  _strat_children b = ["x"%string]
  /\ assoc "x" (children b) = Some (Sec (new_security "x"))
  /\ ~ strategies_named (_strat_children b) (children b).
Proof.
  intros sub b; split; [reflexivity|]. split; [reflexivity|].
  intros W; exact (W "x"%string (or_introl eq_refl)).
Qed.

Lemma members_strat f cs p :
  members (Strat f cs p) = Strat f cs p :: members_children cs.
Proof.
  assert (E : forall l,
             (fix go (l : children_t) : list node :=
                match l with
                | [] => []
                | (_, c) :: rest => (members c ++ go rest)%list
                end) l = members_children l).
  { induction l as [|[k c] rest IH]; [reflexivity|].
    cbn [members_children]; rewrite <- IH; reflexivity. }
  cbn [members]; rewrite E; reflexivity.
Qed.

Lemma members_children_in cs c :
  In c (members_children cs)
  <-> exists k child, In (k, child) cs /\ In c (members child).
Proof.
  induction cs as [|[k0 c0] rest IH]; cbn [members_children In].
  - split; [tauto|intros (k & child & [] & _)].
  - rewrite in_app_iff, IH; split.
    + intros [H|(k & child & H1 & H2)]; [exists k0, c0; auto|].
      exists k, child; auto.
    + intros (k & child & [E|H1] & H2).
      * inversion E; subst; left; exact H2.
      * right; exists k, child; auto.
Qed.

Lemma assoc_in {A} k (v : A) l : assoc k l = Some v -> In (k, v) l.
Proof.
  induction l as [|[k' x] rest IH]; simpl; [discriminate|].
  destruct (String.eqb k' k) eqn:E.
  - apply String.eqb_eq in E; subst; intros H; inversion H; auto.
  - auto.
Qed.

(** X22.  The members of a node are the node itself, first, and below it
    the members of each child in turn: a security has itself for only
    member, every node that a chain of child names leads to from the node
    is a member, and every member other than the node is a member of one
    of its children. *)
Theorem members_are_descendants (n : node) :
  hd_error (members n) = Some n
  /\ (forall s, n = Sec s -> members n = [n])
  /\ (forall p c, get p n = Some c -> In c (members n))
  /\ (forall c, In c (members n) ->
        c = n \/ exists k child, In (k, child) (node_children n)
                                 /\ In c (members child)).
Proof.
  split; [destruct n; reflexivity|].
  split; [intros s ->; reflexivity|].
  split.
  - intros p; revert n; induction p as [|k p IH]; intros n c G.
    + inversion G; subst; destruct c; left; reflexivity.
    + cbn [get] in G.
      destruct (assoc k (node_children n)) as [c0|] eqn:A; [|discriminate].
      destruct n as [f cs pp|s]; [|discriminate].
      rewrite members_strat; right.
      apply members_children_in; exists k, c0; split.
      * apply assoc_in; exact A.
      * apply IH; exact G.
  - intros c H; destruct n as [f cs pp|s].
    + rewrite members_strat in H; destruct H as [H|H]; [left; auto|right].
      apply members_children_in; exact H.
    + destruct H as [H|[]]; left; auto.
Qed.

End Members.

(** ** Rebalancing to the weight a child has *)

Section RebalanceNoop.

Lemma put_same p : forall n r, get p r = Some n -> put p n r = r.
Proof.
  induction p as [|k p IH]; intros n r G; cbn [get put] in *.
  - inversion G; reflexivity.
  - destruct r as [f cs paper|s]; cbn [node_children] in G; [|discriminate].
    destruct (assoc k cs) as [c|] eqn:A; [|discriminate].
    rewrite (IH _ _ G), (assoc_set_same _ _ A); reflexivity.
Qed.

(** X23.  Rebalancing a child to the weight it has places no order.  On
    a tree that is not stale, for a security that is in step with its
    parent, [rebalance(weight, child, base)] with a weight equal to the
    cached weight of the child (and not zero) and a base that is a number
    returns and leaves the whole tree exactly as it was: nothing is
    traded, no capital moves, and the tree does not become stale. *)
Theorem rebalance_to_current_weight p child w f cs paper s wgt base upd
        (isn : bool) (x b : Q) :
  stale w = false ->
  get p (root w) = Some (Strat f cs paper) ->
  assoc child cs = Some (Sec s) ->
  SecurityBase.now s = StrategyBase.now f ->
  Num.eqb (SecurityBase._last_pos s) (SecurityBase._position s) = true ->
  valof wgt = Fin x ->
  Num.eqb wgt zero = false ->
  Num.eqb wgt (SecurityBase._weight s) = true ->
  Num.np_isnan base = Some isn ->
  valof (if isn then StrategyBase._value f else base) = Fin b ->
  Tree.rebalance p wgt child base upd w = (inr tt, w).
Proof.
  intros S G A Hnow Hlast Hx Hnz Hw Hn Hb.
  assert (G2 : get (p ++ [child]) (root w) = Some (Sec s))
    by (eapply get_snoc; [exact G|exact A]).
  unfold Tree.rebalance, mbind at 1; unfold Tree.node_at at 1.
  rewrite G, Hnz, Hn.
  assert (B : (if isn then Tree.value p else ret base) w
              = (inr (if isn then StrategyBase._value f else base), w)).
  { destruct isn.
    - unfold Tree.value, mbind, Tree.node_at, ret.
      rewrite (@refresh_fresh w S), G; reflexivity.
    - reflexivity. }
  unfold mbind at 1.
  replace (match (if isn then Some true else Some false) with
           | Some true => Tree.value p
           | Some false => ret base
           | None => throw TypeError
           end) with (if isn then Tree.value p else ret base)
    by (destruct isn; reflexivity).
  destruct isn; rewrite B;
  (unfold mbind at 1, Tree.ensure_child; rewrite G;
   unfold mem_key; rewrite A;
   unfold mbind at 1, Tree.weight, mbind, Tree.node_at, ret;
   rewrite (@refresh_fresh w S), G2; cbn [node_weight];
   rewrite (@allocate_node_child p child _ true w f cs paper (Sec s) G A);
   cbn [Allocate.allocate]; unfold Allocate.allocate_sec, SecurityBase.allocate;
   assert (Hsync : SecurityBase.sync
                     {| SecurityBase.parent := Some f;
                        SecurityBase.stale := stale w;
                        SecurityBase.self := s |}
                   = Ok {| SecurityBase.parent := Some f;
                           SecurityBase.stale := stale w;
                           SecurityBase.self := s |});
   [ unfold SecurityBase.sync, SecurityBase.parent_now;
     cbn [SecurityBase.parent SecurityBase.self];
     rewrite Hnow, Z.eqb_refl; cbn [negb];
     destruct (SecurityBase._needupdate s); cbn [orb]; [|reflexivity];
     unfold SecurityBase.update; rewrite <- Hnow, Z.eqb_refl, Hlast;
     reflexivity
   | rewrite Hsync; unfold SecurityBase.place;
     match goal with
     | |- context [Num.eqb ((wgt - SecurityBase._weight s) * ?base)%num zero] =>
         assert (Hzero : Num.eqb ((wgt - SecurityBase._weight s) * base)%num
                                 zero = true)
     end;
     [ unfold Num.eqb in *; cbn [valof Num.mul Num.sub zero Int] in *;
       rewrite Hb; rewrite Hx in *;
       destruct (valof (SecurityBase._weight s)) as [y| |[|]];
       cbn [Num.eeqb Num.esub Num.emul] in *; try discriminate;
       apply Qeq_bool_iff in Hw; apply Qeq_bool_iff;
       change (inject_Z 0) with 0; rewrite Hw; ring
     | rewrite Hzero;
       cbn [SecurityBase.parent SecurityBase.stale SecurityBase.self];
       rewrite (assoc_set_same _ _ A), (@put_same p _ _ G);
       destruct w; reflexivity ] ]).
Qed.

(** The fund of the examples: "A" keeps its weight of one eleventh. *)
Lemma rebalance_to_current_weight_witness :
  let w := {| root := Examples.fund; stale := false |} in
  Tree.rebalance [] (Flt (1 # 11)) "A" nan true w = (inr tt, w).
Proof.
  intros w.
  apply (@rebalance_to_current_weight [] "A"%string w
           (Examples.desk 1%Z StrategyBase._dflt_comm_fn)
           [("A"%string, Sec Examples.held); ("B"%string, Sec Examples.idle)]
           None Examples.held (Flt (1 # 11)) nan true true (1 # 11) 1100);
    reflexivity.
Defined.

End RebalanceNoop.

(** ** The shape of the tree under an update *)

Section UpdateShape.
Import Tick Update.

Lemma same_paths_refl c : same_paths c c.
Proof. intros q; destruct (get q c); auto. Qed.

Lemma same_paths_trans a b c :
  same_paths a b -> same_paths b c -> same_paths a c.
Proof.
  intros H1 H2 q; specialize (H1 q); specialize (H2 q).
  destruct (get q a), (get q b), (get q c); try contradiction; auto.
  congruence.
Qed.

Lemma same_paths_weight w c : same_paths c (set_node_weight w c).
Proof.
  intros [|k q]; destruct c as [f cs p|s]; cbn; auto.
  destruct (assoc k cs) as [c0|]; auto.
  destruct (get q c0); auto.
Qed.

Lemma same_paths_price rn c : same_paths c (state_of (child_price rn c)).
Proof.
  destruct c as [f cs p|s]; [apply same_paths_refl|].
  unfold child_price; destruct (SecurityBase._needupdate s);
    [|apply same_paths_refl].
  destruct (SecurityBase.update rn None s) as [s'|e s'];
    intros [|k q]; cbn; auto.
Qed.

Lemma children_rel_assoc (R : node -> node -> Prop) cs cs' k :
  children_rel R cs cs' ->
  match assoc k cs, assoc k cs' with
  | Some c, Some c' => R c c'
  | None, None => True
  | _, _ => False
  end.
Proof.
  induction 1 as [|[k0 c0] [k1 c1] l l' (K & Hr) _ IH]; cbn [assoc]; auto.
  cbn [fst snd] in K, Hr; subst k1.
  destruct (String.eqb k0 k); [exact Hr|exact IH].
Qed.

Lemma same_paths_strat f cs paper f' cs' paper' :
  children_rel same_paths cs cs' ->
  same_paths (Strat f cs paper) (Strat f' cs' paper').
Proof.
  intros H [|k q]; cbn [get node_children]; [reflexivity|].
  pose proof (@children_rel_assoc same_paths cs cs' k H) as A.
  destruct (assoc k cs) as [c|], (assoc k cs') as [c'|]; try contradiction; auto.
  apply A.
Qed.

(** The shape is kept, path by path. *)
Lemma update_keeps_shape_paths fuel rootnow d data n o :
  update fuel rootnow d data n = Some o ->
  forall q, match get q n, get q (state_of o) with
            | Some x, Some x' => is_sec x' = is_sec x
            | None, None => True
            | _, _ => False
            end.
Proof.
  revert rootnow d data n o.
  assert (S0 : forall d data s o,
             match SecurityBase.update d data s with
             | Ok s' => Some (Ok (Sec s'))
             | Raise e s' => Some (Raise e (Sec s'))
             end = Some o -> same_paths (Sec s) (state_of o)).
  { intros d data s o.
    destruct (SecurityBase.update d data s) as [s'|e s'];
      intros H; inversion H; intros [|k q]; cbn; auto. }
  induction fuel as [|fuel IH]; intros rootnow d data n o.
  - destruct n as [f cs paper|s]; [discriminate|apply S0].
  - destruct n as [f cs paper|s]; [|apply S0].
    cbn [update]; intros H.
    destruct (@update_strategy_rel same_paths
                same_paths_refl same_paths_trans
                (fun w c _ => same_paths_weight w c)
                same_paths_price
                _ (fun c o' _ E => IH _ _ _ _ _ E)
                _ _ _ _ _ _ _ H)
      as (f' & cs' & paper' & -> & _ & _ & Hrel).
    apply same_paths_strat; exact Hrel.
Qed.

(** X24.  An update keeps the shape of the tree.  Whether it returns or
    raises, it neither adds nor removes a node and changes the kind of
    none: a chain of child names leads to a node after the update exactly
    when it did before, and to a strategy or a security as before. *)
Theorem update_keeps_shape fuel rootnow d data n o :
  update fuel rootnow d data n = Some o ->
  forall q : path,
    (forall x, get q n = Some x ->
       exists x', get q (state_of o) = Some x' /\ is_sec x' = is_sec x)
    /\ (forall x', get q (state_of o) = Some x' ->
          exists x, get q n = Some x /\ is_sec x' = is_sec x).
Proof.
  intros H q; pose proof (@update_keeps_shape_paths fuel rootnow d data n o H q) as K.
  destruct (get q n) as [x|], (get q (state_of o)) as [x'|]; try contradiction.
  - split; intros y E; inversion E; subst; eauto.
  - split; intros y E; discriminate.
Qed.

(** Writing a node of the same kind, with the same children below, keeps
    the shape. *)
Lemma put_same_paths p : forall n n' r,
  get p r = Some n -> same_paths n n' -> same_paths r (put p n' r).
Proof.
  induction p as [|k p IH]; intros n n' r G H; cbn [get put] in *.
  - inversion G; subst; exact H.
  - destruct r as [f cs paper|s]; cbn [node_children] in G; [|discriminate].
    destruct (assoc k cs) as [c|] eqn:A; [|discriminate].
    apply same_paths_strat.
    eapply children_rel_assoc_set;
      [apply same_paths_refl|exact A|eapply IH; eassumption].
Qed.

(** The fund of the examples, updated at the third date. *)
Lemma update_keeps_shape_witness :
  (forall x, get ["A"%string] Examples.fund = Some x ->
     exists x', get ["A"%string] (Examples.do_update 3%Z Examples.fund) = Some x'
                /\ is_sec x' = is_sec x)
  /\ (forall x', get ["A"%string] (Examples.do_update 3%Z Examples.fund) = Some x' ->
        exists x, get ["A"%string] Examples.fund = Some x /\ is_sec x' = is_sec x).
Proof.
  apply (@update_keeps_shape 1 None 3%Z None Examples.fund
           (Ok (Examples.do_update 3%Z Examples.fund))).
  vm_compute; reflexivity.
Defined.

End UpdateShape.

(** ** A child that is missing *)

Section MissingChild.

Lemma get_app_one p k : forall r n,
  get p r = Some n -> get (p ++ [k]) r = assoc k (node_children n).
Proof.
  induction p as [|k' p IH]; intros r n G; cbn [get app] in *.
  - inversion G; subst; destruct (assoc k (node_children n)); reflexivity.
  - destruct (assoc k' (node_children r)) as [c0|]; [|discriminate].
    apply IH; exact G.
Qed.

Lemma get_prefix p k : forall r c,
  get (p ++ [k]) r = Some c -> exists n, get p r = Some n.
Proof.
  induction p as [|k' p IH]; intros r c G; cbn [get app] in *; [eauto|].
  destruct (assoc k' (node_children r)) as [c0|]; [|discriminate].
  eapply IH; exact G.
Qed.

(** To have the child is to have a node at the path of the child. *)
Lemma has_child_get p child w :
  has_child p child w <-> exists c, get (p ++ [child]) (root w) = Some c.
Proof.
  unfold has_child, mem_key; split.
  - intros (n & G & M); rewrite (@get_app_one p child _ n G).
    destruct (assoc child (node_children n)) as [c|]; [eauto|discriminate].
  - intros (c & G); destruct (get_prefix _ _ _ G) as (n & Gn).
    exists n; split; [exact Gn|].
    rewrite (@get_app_one p child _ n Gn) in G; rewrite G; reflexivity.
Qed.

(** The update of the root that a read runs keeps the nodes where they
    are. *)
Lemma refresh_paths w q :
  match get q (root w), get q (root (snd (Tree.refresh w))) with
  | Some x, Some x' => is_sec x' = is_sec x
  | None, None => True
  | _, _ => False
  end.
Proof.
  unfold Tree.refresh; destruct (stale w).
  - unfold Tree.update_root.
    destruct (Update.update _ None _ None (root w)) as [o|] eqn:U.
    + pose proof (@update_keeps_shape_paths _ _ _ _ _ _ U q) as K.
      destruct o as [n|e n]; exact K.
    + cbn [snd root]; destruct (get q (root w)); auto.
  - cbn [snd]; destruct (get q (root w)); auto.
Qed.

Lemma has_child_refresh p child w :
  has_child p child w -> has_child p child (snd (Tree.refresh w)).
Proof.
  rewrite !has_child_get; intros (c & G).
  pose proof (refresh_paths w (p ++ [child])) as K; rewrite G in K.
  destruct (get (p ++ [child]) (root (snd (Tree.refresh w)))) as [c'|];
    [eauto|contradiction].
Qed.

(** The strategy at a path is a strategy after the read, and lacks the
    children it lacked. *)
Lemma missing_refresh p child w f cs paper :
  get p (root w) = Some (Strat f cs paper) ->
  assoc child cs = None ->
  exists f1 cs1 paper1,
    get p (root (snd (Tree.refresh w))) = Some (Strat f1 cs1 paper1)
    /\ assoc child cs1 = None.
Proof.
  intros G A.
  pose proof (refresh_paths w p) as K; rewrite G in K.
  destruct (get p (root (snd (Tree.refresh w)))) as [[f1 cs1 paper1|s1]|] eqn:G1;
    try contradiction; [|discriminate K].
  exists f1, cs1, paper1; split; [reflexivity|].
  pose proof (refresh_paths w (p ++ [child])) as K2.
  rewrite (@get_app_one p child _ _ G), (@get_app_one p child _ _ G1) in K2.
  cbn [node_children] in K2; rewrite A in K2.
  destruct (assoc child cs1); [contradiction|reflexivity].
Qed.

(** A child that is there stays under an allocation to it. *)
Lemma has_child_allocate p child amount upd w :
  has_child p child w ->
  has_child p child (snd (Tree.allocate_node (p ++ [child]) amount upd w)).
Proof.
  intros (n & G & M).
  destruct n as [f cs paper|s]; [|discriminate M].
  cbn [node_children] in M; unfold mem_key in M.
  destruct (assoc child cs) as [c|] eqn:A; [|discriminate].
  eapply allocate_node_child_stays; [exact G|exact A].
Qed.

(** The end of [rebalance]: the weight of the child is read and the
    child is allocated to. *)
Lemma has_child_rebalanced p child (amount : num -> num) w :
  has_child p child w ->
  has_child p child
    (snd ((cw <- Tree.weight (p ++ [child]) ;;
           Tree.allocate_node (p ++ [child]) (amount cw) true) w)).
Proof.
  intros H; unfold mbind at 1, Tree.weight, mbind at 1.
  pose proof (has_child_refresh H) as H1.
  destruct (Tree.refresh w) as [[e|[]] w1]; cbn [snd] in H1 |- *; [exact H1|].
  unfold mbind, Tree.node_at, ret.
  destruct (get (p ++ [child]) (root w1)) as [c|]; [|exact H1].
  apply has_child_allocate; exact H1.
Qed.

Lemma mbind_run {A B} (m : M A) (k : A -> M B) w :
  mbind m k w = match m w with
                | (inr a, w') => k a w'
                | (inl e, w') => (inl e, w')
                end.
Proof. reflexivity. Qed.

Lemma value_run p w :
  Tree.value p w
  = match Tree.refresh w with
    | (inr _, w1) =>
        match get p (root w1) with
        | Some n => (inr (node_value n), w1)
        | None => (inl AttributeError, w1)
        end
    | (inl e, w1) => (inl e, w1)
    end.
Proof.
  unfold Tree.value, mbind, Tree.node_at, ret.
  destruct (Tree.refresh w) as [[e|u] w1]; [reflexivity|].
  destruct (get p (root w1)); reflexivity.
Qed.

(** What [ensure_child] does for a child that is missing. *)
Lemma ensure_child_created p child w f cs paper :
  get p (root w) = Some (Strat f cs paper) ->
  assoc child cs = None ->
  match SecurityBase.update (StrategyBase.now f) None
          (SecurityBase.init_setup child (Int 1) (StrategyBase._universe f))
  with
  | Ok _ =>
      exists w2, Tree.ensure_child p child w = (inr tt, w2)
                 /\ has_child p child w2
  | Raise e _ => Tree.ensure_child p child w = (inl e, w)
  end.
Proof.
  intros G A; unfold Tree.ensure_child; rewrite G, (@mem_key_false _ child cs A).
  destruct (SecurityBase.update _ None _) as [c'|e c']; [|reflexivity].
  eexists; split; [reflexivity|].
  destruct (@added_child p child w f cs paper c' G) as (G1 & A1 & _).
  eexists; split; [exact G1|].
  cbn [node_children]; unfold mem_key; rewrite A1; reflexivity.
Qed.

(** C9.  On a strategy whose children do not contain the name, [close]
    raises [KeyError] and leaves the whole tree, stale flag included, as
    it was; [rebalance] with a weight equal to zero returns without an
    error and without a change.  [allocate(amount, child)] and
    [rebalance] with a nonzero weight do create the child: the new
    security is updated at the date of the strategy and, unless that
    update raises, the strategy has the child when the call is over,
    whatever the call does next.  [rebalance] first reads the value of
    the strategy when the base is not a number, which updates a stale
    tree and can raise; it raises [TypeError] when numpy cannot tell
    whether the base is a number. *)
Theorem close_missing_child p child w f cs paper :
  get p (root w) = Some (Strat f cs paper) ->
  assoc child cs = None ->
  Tree.close p child w = (inl KeyError, w)
  /\ (forall wgt base upd,
        Num.eqb wgt zero = true ->
        Tree.rebalance p wgt child base upd w = (inr tt, w))
  /\ (forall amount upd,
        created p child w (Tree.allocate p amount (Some child) upd w))
  /\ (forall wgt base upd,
        Num.eqb wgt zero = false ->
        match Num.np_isnan base with
        | None => Tree.rebalance p wgt child base upd w = (inl TypeError, w)
        | Some isn =>
            let r := if isn then Tree.refresh w else (inr tt, w) in
            match fst r with
            | inl e => Tree.rebalance p wgt child base upd w = (inl e, snd r)
            | inr _ =>
                created p child (snd r) (Tree.rebalance p wgt child base upd w)
            end
        end).
Proof.
  intros G A; split; [|split; [|split]].
  - unfold Tree.close, mbind, Tree.node_at; rewrite G; simpl; rewrite A.
    reflexivity.
  - intros wgt base upd Hw.
    unfold Tree.rebalance, mbind, Tree.node_at; rewrite G, Hw; simpl.
    rewrite (@mem_key_false _ child cs A); reflexivity.
  - intros amount upd; unfold created; rewrite G.
    pose proof (@ensure_child_created p child w f cs paper G A) as E.
    unfold Tree.allocate, mbind.
    destruct (SecurityBase.update _ None _) as [c'|e c'].
    + destruct E as (w2 & -> & H2).
      apply has_child_allocate; exact H2.
    + rewrite E; reflexivity.
  - intros wgt base upd Hw.
    assert (R : Tree.rebalance p wgt child base upd w
                = (b <- match Num.np_isnan base with
                        | None => throw TypeError
                        | Some true => Tree.value p
                        | Some false => ret base
                        end ;;
                   Tree.ensure_child p child ;;;
                   cw <- Tree.weight (p ++ [child]) ;;
                   Tree.allocate_node (p ++ [child]) ((wgt - cw) * b)%num true) w).
    { unfold Tree.rebalance, mbind at 1, Tree.node_at; rewrite G, Hw.
      reflexivity. }
    rewrite R; clear R.
    destruct (Num.np_isnan base) as [[|]|]; cbv zeta.
    + (* the base is read from the value of the strategy *)
      rewrite mbind_run, value_run.
      destruct (@missing_refresh p child w f cs paper G A)
        as (f1 & cs1 & paper1 & G1 & A1).
      destruct (Tree.refresh w) as [[e|[]] w1]; cbn [fst snd] in *;
        [reflexivity|].
      rewrite G1; unfold created; rewrite G1.
      pose proof (@ensure_child_created p child w1 f1 cs1 paper1 G1 A1) as E.
      rewrite mbind_run.
      destruct (SecurityBase.update _ None _) as [c'|e c'].
      * destruct E as (w2 & -> & H2).
        apply (@has_child_rebalanced p child
                 (fun cw => ((wgt - cw) * node_value (Strat f1 cs1 paper1))%num));
          exact H2.
      * rewrite E; reflexivity.
    + cbn [fst snd]; rewrite mbind_run; unfold ret.
      unfold created; rewrite G.
      pose proof (@ensure_child_created p child w f cs paper G A) as E.
      rewrite mbind_run.
      destruct (SecurityBase.update _ None _) as [c'|e c'].
      * destruct E as (w2 & -> & H2).
        apply (@has_child_rebalanced p child
                 (fun cw => ((wgt - cw) * base)%num)); exact H2.
      * rewrite E; reflexivity.
    + reflexivity.
Qed.

End MissingChild.

Section MissingChildExample.

(** The desk of the examples alone in its tree, with no child "A". *)
Lemma close_missing_child_witness :
  let w := {| root := Strat (Examples.desk 1%Z StrategyBase._dflt_comm_fn) [] None;
              stale := false |} in
  Tree.close [] "A" w = (inl KeyError, w)
  /\ (forall wgt base upd,
        Num.eqb wgt zero = true ->
        Tree.rebalance [] wgt "A" base upd w = (inr tt, w))
  /\ (forall amount upd,
        created [] "A" w (Tree.allocate [] amount (Some "A"%string) upd w))
  /\ (forall wgt base upd,
        Num.eqb wgt zero = false ->
        match Num.np_isnan base with
        | None => Tree.rebalance [] wgt "A" base upd w = (inl TypeError, w)
        | Some isn =>
            let r := if isn then Tree.refresh w else (inr tt, w) in
            match fst r with
            | inl e => Tree.rebalance [] wgt "A" base upd w = (inl e, snd r)
            | inr _ =>
                created [] "A" (snd r) (Tree.rebalance [] wgt "A" base upd w)
            end
        end).
Proof.
  intros w.
  apply (@close_missing_child [] "A" w
           (Examples.desk 1%Z StrategyBase._dflt_comm_fn) [] None);
    reflexivity.
Defined.

(** On that tree, allocating [50] to "A" buys five shares at [10] of a
    security that was not there; so does rebalancing "A" to a weight of
    a twentieth of the value, read from a tree that an adjustment has
    left stale. *)
Example allocate_creates_child :
  let w := {| root := Strat (Examples.desk 1%Z StrategyBase._dflt_comm_fn) [] None;
              stale := false |} in
  (exists w' s,
     Tree.allocate [] (Flt 50) (Some "A"%string) true w = (inr tt, w')
     /\ get ["A"%string] (root w') = Some (Sec s)
     /\ SecurityBase._position s ≡ Int 5
     /\ stale w' = true)
  /\ (exists w' s,
        Tree.rebalance [] (Flt (1 # 20)) "A" nan true
          {| root := root w; stale := true |} = (inr tt, w')
        /\ get ["A"%string] (root w') = Some (Sec s)
        /\ SecurityBase._position s ≡ Int 5).
Proof.
  split.
  - eexists; eexists.
    split; [vm_compute; reflexivity|].
    split; [reflexivity|].
    split; [by_compute|reflexivity].
  - eexists; eexists.
    split; [vm_compute; reflexivity|].
    split; [reflexivity|by_compute].
Qed.

End MissingChildExample.

(** ** Reading a price *)

Section PriceReads.

Lemma assoc_set_ledger k c c' cs :
  assoc k cs = Some c -> ledger c' = ledger c ->
  ledger_children (assoc_set k c' cs) = ledger_children cs.
Proof.
  induction cs as [|[k0 x] rest IH]; cbn [assoc assoc_set]; [discriminate|].
  destruct (String.eqb k0 k).
  - intros E L; inversion E; subst; cbn [ledger_children]; rewrite L; reflexivity.
  - intros E L; cbn [ledger_children]; rewrite (IH E L); reflexivity.
Qed.

Lemma put_ledger p : forall n n' r,
  get p r = Some n -> ledger n' = ledger n -> ledger (put p n' r) = ledger r.
Proof.
  induction p as [|k p IH]; intros n n' r G L; cbn [get put] in *.
  - inversion G; subst; exact L.
  - destruct r as [f cs paper|s]; cbn [node_children] in G; [|discriminate].
    destruct (assoc k cs) as [c|] eqn:A; [|discriminate].
    rewrite !ledger_strat; f_equal.
    apply (@assoc_set_ledger k c _ cs A); eapply IH; eassumption.
Qed.

(** X25.  Reading the price of a strategy.  On a tree that is not stale
    the read returns the cached price and changes nothing.  On a stale
    tree the root is updated at the date of the strategy that is read,
    not at its own: afterwards the root is at that date and no longer
    stale, and the read returns the price of the strategy after the
    update, or raises what the update raised. *)
Theorem strategy_price_read p w f cs paper :
  get p (root w) = Some (Strat f cs paper) ->
  (stale w = false ->
   Reads.strategy_price p w = (inr (StrategyBase._price f), w))
  /\ (stale w = true ->
      exists o,
        Update.update (S (depth (root w))) None (StrategyBase.now f) None (root w)
        = Some o
        /\ snd (Reads.strategy_price p w)
           = {| root := state_of o; stale := false |}
        /\ node_now (state_of o) = StrategyBase.now f
        /\ match o with
           | Ok n' =>
               exists f' cs' paper',
                 get p n' = Some (Strat f' cs' paper')
                 /\ fst (Reads.strategy_price p w) = inr (StrategyBase._price f')
           | Raise e _ => fst (Reads.strategy_price p w) = inl e
           end).
Proof.
  intros G; split; intros Hst; unfold Reads.strategy_price; rewrite G, Hst.
  - rewrite G; reflexivity.
  - destruct (@update_fits (S (depth (root w))) None (StrategyBase.now f) None
                (root w)) as (o & E); [lia|].
    exists o; split; [exact E|].
    unfold Tree.update_root; rewrite E.
    pose proof (@update_now _ _ _ _ _ _ E) as N.
    pose proof (@update_keeps_shape_paths _ _ _ _ _ _ E p) as K.
    rewrite G in K.
    destruct o as [n'|e n']; cbn [state_of root fst snd] in *.
    + destruct (get p n') as [x|] eqn:G'; [|contradiction].
      cbn [fst snd]; split; [reflexivity|]. split; [exact N|].
      destruct x as [f' cs' paper'|s']; [|discriminate].
      exists f', cs', paper'; split; reflexivity.
    + split; [reflexivity|]. split; [exact N|reflexivity].
Qed.

(** The fund of the examples, read while the tree is not stale. *)
Lemma strategy_price_read_witness :
  let w := {| root := Examples.fund; stale := false |} in
  Reads.strategy_price [] w
  = (inr (StrategyBase._price (Examples.desk 1%Z StrategyBase._dflt_comm_fn)), w).
Proof.
  intros w.
  apply (proj1 (@strategy_price_read [] w
                  (Examples.desk 1%Z StrategyBase._dflt_comm_fn)
                  [("A"%string, Sec Examples.held); ("B"%string, Sec Examples.idle)]
                  None eq_refl)).
  reflexivity.
Defined.

(** X26.  Reading the price of a security never updates the root: the
    stale flag is neither cleared nor set, and no capital and no position
    changes; at most the security itself is brought to the date of the
    root.  A dormant security is not even that: the read returns its
    cached price and changes nothing, however stale the tree and
    whatever the date of the root. *)
Theorem security_price_read p w s :
  get p (root w) = Some (Sec s) ->
  stale (snd (Reads.security_price p w)) = stale w
  /\ ledger (root (snd (Reads.security_price p w))) = ledger (root w)
  /\ same_paths (root w) (root (snd (Reads.security_price p w)))
  /\ (SecurityBase._needupdate s = false ->
      Reads.security_price p w = (inr (SecurityBase._price s), w)).
Proof.
  intros G; unfold Reads.security_price; rewrite G.
  destruct (SecurityBase._needupdate s) eqn:N.
  - pose proof (update_position (node_now (root w)) None s) as P.
    destruct (SecurityBase.update (node_now (root w)) None s) as [s'|e s'];
      cbn [state_of snd root stale] in *;
      (split; [reflexivity|]);
      (split; [apply (@put_ledger p (Sec s)); [exact G|cbn; rewrite P; reflexivity]|]);
      (split; [apply put_same_paths with (n := Sec s);
                 [exact G|intros [|k q]; cbn; auto]
              |discriminate]).
  - cbn [snd]; split; [reflexivity|]. split; [reflexivity|].
    split; [apply same_paths_refl|reflexivity].
Qed.

(** The dormant security "B" of the fund, read while the tree is stale. *)
Lemma security_price_read_witness :
  let w := {| root := Examples.fund; stale := true |} in
  Reads.security_price ["B"%string] w = (inr (Flt 7), w).
Proof.
  intros w.
  apply (proj2 (proj2 (proj2 (@security_price_read ["B"%string] w Examples.idle
                                eq_refl)))).
  reflexivity.
Defined.

End PriceReads.

(** ** The value of a strategy across a trade *)

Section TradeValue.
Import Tick Update.

Variable upd : node -> option (outcome node).



End TradeValue.

Section TradeThenUpdate.
Import Tick Update.





End TradeThenUpdate.

(** ** Updating twice *)

Section UpdateTwice.
Import Tick Update.

(** A security that an update at a date has returned is left as it is by
    another update at that date, whatever weight it was given since. *)
Lemma security_update_settled d data s s' :
  SecurityBase.update d data s = Ok s' ->
  forall w data',
    SecurityBase.update d data' (SecurityBase.set_weight w s')
    = Ok (SecurityBase.set_weight w s').
Proof.
  intros E w data'.
  destruct (@update_ok_shape _ _ _ _ E)
    as [(-> & N & C)|(s2 & -> & N & _)].
  - unfold SecurityBase.update.
    cbn [SecurityBase.set_weight SecurityBase.now SecurityBase._last_pos
         SecurityBase._position].
    rewrite C; reflexivity.
  - unfold SecurityBase.update.
    cbn [SecurityBase.set_weight SecurityBase.revalue SecurityBase.now
         SecurityBase._last_pos SecurityBase._position].
    rewrite N, Z.eqb_refl; cbn [andb negb].
    destruct (Num.eqb (SecurityBase._position s2) (SecurityBase._position s2))
      eqn:P; [reflexivity|].
    assert (Z : Num.eqb (SecurityBase._position s2) zero = false).
    { unfold Num.eqb in *.
      destruct (valof (SecurityBase._position s2)) as [x| |[|]];
        cbn [Num.eeqb] in *; try reflexivity; try discriminate.
      rewrite Qeq_bool_refl in P; discriminate. }
    unfold SecurityBase.revalue, SecurityBase.set_weight, SecurityBase.stored.
    cbn [SecurityBase._position SecurityBase._price SecurityBase.multiplier
         SecurityBase._weight SecurityBase._needupdate SecurityBase.name
         SecurityBase.now SecurityBase._last_pos SecurityBase._prices_set
         SecurityBase._prices SecurityBase._values SecurityBase._positions
         SecurityBase._value].
    rewrite Z, !andb_false_r, !series_set_idem.
    reflexivity.
Qed.

Lemma update_sec fuel rootnow d data s :
  update fuel rootnow d data (Sec s)
  = match SecurityBase.update d data s with
    | Ok s' => Some (Ok (Sec s'))
    | Raise e s' => Some (Raise e (Sec s'))
    end.
Proof. destruct fuel; reflexivity. Qed.

Section SecondLoop.
Variables (fuel : nat) (r1 r2 : option date) (d : date).
Variables (data data' : option (list (string * num))).
Variable val1 : num.

(** How the first loop left a child. *)
Definition first_pass (c c1 : node) : Prop :=
  if skipped c then c1 = c else update fuel r1 d data c = Some (Ok c1).

(** The loop of a second update over the children that a first update
    left, reweighed: every child is found as it is. *)
Lemma second_loop cs cs1 :
  Forall (fun kc : string * node => is_sec (snd kc) = true) cs ->
  children_rel first_pass cs cs1 ->
  forall acc,
    update_children (update fuel r2 d data') (reweigh val1 cs1) acc
    = Some (Ok (reweigh val1 cs1,
                children_total (reweigh val1 cs1) (reweigh val1 cs1) acc)).
Proof.
  intros Hsec H; induction H as [|[k c] [k1 c1] l l1 (K & P) _ IH];
    intros acc; [reflexivity|].
  inversion Hsec as [|x y Hc Hrest]; subst x y.
  cbn [fst snd] in K, P, Hc; subst k1.
  destruct c as [f cs0 p0|s]; [discriminate|].
  unfold first_pass in P.
  cbn [reweigh map]; fold (reweigh val1 l1).
  destruct (skipped (Sec s)) eqn:Hs.
  - subst c1; rewrite Hs.
    cbn [update_children children_total]; rewrite Hs, (IH Hrest acc).
    reflexivity.
  - rewrite update_sec in P.
    destruct (SecurityBase.update d data s) as [s'|e s'] eqn:U; [|discriminate].
    inversion P; subst c1; clear P.
    destruct (skipped (Sec s')) eqn:Hs'.
    + cbn [update_children children_total]; rewrite Hs', (IH Hrest acc).
      reflexivity.
    + cbn [set_node_weight update_children children_total].
      assert (Hk : skipped (Sec (SecurityBase.set_weight
                                   match Num.div (node_value (Sec s')) val1 with
                                   | Some w => w
                                   | None => Flt 0
                                   end s')) = false) by exact Hs'.
      rewrite Hk, update_sec, (@security_update_settled d data s s' U _ data').
      rewrite (IH Hrest); reflexivity.
Qed.

(** The total of the second loop is the total of the first when the
    securities that have gone dormant are worth nothing. *)
Lemma second_total cs cs1 :
  Forall (fun kc : string * node => is_sec (snd kc) = true) cs ->
  children_rel first_pass cs cs1 ->
  (forall k c, In (k, c) (reweigh val1 cs1) -> skipped c = true ->
               Num.eqb (node_value c) zero = true) ->
  forall acc acc', acc ≃ acc' ->
    children_total (reweigh val1 cs1) (reweigh val1 cs1) acc
    ≃ children_total cs cs1 acc'.
Proof.
  intros Hsec H; induction H as [|[k c] [k1 c1] l l1 (K & P) _ IH];
    intros Hz acc acc' E; [exact E|].
  inversion Hsec as [|x y Hc Hrest]; subst x y.
  cbn [fst snd] in K, P, Hc; subst k1.
  unfold first_pass in P.
  cbn [reweigh map] in Hz |- *; fold (reweigh val1 l1) in Hz |- *.
  assert (Hz' : forall k0 c0, In (k0, c0) (reweigh val1 l1) ->
                              skipped c0 = true ->
                              Num.eqb (node_value c0) zero = true)
    by (intros k0 c0 Hin; apply (Hz k0 c0); right; exact Hin).
  destruct (skipped c) eqn:Hs.
  - subst c1; rewrite Hs in Hz |- *.
    cbn [children_total]; rewrite Hs.
    apply IH; assumption.
  - destruct (skipped c1) eqn:Hs1.
    + cbn [children_total]; rewrite Hs1, Hs.
      apply IH; [assumption..|].
      pose proof (eqb_eqv _ _ (Hz k c1 (or_introl eq_refl) Hs1)) as V.
      eapply eqv_trans; [|exact (@add_eqv _ _ _ _ E (eqv_sym _ _ V))].
      apply eqv_sym, same_eqv, add_zero_same.
    + cbn [children_total].
      rewrite skipped_set_node_weight, Hs1, Hs, value_set_node_weight.
      apply IH; [assumption..|].
      apply add_eqv; [exact E|apply eqv_refl].
Qed.

End SecondLoop.

Lemma start_settled d f : StrategyBase.now f = d -> start d f = f.
Proof.
  intros <-; destruct f; unfold start.
  cbn [StrategyBase.now StrategyBase.name StrategyBase._price StrategyBase._value
       StrategyBase._weight StrategyBase._capital StrategyBase._net_flows
       StrategyBase._last_value StrategyBase._last_price StrategyBase._last_fee
       StrategyBase._paper_trade StrategyBase._has_strat_children
       StrategyBase._strat_children StrategyBase._universe StrategyBase._prices
       StrategyBase._values StrategyBase._cash StrategyBase._fees
       StrategyBase.commission_fn].
  rewrite Z.eqb_refl, andb_false_r; reflexivity.
Qed.

(** A total that starts from a numpy number is a numpy number. *)
Lemma children_total_f64 before : forall after acc,
  kind_of acc = Float64 ->
  kind_of (children_total before after acc) = Float64.
Proof.
  induction before as [|[k c] b IH]; intros [|[k' c'] a] acc H;
    cbn [children_total]; try exact H.
  apply IH; destruct (skipped c); [exact H|].
  cbn [kind_of Num.add]; rewrite H; reflexivity.
Qed.

(** Two divisors of the same value give the same quotient, unless the
    value is zero and only one of the two divisions raises. *)
Lemma div_eqv (a v v2 : num) :
  v ≃ v2 ->
  Num.eqb v zero = false
  \/ (kind_of v = Float64 /\ kind_of v2 = Float64) ->
  match Num.div a v, Num.div a v2 with
  | Some w, Some w' => w ≃ w'
  | None, None => True
  | _, _ => False
  end.
Proof.
  intros E H.
  assert (Q : Num.esame (Num.ediv (valof a) (valof v))
                        (Num.ediv (valof a) (valof v2)))
    by (apply ediv_esame; [apply esame_refl|exact E]).
  destruct H as [Z|[K K2]].
  - assert (Z2 : Num.eqb v2 zero = false)
      by (rewrite <- Z; apply eqb_eqv_compat;
          [apply eqv_sym; exact E|apply eqv_refl]).
    unfold Num.eqb in Z, Z2; cbn [valof zero Int] in Z, Z2.
    change (inject_Z 0) with 0 in Z, Z2.
    unfold Num.div; rewrite Z, Z2.
    destruct (Num.join (kind_of a) (kind_of v)),
             (Num.join (kind_of a) (kind_of v2)); exact Q.
  - unfold Num.div; rewrite K, K2.
    destruct (kind_of a); exact Q.
Qed.

(** What a second update may change in a child: its weight, to a share
    that is the same number. *)
Definition reweighed (c c' : node) : Prop :=
  node_value c' = node_value c
  /\ node_weight c' ≃ node_weight c
  /\ skipped c' = skipped c
  /\ ledger c' = ledger c
  /\ node_now c' = node_now c
  /\ node_price c' = node_price c.

Lemma reweigh_twice val val2 cs1 :
  val ≃ val2 ->
  Num.eqb val zero = false
  \/ (kind_of val = Float64 /\ kind_of val2 = Float64) ->
  children_rel reweighed (reweigh val cs1) (reweigh val2 (reweigh val cs1)).
Proof.
  intros E K; induction cs1 as [|[k c] rest IH]; [constructor|].
  cbn [reweigh map]; fold (reweigh val rest);
    fold (reweigh val2 (reweigh val rest)).
  constructor; [|exact IH].
  destruct (skipped c) eqn:Hs.
  - rewrite Hs; cbn [fst snd]; split; [reflexivity|].
    repeat split; apply eqv_refl.
  - rewrite skipped_set_node_weight, Hs; cbn [fst snd].
    split; [reflexivity|].
    unfold reweighed.
    rewrite !value_set_node_weight, !weight_set_node_weight,
            !skipped_set_node_weight.
    split; [reflexivity|]. split.
    + pose proof (@div_eqv (node_value c) val val2 E K) as D.
      destruct (Num.div (node_value c) val) as [w|],
               (Num.div (node_value c) val2) as [w'|];
        try contradiction; [apply eqv_sym; exact D|apply eqv_refl].
    + split; [reflexivity|].
      destruct c; repeat split.
Qed.

(** X28.  Updating twice is updating once.  For a strategy that does not
    paper-trade and whose children are securities: when an update at a
    date other than zero has returned with a value that is a number, the
    securities it left dormant being worth nothing, a second update at
    that date (with any data) returns as well, and leaves the value and
    the price of the strategy, its capital, and the value, position, date
    and price of every child as they are; the weights are recomputed to
    the same numbers.  The value is other than zero, or the capital is a
    numpy number: at a value of zero the division that gives a weight
    raises or not with the kinds of the numbers, which the dormant
    securities can change. *)
Theorem update_twice_is_once fuel rootnow d data data' f cs paper n1 :
  d <> 0%Z ->
  StrategyBase._paper_trade f = false ->
  StrategyBase._strat_children f = [] ->
  Forall (fun kc : string * node => is_sec (snd kc) = true) cs ->
  update (S fuel) rootnow d data (Strat f cs paper) = Some (Ok n1) ->
  Num.isnan (node_value n1) = false ->
  Num.eqb (node_value n1) zero = false
  \/ kind_of (StrategyBase._capital f) = Float64 ->
  (forall k c, In (k, c) (node_children n1) -> skipped c = true ->
               Num.eqb (node_value c) zero = true) ->
  exists n2,
    update (S fuel) rootnow d data' n1 = Some (Ok n2)
    /\ node_value n2 = node_value n1
    /\ node_price n2 = node_price n1
    /\ node_now n2 = node_now n1
    /\ hd_error (ledger n2) = hd_error (ledger n1)
    /\ children_rel reweighed (node_children n1) (node_children n2).
Proof.
  intros Hd Hpaper Hnames Hsec H Hnum Hkind Hzero.
  cbn [update] in H.
  set (rn := match rootnow with Some r => r | None => d end) in *.
  destruct (@update_strategy_ok _ _ _ _ _ _ _ _ H)
    as (cs1 & val & f4 & cs3 & Hc & Hs & Hp).
  destruct (@settle_ok _ _ _ _ _ _ _ _ _ Hs)
    as (Hroot & f2 & u & Hcommit & -> & Hcs).
  pose proof (@commit_value _ _ _ _ _ Hcommit) as Hv.
  pose proof (@commit_ok _ _ _ _ _ Hcommit) as C.
  assert (F2 : StrategyBase._strat_children f2 = []
               /\ StrategyBase.now f2 = d
               /\ StrategyBase._paper_trade f2 = false
               /\ StrategyBase._capital f2 = StrategyBase._capital f).
  { destruct (commits (newpt d f) val (start d f));
      [destruct C as (ret & _ & ->)|subst f2]; cbn; auto. }
  destruct F2 as (N2 & D2 & P2 & C2).
  rewrite N2 in Hcs.
  assert (Hcs3 : cs3 = reweigh val cs1) by (apply Hcs; intros c []).
  subst cs3; clear Hcs.
  pose proof (@paper_trade_ok _ _ _ _ _ _ _ Hp) as P.
  change (StrategyBase._paper_trade (snapshot (set_universe u f2)))
    with (StrategyBase._paper_trade f2) in P.
  rewrite P2, andb_false_r in P; subst n1; clear Hp.
  set (f4 := snapshot (set_universe u f2)) in *.
  cbn [node_value node_children] in Hnum, Hzero, Hkind.
  change (StrategyBase._value f4) with (StrategyBase._value f2) in Hnum, Hkind.
  (* the second update *)
  pose proof (@update_children_ok_rel _ _ _ _ _ Hc) as Hrel.
  pose proof (@update_children_total _ _ _ _ _ Hc) as Hval.
  assert (Hstart : start d f4 = f4) by (apply start_settled; exact D2).
  assert (Hnp : newpt d f4 = false).
  { unfold newpt; change (StrategyBase.now f4) with (StrategyBase.now f2).
    rewrite D2, Z.eqb_refl; apply Z.eqb_neq in Hd; rewrite Hd; reflexivity. }
  set (val2 := children_total (reweigh val cs1) (reweigh val cs1)
                              (StrategyBase._capital f4)).
  assert (Hloop : update_children (update fuel (Some rn) d data')
                    (reweigh val cs1) (StrategyBase._capital f4)
                  = Some (Ok (reweigh val cs1, val2))).
  { apply (@second_loop fuel (Some rn) (Some rn) d data data' val cs cs1 Hsec Hrel). }
  assert (Hval2 : val2 ≃ val).
  { rewrite Hval; unfold val2.
    apply (@second_total fuel (Some rn) d data val cs cs1 Hsec Hrel Hzero).
    change (StrategyBase._capital f4) with (StrategyBase._capital f2).
    rewrite C2; apply eqv_refl. }
  assert (Hnc : Num.neqb (StrategyBase._value f4) val2 = false).
  { change (StrategyBase._value f4) with (StrategyBase._value f2).
    pose proof (eqv_trans _ _ _ Hv (eqv_sym _ _ Hval2)) as E.
    unfold Num.neqb; rewrite (@eqv_eqb _ _ E Hnum); reflexivity. }
  assert (Hk2 : Num.eqb val zero = false
                \/ (kind_of val = Float64 /\ kind_of val2 = Float64)).
  { destruct Hkind as [Z|K]; [left|right].
    - rewrite <- Z; apply eqb_eqv_compat; [apply eqv_sym; exact Hv|apply eqv_refl].
    - split; [rewrite Hval|unfold val2]; apply children_total_f64;
        [exact K|].
      change (StrategyBase._capital f4) with (StrategyBase._capital f2).
      rewrite C2; exact K. }
  exists (Strat (snapshot f4) (reweigh val2 (reweigh val cs1)) paper).
  split.
  - cbn [update]; unfold update_strategy.
    rewrite Hstart, Hnp; fold rn; rewrite Hloop.
    unfold settle.
    rewrite (@ltb_same val2 val zero Hval2), Hroot.
    unfold commit, commits; rewrite Hnc; cbn [orb].
    change (StrategyBase._strat_children f4) with (StrategyBase._strat_children f2).
    rewrite N2; cbn [publish].
    destruct (StrategyBase._has_strat_children f4);
      unfold paper_trade; cbn [andb]; reflexivity.
  - cbn [node_value node_price node_now node_children].
    split; [reflexivity|]. split; [reflexivity|]. split; [reflexivity|].
    split; [reflexivity|].
    apply reweigh_twice; [apply eqv_sym; exact Hval2|exact Hk2].
Qed.

(** The fund of the examples, updated at the third date and then once
    more. *)
Lemma update_twice_is_once_witness :
  exists n2,
    update 1 None 3%Z None (Examples.do_update 3%Z Examples.fund) = Some (Ok n2)
    /\ node_value n2 = node_value (Examples.do_update 3%Z Examples.fund)
    /\ node_price n2 = node_price (Examples.do_update 3%Z Examples.fund)
    /\ node_now n2 = node_now (Examples.do_update 3%Z Examples.fund)
    /\ hd_error (ledger n2)
       = hd_error (ledger (Examples.do_update 3%Z Examples.fund))
    /\ children_rel reweighed
         (node_children (Examples.do_update 3%Z Examples.fund))
         (node_children n2).
Proof.
  apply (@update_twice_is_once 0 None 3%Z None None
           (Examples.desk 1%Z StrategyBase._dflt_comm_fn)
           [("A"%string, Sec Examples.held); ("B"%string, Sec Examples.idle)]
           None (Examples.do_update 3%Z Examples.fund)).
  - discriminate.
  - reflexivity.
  - reflexivity.
  - repeat constructor.
  - vm_compute; reflexivity.
  - vm_compute; reflexivity.
  - left; vm_compute; reflexivity.
  - intros k c H Hs; vm_compute in H.
    destruct H as [H|[H|[]]]; inversion H; subst c;
      [vm_compute in Hs; discriminate Hs|vm_compute; reflexivity].
Defined.

(** At a value of zero the kinds of the numbers tell.  A root worth
    nothing holds five shares of an unlisted "Z", priced [0], and a
    fresh "A" of the panel.  The first update values "A" at [0.0], a
    [numpy.float64], and leaves it dormant: the total is [0.0] and the
    weight of "Z", [0 / 0.0], is not-a-number.  The second update skips
    "A": the total is the [int] [0], the division raises and the weight
    of "Z" becomes [0.0]. *)
Example update_twice_zero_value :
  let z := {| SecurityBase.name := "Z"; SecurityBase.now := 1%Z;
              SecurityBase._price := Int 0; SecurityBase._value := Int 0;
              SecurityBase._weight := Int 0; SecurityBase._position := Int 5;
              SecurityBase.multiplier := Int 1; SecurityBase._last_pos := Int 5;
              SecurityBase._needupdate := true;
              SecurityBase._prices_set := false;
              SecurityBase._prices := []; SecurityBase._values := [];
              SecurityBase._positions := [] |} in
  let n0 := Strat (Examples.account "root" 1%Z (Flt 100) (Int 0) (Int 0) (Int 0)
                                    (Int 0) (Flt 100) false)
                  [("Z"%string, Sec z);
                   ("A"%string,
                    Sec (SecurityBase.init_setup "A" (Int 1) Examples.panel))]
                  None in
  exists n1 n2 z1 z2 a1,
    update 1 None 1%Z None n0 = Some (Ok n1)
    /\ update 1 None 1%Z None n1 = Some (Ok n2)
    /\ Num.eqb (node_value n1) zero = true
    /\ node_children n1 = [("Z"%string, z1); ("A"%string, a1)]
    /\ dormant a1 = true
    /\ node_value a1 ≡ F64 0
    /\ assoc "Z" (node_children n2) = Some z2
    /\ Num.isnan (node_weight z1) = true
    /\ node_weight z2 ≡ Flt 0.
Proof.
  do 5 eexists.
  split; [vm_compute; reflexivity|].
  split; [vm_compute; reflexivity|].
  split; [reflexivity|].
  split; [reflexivity|].
  split; [reflexivity|].
  split; [by_compute|].
  split; [reflexivity|].
  split; [reflexivity|by_compute].
Qed.

End UpdateTwice.

(** ** The value of a strategy and the values of its children *)

Section ValueOfChildren.
Import Tick Update.













End ValueOfChildren.
